(** * Minceraft world engine: terrain synthesis, chunk store, mesher, fluids

    Shallow embedding of [src/game/Chunk.ts] (class [ChunkManager]) and of the
    world part of [src/game/Engine.ts] (class [GameEngine]), with the block
    table of [src/constants.ts] and the enumerations of [src/types.ts].

    Modelling conventions, used throughout:
    - a JavaScript [number] holding an integer (block codes, world and chunk
      coordinates, array indices) is a [Z]; one holding a fraction (noise
      samples, heights before rounding, vertex positions, mining progress) is
      an exact rational [Q], decimal literals taken at their decimal value;
    - a [Map<string, V>] is an association list in insertion order
      ([JSMap]); the [Set<string>] of the fluid queue, which is never
      iterated, is a [gset string];
    - a typed array is its length and its cells ([TypedArray]); a write out of
      range is dropped, as the language defines it;
    - methods that mutate [this] are functions from engine state to engine
      state; [Math.random] is a field of that state (an unbounded supply of
      draws), since the engine reads it as hidden global state;
    - the scene graph, textures, materials and the clock are render-side and
      are left out; the ray cast, the noise fields and [Math.sin] belong to
      outside libraries and are parameters. *)

From Stdlib Require Import ZArith QArith Qround Qabs Lia List Bool Ascii String.
From Stdlib Require Import Decimal DecimalString DecimalPos DecimalZ.
From stdpp Require Import base tactics option list gmap strings.

Import ListNotations.
Open Scope Z_scope.

(** ** JavaScript numbers *)

Module Num.

Definition Qltb (a b : Q) : bool := negb (Qle_bool b a).
Definition Qgtb (a b : Q) : bool := Qltb b a.
Definition Qleb (a b : Q) : bool := Qle_bool a b.
Definition Qgeb (a b : Q) : bool := Qle_bool b a.

Definition Math_floor (q : Q) : Z := Qfloor q.
Definition Math_abs (q : Q) : Q := Qabs q.

(** [x % 1]: the remainder keeps the sign of [x] (truncated division). *)
Definition trunc (q : Q) : Z := if Qle_bool 0 q then Qfloor q else Qceiling q.
Definition mod1 (q : Q) : Q := q - inject_Z (trunc q).

(** [a % b] on integers: truncated remainder, as [Z.rem]. *)
Definition jsmod (a b : Z) : Z := Z.rem a b.

(** [for (let i = lo; i < hi; i++)]: the values [i] takes. *)
Definition range (lo hi : Z) : list Z :=
  map (fun k => lo + Z.of_nat k) (seq 0 (Z.to_nat (hi - lo))).

(** [for (let i = lo; i < hi; i++) body], threading the mutated state. *)
Definition for_range {S : Type} (lo hi : Z) (body : Z -> S -> S) (s : S) : S :=
  fold_left (fun acc i => body i acc) (range lo hi) s.

End Num.
Export Num.

Declare Scope js_scope.
Delimit Scope js_scope with js.
Infix "<?" := Qltb (at level 70, no associativity) : js_scope.
Infix ">?" := Qgtb (at level 70, no associativity) : js_scope.
Infix "<=?" := Qleb (at level 70, no associativity) : js_scope.
Infix ">=?" := Qgeb (at level 70, no associativity) : js_scope.

(** ** String keys: [`${x},${y},${z}`], [split(',')], [parseInt], [Number] *)

Module Key.

(** Template-literal conversion of an integer-valued number. *)
Definition numToString (z : Z) : string := NilEmpty.string_of_int (Z.to_int z).

Definition comma : ascii := ","%char.

(** [`${a},${b}`] and [`${a},${b},${c}`]. *)
Definition key2 (a b : Z) : string :=
  numToString a +:+ String comma (numToString b).
Definition key3 (a b c : Z) : string :=
  numToString a +:+ String comma (numToString b +:+ String comma (numToString c)).

(** [s.split(sep)] for a one-character separator. *)
Fixpoint split (sep : ascii) (s : string) : list string :=
  match s with
  | EmptyString => [EmptyString]
  | String c s' =>
      if Ascii.eqb c sep then EmptyString :: split sep s'
      else match split sep s' with
           | h :: t => String c h :: t
           | [] => [String c EmptyString]
           end
  end.

Definition is_digit (c : ascii) : bool :=
  let n := nat_of_ascii c in (48 <=? n)%nat && (n <=? 57)%nat.

(** Longest prefix of decimal digits. *)
Fixpoint digits (s : string) : string :=
  match s with
  | String c s' => if is_digit c then String c (digits s') else EmptyString
  | EmptyString => EmptyString
  end.

Definition signed (s : string) : bool * string :=
  match s with
  | String "-"%char r => (true, r)
  | String "+"%char r => (false, r)
  | _ => (false, s)
  end.

Definition apply_sign (neg : bool) (u : uint) : Z :=
  let n := Z.of_N (N.of_uint u) in if neg then - n else n.

(** [parseInt(s)]: an optional sign and the longest run of digits after it;
    [None] is [NaN]. Leading white space and the [0x] prefix, which no key
    written by the engine contains, are not modelled. *)
Definition parseInt (s : string) : option Z :=
  let '(neg, body) := signed s in
  match digits body with
  | EmptyString => None
  | ds => option_map (apply_sign neg) (NilEmpty.uint_of_string ds)
  end.

(** [parseInt(parts[i])]; a missing part is [undefined], which parses to [NaN]. *)
Definition parseInt_at (parts : list string) (i : nat) : option Z :=
  match nth_error parts i with
  | Some s => parseInt s
  | None => None
  end.

(** [Number(s)] on the decimal integers the engine writes: the whole string
    must be a signed run of digits; the empty string converts to 0; anything
    else is [NaN] ([None]). *)
Definition Number (s : string) : option Z :=
  match s with
  | EmptyString => Some 0
  | _ =>
      let '(neg, body) := signed s in
      if String.eqb (digits body) body then parseInt s else None
  end.

(** A string without the separator. *)
Fixpoint plain (s : string) : bool :=
  match s with
  | EmptyString => true
  | String c s' => negb (Ascii.eqb c comma) && plain s'
  end.

(** [const [a, b] = key.split(',').map(Number)]. *)
Definition parse2 (key : string) : option Z * option Z :=
  let parts := map Number (split comma key) in
  (match nth_error parts 0 with Some v => v | None => None end,
   match nth_error parts 1 with Some v => v | None => None end).

End Key.

(** ** [Map<string, V>]: entries in insertion order *)

Module JSMap.

Definition t (V : Type) : Type := list (string * V).

Definition empty {V} : t V := [].

Fixpoint get {V} (m : t V) (k : string) : option V :=
  match m with
  | [] => None
  | (k', v) :: m' => if String.eqb k k' then Some v else get m' k
  end.

Definition has {V} (m : t V) (k : string) : bool :=
  match get m k with Some _ => true | None => false end.

(** [m.set(k, v)]: an existing key keeps its place, a new one goes last. *)
Fixpoint set {V} (m : t V) (k : string) (v : V) : t V :=
  match m with
  | [] => [(k, v)]
  | (k', v') :: m' =>
      if String.eqb k k' then (k, v) :: m' else (k', v') :: set m' k v
  end.

Definition delete {V} (m : t V) (k : string) : t V :=
  List.filter (fun e => negb (String.eqb k (fst e))) m.

Definition keys {V} (m : t V) : list string := map fst m.

Definition size {V} (m : t V) : nat := length m.

End JSMap.

(** ** Block types and the block descriptor table ([types.ts], [constants.ts]) *)

Module Block.

(** [enum BlockType]: the numeric codes. *)
Definition AIR : Z := 0.
Definition GRASS : Z := 1.
Definition DIRT : Z := 2.
Definition STONE : Z := 3.
Definition WOOD : Z := 4.
Definition LEAVES : Z := 5.
Definition SAND : Z := 6.
Definition BRICK : Z := 7.
Definition SNOW : Z := 8.
Definition ICE : Z := 9.
Definition CACTUS : Z := 10.
Definition TALL_GRASS : Z := 11.
Definition WATER : Z := 12.
Definition SANDSTONE : Z := 13.
Definition GRAVEL : Z := 14.
Definition RED_SAND : Z := 15.
Definition CLAY : Z := 16.
Definition PODZOL : Z := 17.
Definition PLANKS : Z := 18.
Definition BEDROCK : Z := 19.
Definition BIRCH_LOG : Z := 20.
Definition BIRCH_LEAVES : Z := 21.
Definition SPRUCE_LOG : Z := 22.
Definition SPRUCE_LEAVES : Z := 23.
Definition JUNGLE_LOG : Z := 24.
Definition JUNGLE_LEAVES : Z := 25.
Definition ACACIA_LOG : Z := 26.
Definition ACACIA_LEAVES : Z := 27.
Definition CRAFTING_TABLE : Z := 28.
Definition COBBLESTONE : Z := 29.
Definition STICK : Z := 30.
Definition DIAMOND_BLOCK : Z := 31.
Definition COAL_ORE : Z := 32.
Definition COAL : Z := 33.
Definition TORCH : Z := 34.
Definition WOODEN_PICKAXE : Z := 35.
Definition WOODEN_AXE : Z := 36.
Definition WOODEN_SHOVEL : Z := 37.
Definition WOODEN_SWORD : Z := 38.
Definition STONE_PICKAXE : Z := 39.
Definition STONE_AXE : Z := 40.
Definition STONE_SHOVEL : Z := 41.
Definition STONE_SWORD : Z := 42.
Definition RAW_BEEF : Z := 43.
Definition PORKCHOP : Z := 44.
Definition MUTTON : Z := 45.
Definition ROTTEN_FLESH : Z := 46.
Definition FLOWING_WATER : Z := 47.

(** A value of the enumeration. *)
Definition isBlockType (b : Z) : Prop := 0 <= b <= 47.

Inductive ToolType := pickaxe | axe | shovel | sword | none.

Definition ToolType_eqb (a b : ToolType) : bool :=
  match a, b with
  | pickaxe, pickaxe | axe, axe | shovel, shovel | sword, sword | none, none => true
  | _, _ => false
  end.

(** [interface BlockProp]; an optional field that is absent is [None]. *)
Record BlockProp := mkBlockProp {
  name : string;
  color : Z;
  transparent : option bool;
  cross : option bool;
  fluid : option bool;
  hardness : option Q;
  isItem : option bool;
  toolType : option ToolType;
  efficiency : option Q;
  damage : option Q;
  emissive : option bool;
  healAmount : option Q
}.

(** The object literal [{ name, color }], and one constructor per optional
    field to extend it, so that a table row reads as in [constants.ts]. *)
Definition entry (n : string) (c : Z) : BlockProp :=
  mkBlockProp n c None None None None None None None None None None.
Definition with_transparent (p : BlockProp) : BlockProp :=
  mkBlockProp (name p) (color p) (Some true) (cross p) (fluid p) (hardness p)
    (isItem p) (toolType p) (efficiency p) (damage p) (emissive p) (healAmount p).
Definition with_cross (p : BlockProp) : BlockProp :=
  mkBlockProp (name p) (color p) (transparent p) (Some true) (fluid p) (hardness p)
    (isItem p) (toolType p) (efficiency p) (damage p) (emissive p) (healAmount p).
Definition with_fluid (p : BlockProp) : BlockProp :=
  mkBlockProp (name p) (color p) (transparent p) (cross p) (Some true) (hardness p)
    (isItem p) (toolType p) (efficiency p) (damage p) (emissive p) (healAmount p).
Definition with_hardness (h : Q) (p : BlockProp) : BlockProp :=
  mkBlockProp (name p) (color p) (transparent p) (cross p) (fluid p) (Some h)
    (isItem p) (toolType p) (efficiency p) (damage p) (emissive p) (healAmount p).
Definition with_isItem (p : BlockProp) : BlockProp :=
  mkBlockProp (name p) (color p) (transparent p) (cross p) (fluid p) (hardness p)
    (Some true) (toolType p) (efficiency p) (damage p) (emissive p) (healAmount p).
Definition with_toolType (t : ToolType) (p : BlockProp) : BlockProp :=
  mkBlockProp (name p) (color p) (transparent p) (cross p) (fluid p) (hardness p)
    (isItem p) (Some t) (efficiency p) (damage p) (emissive p) (healAmount p).
Definition with_efficiency (e : Q) (p : BlockProp) : BlockProp :=
  mkBlockProp (name p) (color p) (transparent p) (cross p) (fluid p) (hardness p)
    (isItem p) (toolType p) (Some e) (damage p) (emissive p) (healAmount p).
Definition with_damage (d : Q) (p : BlockProp) : BlockProp :=
  mkBlockProp (name p) (color p) (transparent p) (cross p) (fluid p) (hardness p)
    (isItem p) (toolType p) (efficiency p) (Some d) (emissive p) (healAmount p).
Definition with_emissive (p : BlockProp) : BlockProp :=
  mkBlockProp (name p) (color p) (transparent p) (cross p) (fluid p) (hardness p)
    (isItem p) (toolType p) (efficiency p) (damage p) (Some true) (healAmount p).
Definition with_healAmount (a : Q) (p : BlockProp) : BlockProp :=
  mkBlockProp (name p) (color p) (transparent p) (cross p) (fluid p) (hardness p)
    (isItem p) (toolType p) (efficiency p) (damage p) (emissive p) (Some a).

Definition block (n : string) (c : Z) (h : Q) : BlockProp :=
  with_hardness h (entry n c).
Definition tooled (n : string) (c : Z) (h : Q) (t : ToolType) : BlockProp :=
  with_toolType t (block n c h).
Definition see_through (n : string) (c : Z) (h : Q) : BlockProp :=
  with_transparent (block n c h).
Definition food (n : string) (c : Z) (a : Q) : BlockProp :=
  with_healAmount a (with_isItem (entry n c)).
Definition tool (n : string) (c : Z) (t : ToolType) (e : Q) : BlockProp :=
  with_efficiency e (with_toolType t (with_hardness 0 (with_isItem (entry n c)))).
Definition weapon (n : string) (c : Z) (d : Q) : BlockProp :=
  with_damage d (with_toolType sword (with_hardness 0 (with_isItem (entry n c)))).

(** [BLOCK_PROPS], row by row in the order of the source. *)
Definition BLOCK_PROPS_table : list (Z * BlockProp) :=
  [ (GRASS, tooled "Grass" 0x55902a 0.6 shovel);
    (DIRT, tooled "Dirt" 0x795548 0.5 shovel);
    (STONE, tooled "Stone" 0x9e9e9e 1.5 pickaxe);
    (WOOD, tooled "Oak Wood" 0x5d4037 2.0 axe);
    (LEAVES, see_through "Leaves" 0x2e7d32 0.2);
    (SAND, tooled "Sand" 0xd4c4a8 0.5 shovel);
    (BRICK, tooled "Bricks" 0x8d6e63 2.0 pickaxe);
    (SNOW, tooled "Snow" 0xffffff 0.3 shovel);
    (ICE, see_through "Ice" 0xa5d6f1 0.5);
    (CACTUS, block "Cactus" 0x558b2f 0.4);
    (TALL_GRASS, with_cross (see_through "Tall Grass" 0x55902a 0.0));
    (WATER, with_fluid (see_through "Water" 0x244b7f (-1)));
    (FLOWING_WATER, with_fluid (see_through "Flowing Water" 0x244b7f (-1)));
    (SANDSTONE, tooled "Sandstone" 0xD6C296 0.8 pickaxe);
    (GRAVEL, tooled "Gravel" 0x707070 0.6 shovel);
    (RED_SAND, tooled "Red Sand" 0xD2691E 0.5 shovel);
    (CLAY, tooled "Clay" 0xA2A6B5 0.6 shovel);
    (PODZOL, tooled "Podzol" 0x4E342E 0.6 shovel);
    (PLANKS, tooled "Planks" 0xA0784B 1.5 axe);
    (BEDROCK, block "Bedrock" 0x222222 (-1));
    (BIRCH_LOG, tooled "Birch Log" 0xE0E0E0 2.0 axe);
    (BIRCH_LEAVES, see_through "Birch Leaves" 0x80A755 0.2);
    (SPRUCE_LOG, tooled "Spruce Log" 0x3E2723 2.0 axe);
    (SPRUCE_LEAVES, see_through "Spruce Leaves" 0x385942 0.2);
    (JUNGLE_LOG, tooled "Jungle Log" 0x554433 2.0 axe);
    (JUNGLE_LEAVES, see_through "Jungle Leaves" 0x228B22 0.2);
    (ACACIA_LOG, tooled "Acacia Log" 0x6D6965 2.0 axe);
    (ACACIA_LEAVES, see_through "Acacia Leaves" 0x667530 0.2);
    (CRAFTING_TABLE, tooled "Crafting Table" 0xA0784B 2.5 axe);
    (COBBLESTONE, tooled "Cobblestone" 0x606060 2.0 pickaxe);
    (STICK, with_isItem (block "Stick" 0x8D6E63 0.1));
    (DIAMOND_BLOCK, tooled "Diamond Block" 0x00FFFF 5.0 pickaxe);
    (COAL_ORE, tooled "Coal Ore" 0x333333 3.0 pickaxe);
    (COAL, with_hardness 0 (with_isItem (entry "Coal" 0x111111)));
    (TORCH, with_emissive (see_through "Torch" 0xFFD700 0.0));
    (RAW_BEEF, food "Raw Beef" 0xD32F2F 3);
    (PORKCHOP, food "Raw Porkchop" 0xF48FB1 3);
    (MUTTON, food "Raw Mutton" 0xEF5350 3);
    (ROTTEN_FLESH, food "Rotten Flesh" 0x6D4C41 1);
    (WOODEN_PICKAXE, tool "Wooden Pickaxe" 0x8D6E63 pickaxe 2.0);
    (WOODEN_AXE, tool "Wooden Axe" 0x8D6E63 axe 2.0);
    (WOODEN_SHOVEL, tool "Wooden Shovel" 0x8D6E63 shovel 2.0);
    (WOODEN_SWORD, weapon "Wooden Sword" 0x8D6E63 4.0);
    (STONE_PICKAXE, tool "Stone Pickaxe" 0x9e9e9e pickaxe 4.0);
    (STONE_AXE, tool "Stone Axe" 0x9e9e9e axe 4.0);
    (STONE_SHOVEL, tool "Stone Shovel" 0x9e9e9e shovel 4.0);
    (STONE_SWORD, weapon "Stone Sword" 0x9e9e9e 5.0) ].

(** [BLOCK_PROPS[id]]; [None] is [undefined]. *)
Fixpoint lookup (tbl : list (Z * BlockProp)) (id : Z) : option BlockProp :=
  match tbl with
  | [] => None
  | (k, p) :: tbl' => if k =? id then Some p else lookup tbl' id
  end.
Definition BLOCK_PROPS (id : Z) : option BlockProp := lookup BLOCK_PROPS_table id.

(** [for (const bIDStr in BLOCK_PROPS)]: the keys of an object are visited,
    integer keys first and in ascending order. Every key of the table is a
    block code, so the visit is the ascending run of the codes that have a
    row. *)
Definition BLOCK_PROPS_keys : list Z :=
  List.filter (fun id => match BLOCK_PROPS id with Some _ => true | None => false end)
    (range 0 48).

(** Truthiness of an optional boolean field. *)
Definition truthy (o : option bool) : bool :=
  match o with Some b => b | None => false end.

(** [BLOCK_PROPS[id]?.f] for a boolean field [f], as a condition. *)
Definition prop_flag (f : BlockProp -> option bool) (id : Z) : bool :=
  match BLOCK_PROPS id with Some p => truthy (f p) | None => false end.

End Block.
Export Block.

(** ** Typed arrays *)

Module TypedArray.

(** [Uint8Array] and [Int32Array]: a fixed length and the cells. Reading is
    only ever done in range by the code modelled here. *)
Record t := mk { length : Z; cells : Z -> Z }.

(** [new Uint8Array(n)]: all zero. *)
Definition make (n : Z) : t := mk n (fun _ => 0).

Definition get (a : t) (i : Z) : Z := cells a i.

(** [a[i] = v]: out of range nothing happens. *)
Definition store (a : t) (i v : Z) : t :=
  if (0 <=? i) && (i <? length a)
  then mk (length a) (fun j => if j =? i then v else cells a j)
  else a.

(** [Uint8Array]: the value is stored modulo 256. *)
Definition set_u8 (a : t) (i v : Z) : t :=
  let b := v mod 256 in store a i b.

(** [Int32Array]: the value is stored as a signed 32-bit integer. *)
Definition toInt32 (v : Z) : Z := (v + 2 ^ 31) mod 2 ^ 32 - 2 ^ 31.
Definition set_i32 (a : t) (i v : Z) : t :=
  let w := toInt32 v in store a i w.

(** Same contents, cell by cell. *)
Definition same (a b : t) : Prop :=
  length a = length b /\ forall i, 0 <= i < length a -> get a i = get b i.

End TypedArray.

(** ** [Math.random] *)

Module Random.

(** The draws still to come, in order. *)
Definition Source : Type := nat -> Q.

(** [Math.random()]: the next draw, and the draws after it. *)
Definition next (r : Source) : Q * Source := (r 0%nat, fun n => r (S n)).

Definition constant (q : Q) : Source := fun _ => q.

End Random.

(** ** [ChunkManager]: terrain synthesis ([Chunk.ts]) *)

Module Chunk.

Import Key.

Definition CHUNK_SIZE : Z := 16.
Definition CHUNK_HEIGHT : Z := 256.
Definition SEA_LEVEL : Z := 63.

Inductive WorldType := Default | Flat | Mountains.

(** The fields of a [ChunkManager]. The constructor fills the two noise
    fields from the [simplex-noise] package and sets
    [seedOffset = seed * 10000]. *)
Record ChunkManager := mkChunkManager {
  noise2D : Q -> Q -> Q;
  noise3D : Q -> Q -> Q -> Q;
  seedOffset : Z
}.

Definition Uint8Array := TypedArray.t.
Definition Int32Array := TypedArray.t.

(** Index of the cell (x, y, z) of a chunk: [x + z * CHUNK_SIZE + y * 256]. *)
Definition cellIndex (x y z : Z) : Z := x + z * CHUNK_SIZE + y * 256.

Section Generation.

(** [Math.sin], from the host. *)
Variable Math_sin : Q -> Q.

Local Open Scope Q_scope.
Local Coercion inject_Z : Z >-> Q.

Definition rand (x z seed : Z) : Q :=
  mod1 (Math_abs (Math_sin (x * 12.9898 + z * 78.233 + seed) * 43758.5453)).

Definition applyModifications (cx cz : Z) (data : Uint8Array)
    (modifiedBlocks : JSMap.t Z) : Uint8Array :=
  let minX := (cx * CHUNK_SIZE)%Z in
  let maxX := ((cx + 1) * CHUNK_SIZE)%Z in
  let minZ := (cz * CHUNK_SIZE)%Z in
  let maxZ := ((cz + 1) * CHUNK_SIZE)%Z in
  fold_left (fun data '(key, val) =>
    let parts := split comma key in
    match parseInt_at parts 0, parseInt_at parts 1, parseInt_at parts 2 with
    | Some gx, Some gy, Some gz =>
        if ((gx >=? minX) && (gx <? maxX) && (gz >=? minZ) && (gz <? maxZ)
            && (gy >=? 0) && (gy <? CHUNK_HEIGHT))%Z
        then
          let lx := jsmod (jsmod gx CHUNK_SIZE + CHUNK_SIZE) CHUNK_SIZE in
          let lz := jsmod (jsmod gz CHUNK_SIZE + CHUNK_SIZE) CHUNK_SIZE in
          TypedArray.set_u8 data (lx + lz * CHUNK_SIZE + gy * 256)%Z val
        else data
    | _, _, _ => data
    end) modifiedBlocks data.

(** Leaves only replace air: [if (d[idx] === AIR) d[idx] = l]. *)
Definition leafAt (d : Uint8Array) (idx l : Z) : Uint8Array :=
  if (TypedArray.get d idx =? AIR)%Z then TypedArray.set_u8 d idx l else d.

Definition makeTree (d : Uint8Array) (x z y t l h : Z) (rnd : Random.Source)
    : Uint8Array * Random.Source :=
  if ((y + h + 2 >=? CHUNK_HEIGHT) || (x <? 2) || (x >? 13) || (z <? 2) || (z >? 13))%Z
  then (d, rnd)
  else
    let d := for_range 0 h (fun i d =>
               TypedArray.set_u8 d (x + z * 16 + (y + i) * 256)%Z t) d in
    for_range (y + h - 2) (y + h + 1 + 1) (fun ly st =>
      let r := (if (ly >? y + h - 1)%Z then 1 else 2)%Z in
      for_range (x - r) (x + r + 1) (fun lx st =>
        for_range (z - r) (z + r + 1) (fun lz '(d, rnd) =>
          if ((Z.abs (lx - x) =? r) && (Z.abs (lz - z) =? r))%Z
          then
            if negb (ly =? y + h - 2)%Z then (d, rnd)
            else
              let '(u, rnd) := Random.next rnd in
              if (u >? 0.5)%js then (d, rnd)
              else (leafAt d (lx + lz * 16 + ly * 256)%Z l, rnd)
          else (leafAt d (lx + lz * 16 + ly * 256)%Z l, rnd)) st) st) (d, rnd).

Definition makeSpruceTree (d : Uint8Array) (x z y : Z) : Uint8Array :=
  if ((y + 8 >=? 256) || (x <? 3) || (x >? 12) || (z <? 3) || (z >? 12))%Z
  then d
  else
    let d := for_range 0 6 (fun i d =>
               TypedArray.set_u8 d (x + z * 16 + (y + i) * 256)%Z SPRUCE_LOG) d in
    let d := TypedArray.set_u8 d (x + z * 16 + (y + 6) * 256)%Z SPRUCE_LEAVES in
    for_range 2 6 (fun i d =>
      let r := (if (jsmod i 2 =? 0)%Z then 2 else 1)%Z in
      for_range (x - r) (x + r + 1) (fun lx d =>
        for_range (z - r) (z + r + 1) (fun lz d =>
          if ((Z.abs (lx - x) =? r) && (Z.abs (lz - z) =? r))%Z then d
          else leafAt d (lx + lz * 16 + (y + i) * 256)%Z SPRUCE_LEAVES) d) d) d.

Definition makeAcaciaTree (d : Uint8Array) (x z y : Z) : Uint8Array :=
  if ((y + 6 >=? 256) || (x <? 3) || (x >? 12) || (z <? 3) || (z >? 12))%Z
  then d
  else
    let d := for_range 0 4 (fun i d =>
               TypedArray.set_u8 d (x + z * 16 + (y + i) * 256)%Z ACACIA_LOG) d in
    for_range (x - 2) (x + 2 + 1) (fun lx d =>
      for_range (z - 2) (z + 2 + 1) (fun lz d =>
        if ((Z.abs (lx - x) =? 2) && (Z.abs (lz - z) =? 2))%Z then d
        else TypedArray.set_u8 d (lx + lz * 16 + (y + 4) * 256)%Z ACACIA_LEAVES) d) d.

(** The [Flat] stack: bedrock, three rows of dirt, grass, air. *)
Definition flatFill (data : Uint8Array) : Uint8Array :=
  for_range 0 CHUNK_SIZE (fun x data =>
    for_range 0 CHUNK_SIZE (fun z data =>
      for_range 0 CHUNK_HEIGHT (fun y data =>
        let idx := (x + z * CHUNK_SIZE + y * 256)%Z in
        if (y =? 0)%Z then TypedArray.set_u8 data idx BEDROCK
        else if (y <? 4)%Z then TypedArray.set_u8 data idx DIRT
        else if (y =? 4)%Z then TypedArray.set_u8 data idx GRASS
        else TypedArray.set_u8 data idx AIR) data) data) data.

(** Height of the column at the shifted world position (wx, wz), before
    rounding and clamping. *)
Definition terrainHeightAt (cm : ChunkManager) (worldType : WorldType) (wx wz : Q) : Q :=
  let cont := noise2D cm (wx * 0.0006) (wz * 0.0006) in
  let warpStrength := 20 in
  let warpX := noise2D cm (wx * 0.004) (wz * 0.004) * warpStrength in
  let warpZ := noise2D cm (wx * 0.004 + 1000) (wz * 0.004 + 1000) * warpStrength in
  let riverNoise :=
    Math_abs (noise2D cm ((wx + warpX) * 0.0008) ((wz + warpZ) * 0.0008)) in
  let noise := noise2D cm (wx * 0.005) (wz * 0.005)
               + noise2D cm (wx * 0.01) (wz * 0.01) * 0.5 in
  let terrainHeight :=
    match worldType with
    | Mountains =>
        let th := SEA_LEVEL + 40 + (cont * 80) + (noise * 30) in
        if (cont >? 0)%js then th + (cont * cont) * 150 else th
    | _ =>
        if (cont <? -0.4)%js
        then SEA_LEVEL - 5 - (Math_abs (cont + 0.4) * 30)
        else
          let th := SEA_LEVEL + 8 + (cont * 20) + (noise * 10) in
          if (cont >? 0.3)%js
          then
            let t := (cont - 0.3) / 0.7 in
            let smoothT := t * t * (3 - 2 * t) in
            let th := th + smoothT * 100 in
            let n1 := noise2D cm (wx * 0.03) (wz * 0.03) in
            let n2 := noise2D cm (wx * 0.06) (wz * 0.06) in
            let n3 := noise2D cm (wx * 0.12) (wz * 0.12) in
            let bumps := n1 + n2 * 0.5 + n3 * 0.25 in
            th + bumps * 25 * smoothT
          else th
    end in
  if ((riverNoise <? 0.08)%js && (cont >? -0.3)%js && (cont <? 0.2)%js)%bool
  then
    let riverDepth := (0.08 - riverNoise) / 0.08 in
    let riverBed := SEA_LEVEL - 2 in
    terrainHeight * (1 - riverDepth) + riverBed * riverDepth
  else terrainHeight.

(** [let h = Math.floor(terrainHeight); if (h < 1) h = 1;
     if (h >= CHUNK_HEIGHT - 5) h = CHUNK_HEIGHT - 6]. *)
Definition clampHeight (terrainHeight : Q) : Z :=
  let h := Math_floor terrainHeight in
  let h := (if h <? 1 then 1 else h)%Z in
  (if h >=? CHUNK_HEIGHT - 5 then CHUNK_HEIGHT - 6 else h)%Z.

(** Biome of a column: (biomeId, surface, sub), and the draws left. *)
Definition classifyBiome (h : Z) (temp moisture : Q) (rnd : Random.Source)
    : (Z * Z * Z) * Random.Source :=
  if (h <? SEA_LEVEL)%Z then ((10, SAND, GRAVEL)%Z, rnd)
  else if (h >? 130)%Z then ((5, SNOW, STONE)%Z, rnd)
  else if ((h >? 110)%Z && (temp <? 0.3)%js)%bool then ((5, SNOW, STONE)%Z, rnd)
  else
    let '(u, rnd) := Random.next rnd in
    let d := (u - 0.5) * 0.1 in
    if (temp + d >? 0.5)%js then
      if (moisture + d <? -0.3)%js then ((1, SAND, SANDSTONE)%Z, rnd)
      else if (moisture + d >? 0.4)%js then ((3, GRASS, DIRT)%Z, rnd)
      else ((2, GRASS, DIRT)%Z, rnd)
    else if (temp + d <? -0.4)%js then ((5, SNOW, DIRT)%Z, rnd)
    else
      if (moisture + d >? 0.3)%js then ((7, PODZOL, DIRT)%Z, rnd)
      else if (moisture + d <? -0.3)%js then ((0, GRASS, DIRT)%Z, rnd)
      else if (moisture + d >? 0.1)%js then ((4, GRASS, DIRT)%Z, rnd)
      else ((6, GRASS, DIRT)%Z, rnd).

(** The block of row [y] of a column of height [h]. *)
Definition columnBlock (cm : ChunkManager) (wx wz : Q) (h biomeId surface sub y : Z) : Z :=
  let blockID :=
    if (y =? 0)%Z then BEDROCK
    else if (y <? h - 3)%Z then
      if (noise3D cm (wx * 0.08) (y * 0.08) (wz * 0.08) >? 0.6)%js
      then COAL_ORE else STONE
    else if (y <? h)%Z then sub
    else if (y =? h)%Z then
      if ((y <=? SEA_LEVEL + 1) && negb (biomeId =? 1) && negb (biomeId =? 2)
          && negb (biomeId =? 10) && negb (biomeId =? 5))%Z then SAND
      else if ((biomeId =? 1) && (y >? h - 3))%Z then SAND
      else surface
    else
      if (y <=? SEA_LEVEL)%Z then WATER else AIR in
  if ((y >? 0) && (y <=? h) && negb (blockID =? WATER) && negb (blockID =? BEDROCK)
      && negb (biomeId =? 10))%Z
  then
    let depth := (h - y)%Z in
    if (depth >? 5)%Z then
      let caveRegion := noise2D cm (wx * 0.002 + 5000) (wz * 0.002 + 5000) in
      if (caveRegion >? 0.2)%js then
        let caveNoise := noise3D cm (wx * 0.05) (y * 0.05) (wz * 0.05) in
        if (caveNoise >? 0.6)%js then AIR else blockID
      else blockID
    else blockID
  else blockID.

(** What the generation loops carry. *)
Record GenState := mkGenState {
  g_data : Uint8Array;
  g_heights : Int32Array;
  g_biomeMap : Uint8Array;
  g_rnd : Random.Source
}.

(** Body of the first loop for the column (x, z): height, biome, fill. *)
Definition genColumn (cm : ChunkManager) (cx cz : Z) (worldType : WorldType)
    (x z : Z) (st : GenState) : GenState :=
  let offset := seedOffset cm in
  let wx : Q := (cx * CHUNK_SIZE + x + offset)%Z in
  let wz : Q := (cz * CHUNK_SIZE + z + offset)%Z in
  let temp := noise2D cm (wx * 0.0008 + 100) (wz * 0.0008 + 100) in
  let moisture := noise2D cm (wx * 0.0008 + 500) (wz * 0.0008 + 500) in
  let h := clampHeight (terrainHeightAt cm worldType wx wz) in
  let heights := TypedArray.set_i32 (g_heights st) (x + z * CHUNK_SIZE)%Z h in
  let '((biomeId, surface, sub), rnd) := classifyBiome h temp moisture (g_rnd st) in
  let biomeMap := TypedArray.set_u8 (g_biomeMap st) (x + z * CHUNK_SIZE)%Z biomeId in
  let data := for_range 0 CHUNK_HEIGHT (fun y data =>
                TypedArray.set_u8 data (x + z * CHUNK_SIZE + y * 256)%Z
                  (columnBlock cm wx wz h biomeId surface sub y)) (g_data st) in
  mkGenState data heights biomeMap rnd.

(** Body of the decoration loop for the column (x, z). *)
Definition decorateColumn (cx cz seed : Z) (x z : Z) (st : GenState) : GenState :=
  let data := g_data st in
  let h := TypedArray.get (g_heights st) (x + z * CHUNK_SIZE)%Z in
  let groundIdx := (x + z * CHUNK_SIZE + h * 256)%Z in
  let ground := TypedArray.get data groundIdx in
  if (ground =? AIR)%Z then st
  else
    let bid := TypedArray.get (g_biomeMap st) (x + z * CHUNK_SIZE)%Z in
    let top := (h + 1)%Z in
    if ((top <? CHUNK_HEIGHT) && (top >? SEA_LEVEL))%Z then
      let idx := (x + z * CHUNK_SIZE + top * 256)%Z in
      let r := rand (cx * 16 + x) (cz * 16 + z) seed in
      let isSand := ((ground =? SAND) || (ground =? RED_SAND))%Z in
      let put b := mkGenState (TypedArray.set_u8 data idx b)
                     (g_heights st) (g_biomeMap st) (g_rnd st) in
      let tree t l th :=
        let '(d, rnd) := makeTree data x z top t l th (g_rnd st) in
        mkGenState d (g_heights st) (g_biomeMap st) rnd in
      let plain d := mkGenState d (g_heights st) (g_biomeMap st) (g_rnd st) in
      if ((bid =? 1)%Z && (r <? 0.005)%js && isSand)%bool then put CACTUS
      else if negb isSand then
        if (bid =? 3)%Z then
          if (r <? 0.06)%js then tree JUNGLE_LOG JUNGLE_LEAVES 12%Z
          else if (r <? 0.25)%js then put TALL_GRASS else st
        else if (bid =? 2)%Z then
          if (r <? 0.005)%js then plain (makeAcaciaTree data x z top)
          else if (r <? 0.15)%js then put TALL_GRASS else st
        else if (bid =? 6)%Z then
          if (r <? 0.015)%js then tree BIRCH_LOG BIRCH_LEAVES 5%Z
          else if (r <? 0.05)%js then put TALL_GRASS else st
        else if (bid =? 4)%Z then
          if (r <? 0.015)%js then tree WOOD LEAVES 5%Z
          else if (r <? 0.08)%js then put TALL_GRASS else st
        else if (bid =? 7)%Z then
          if (r <? 0.04)%js then tree SPRUCE_LOG LEAVES 6%Z else st
        else if ((bid =? 5)%Z && (r <? 0.005)%js)%bool
          then plain (makeSpruceTree data x z top)
        else if ((bid =? 0)%Z && (r <? 0.001)%js)%bool then tree WOOD LEAVES 5%Z
        else st
      else st
    else st.

(** [generateChunkData]: the voxel buffer, and the draws of [Math.random]
    that are left after the call. *)
Definition generateChunkData (cm : ChunkManager) (cx cz seed : Z)
    (worldType : WorldType) (modifiedBlocks : JSMap.t Z) (rnd : Random.Source)
    : Uint8Array * Random.Source :=
  let data := TypedArray.make (CHUNK_SIZE * CHUNK_SIZE * CHUNK_HEIGHT) in
  match worldType with
  | Flat => (applyModifications cx cz (flatFill data) modifiedBlocks, rnd)
  | _ =>
      let heights := TypedArray.make (CHUNK_SIZE * CHUNK_SIZE) in
      let biomeMap := TypedArray.make (CHUNK_SIZE * CHUNK_SIZE) in
      let st := mkGenState data heights biomeMap rnd in
      let st := for_range 0 CHUNK_SIZE (fun x st =>
                  for_range 0 CHUNK_SIZE (fun z st =>
                    genColumn cm cx cz worldType x z st) st) st in
      let st := for_range 0 CHUNK_SIZE (fun x st =>
                  for_range 0 CHUNK_SIZE (fun z st =>
                    decorateColumn cx cz seed x z st) st) st in
      (applyModifications cx cz (g_data st) modifiedBlocks, g_rnd st)
  end.

End Generation.

(** *** The mesher: [generateChunkMesh] *)

(** The four attribute arrays gathered for one block type. *)
Record Geo := mkGeo {
  pos : list Q;
  norm : list Q;
  uv : list Q;
  color : list Q
}.

Definition emptyGeo : Geo := mkGeo [] [] [] [].

(** [geometries]: an object keyed by block code. *)
Definition Geometries : Type := list (Z * Geo).

Fixpoint geoOf (g : Geometries) (bID : Z) : option Geo :=
  match g with
  | [] => None
  | (k, geo) :: g' => if k =? bID then Some geo else geoOf g' bID
  end.

Fixpoint geoPut (g : Geometries) (bID : Z) (geo : Geo) : Geometries :=
  match g with
  | [] => [(bID, geo)]
  | (k, old) :: g' => if k =? bID then (k, geo) :: g' else (k, old) :: geoPut g' bID geo
  end.

(** [if (!geometries[bID]) geometries[bID] = {...}; const geo = geometries[bID]]. *)
Definition geoFor (g : Geometries) (bID : Z) : Geo :=
  match geoOf g bID with Some geo => geo | None => emptyGeo end.

(** One [THREE.Mesh] of the returned group. *)
Record Mesh := mkMesh {
  m_block : Z;
  m_geometry : Geo;
  renderOrder : Z;
  castShadow : bool;
  receiveShadow : bool
}.

Definition Group : Type := list Mesh.

(** A face is two triangles: six vertices of three coordinates each. *)
Definition faceCount (grp : Group) : nat :=
  list_sum (map (fun m => Nat.div (List.length (pos (m_geometry m))) 18) grp).

Definition isTransparent (id : Z) : bool :=
  (id =? AIR) || prop_flag transparent id.

Definition isWater (id : Z) : bool := (id =? WATER) || (id =? FLOWING_WATER).

Definition Vec3 : Type := Q * Q * Q.

Section Mesher.

Variable chunkData : Uint8Array.
Variable smoothLighting : bool.
Variable getBlock : Z -> Z -> Z -> Z.
Variables cx cz : Z.

Local Open Scope Q_scope.
Local Coercion inject_Z : Z >-> Q.

Definition getAO (x y z : Z) : bool :=
  negb (isTransparent (getBlock (cx * CHUNK_SIZE + x) y (cz * CHUNK_SIZE + z))%Z).

(** The four corners of the face of normal (dx, dy, dz). *)
Definition faceCorners (dx dy dz : Z) (customScale height : Q)
    : Vec3 * Vec3 * Vec3 * Vec3 :=
  let s := customScale in
  let off := (1 - s) / 2 in
  let min := off in
  let xMax := off + s in
  let zMax := off + s in
  let yMax := height in
  if negb (dx =? 0)%Z then
    let xi := if (dx >? 0)%Z then xMax else min in
    ((xi, min, zMax), (xi, min, min), (xi, yMax, min), (xi, yMax, zMax))
  else if negb (dy =? 0)%Z then
    let yi := if (dy >? 0)%Z then yMax else min in
    ((min, yi, zMax), (xMax, yi, zMax), (xMax, yi, min), (min, yi, min))
  else
    let zi := if (dz >? 0)%Z then zMax else min in
    ((min, min, zi), (xMax, min, zi), (xMax, yMax, zi), (min, yMax, zi)).

(** [Math.abs(vx-w[0])<eps && Math.abs(vy-w[1])<eps && Math.abs(vz-w[2])<eps]. *)
Definition near (v w : Vec3) : bool :=
  let '(vx, vy, vz) := v in
  let '(wx, wy, wz) := w in
  let eps := 0.1 in
  ((Math_abs (vx - wx) <? eps)%js && (Math_abs (vy - wy) <? eps)%js
   && (Math_abs (vz - wz) <? eps)%js)%bool.

Local Open Scope Z_scope.

(** The offsets (sx1, sy1, sz1) and (sx2, sy2, sz2) of the two edge
    neighbours of a vertex; the four tests run one after the other. *)
Definition sideOffsets (dx dy dz : Z) (v0 v1 v2 v3 v : Vec3)
    : (Z * Z * Z) * (Z * Z * Z) :=
  let step (w : Vec3) (a b : Z) (st : Z * Z) : Z * Z :=
    if near v w then (a, b) else st in
  if negb (dx =? 0) then
    let '(sy1, sz2) :=
      step v3 1 1 (step v2 1 (-1) (step v1 (-1) (-1) (step v0 (-1) 1 (0, 0)))) in
    ((dx, sy1, 0), (dx, 0, sz2))
  else if negb (dy =? 0) then
    let '(sx1, sz2) :=
      step v3 (-1) (-1) (step v2 1 (-1) (step v1 1 1 (step v0 (-1) 1 (0, 0)))) in
    ((sx1, dy, 0), (0, dy, sz2))
  else
    let '(sx1, sy2) :=
      step v3 (-1) 1 (step v2 1 1 (step v1 (-1) (-1) (step v0 (-1) (-1) (0, 0)))) in
    ((sx1, 0, dz), (0, sy2, dz)).

(** [(dx||0 + dy||0 + dz||0)]: addition binds tighter than [||], so this
    is [dx || (0 + dy) || (0 + dz) || 0], the first component that is not
    zero. *)
Definition normalComponent (dx dy dz : Z) : Z :=
  if negb (dx =? 0) then dx
  else if negb (0 + dy =? 0) then 0 + dy
  else if negb (0 + dz =? 0) then 0 + dz
  else 0.

Local Open Scope Q_scope.

Definition calcVertAO (x y z dx dy dz : Z) (v0 v1 v2 v3 v : Vec3) : Q :=
  let '((sx1, sy1, sz1), (sx2, sy2, sz2)) := sideOffsets dx dy dz v0 v1 v2 v3 v in
  let side1 := getAO (x + sx1)%Z (y + sy1)%Z (z + sz1)%Z in
  let side2 := getAO (x + sx2)%Z (y + sy2)%Z (z + sz2)%Z in
  let n := normalComponent dx dy dz in
  let corner :=
    getAO (x + sx1 + sx2 - n)%Z (y + sy1 + sy2 - n)%Z (z + sz1 + sz2 - n)%Z in
  if (side1 && side2)%bool then 0
  else
    let count := ((if side1 then 1 else 0) + (if side2 then 1 else 0)
                  + (if corner then 1 else 0))%Z in
    1.0 - (count * 0.2).

(** The ambient-occlusion weights (ao0, ao1, ao2, ao3) of a face. *)
Definition faceAO (bID x y z dx dy dz : Z) (customScale : Q)
    (v0 v1 v2 v3 : Vec3) : Q * Q * Q * Q :=
  if (smoothLighting && Qeq_bool customScale 1.0 && negb (isWater bID))%bool
  then (calcVertAO x y z dx dy dz v0 v1 v2 v3 v0,
        calcVertAO x y z dx dy dz v0 v1 v2 v3 v1,
        calcVertAO x y z dx dy dz v0 v1 v2 v3 v2,
        calcVertAO x y z dx dy dz v0 v1 v2 v3 v3)
  else (1, 1, 1, 1).

Definition at_ (x y z : Z) (v : Vec3) : list Q :=
  let '(a, b, c) := v in [x + a; y + b; z + c].

Definition thrice (a : Q) : list Q := [a; a; a].

(** The 18 colour entries pushed for one face. *)
Definition faceColors (flipped : bool) (ao : Q * Q * Q * Q) : list Q :=
  let '(ao0, ao1, ao2, ao3) := ao in
  if smoothLighting then
    if flipped
    then thrice ao0 ++ thrice ao2 ++ thrice ao1 ++ thrice ao0 ++ thrice ao3 ++ thrice ao2
    else thrice ao0 ++ thrice ao1 ++ thrice ao2 ++ thrice ao0 ++ thrice ao2 ++ thrice ao3
  else concat (repeat [1; 1; 1] 6).

Definition addFace (g : Geometries) (bID x y z dx dy dz : Z)
    (customScale height : Q) : Geometries :=
  let geo := geoFor g bID in
  let nx : Q := dx in let ny : Q := dy in let nz : Q := dz in
  let '(v0, v1, v2, v3) := faceCorners dx dy dz customScale height in
  let norm' := norm geo ++ concat (repeat [nx; ny; nz] 6) in
  let ao := faceAO bID x y z dx dy dz customScale v0 v1 v2 v3 in
  let flipped := ((dx <? 0) || (dy <? 0) || (dz <? 0))%Z in
  let pos' :=
    if flipped
    then pos geo ++ (at_ x y z v0 ++ at_ x y z v2 ++ at_ x y z v1)
                 ++ (at_ x y z v0 ++ at_ x y z v3 ++ at_ x y z v2)
    else pos geo ++ (at_ x y z v0 ++ at_ x y z v1 ++ at_ x y z v2)
                 ++ (at_ x y z v0 ++ at_ x y z v2 ++ at_ x y z v3) in
  let uv' :=
    if flipped
    then uv geo ++ [0; 0; 1; 1; 1; 0] ++ [0; 0; 0; 1; 1; 1]
    else uv geo ++ [0; 0; 1; 0; 1; 1] ++ [0; 0; 1; 1; 0; 1] in
  let color' := color geo ++ faceColors flipped ao in
  geoPut g bID (mkGeo pos' norm' uv' color').

(** [check(dx, dy, dz)] for the voxel (x, y, z) of type [bID]: is the face
    towards that neighbour shown? *)
Definition check (bID x y z dx dy dz : Z) : bool :=
  let nx := (x + dx)%Z in let ny := (y + dy)%Z in let nz := (z + dz)%Z in
  if ((nx >=? 0) && (nx <? CHUNK_SIZE) && (nz >=? 0) && (nz <? CHUNK_SIZE)
      && (ny >=? 0) && (ny <? CHUNK_HEIGHT))%Z
  then
    let nb := TypedArray.get chunkData (nx + nz * 16 + ny * 256)%Z in
    (isTransparent nb && (negb (isWater bID) || negb (isWater nb)))%bool
  else
    let gb := getBlock (cx * CHUNK_SIZE + nx)%Z ny (cz * CHUNK_SIZE + nz)%Z in
    (isTransparent gb && (negb (isWater bID) || negb (isWater gb)))%bool.

(** The two crossed quads of a plant. *)
Definition addCross (g : Geometries) (bID x y z : Z) : Geometries :=
  let geo := geoFor g bID in
  let x0 : Q := x in let x1 : Q := (x + 1)%Z in
  let y0 : Q := y in let y1 : Q := (y + 1)%Z in
  let z0 : Q := z in let z1 : Q := (z + 1)%Z in
  let quadAttr := concat (repeat [0; 1; 0] 6) in
  let quadColor := concat (repeat [1; 1; 1] 6) in
  let quadUv := [0; 0; 1; 0; 1; 1; 0; 0; 1; 1; 0; 1] in
  geoPut g bID
    (mkGeo
       (pos geo ++ [x0; y0; z0; x1; y0; z1; x1; y1; z1; x0; y0; z0; x1; y1; z1; x0; y1; z0]
                ++ [x0; y0; z1; x1; y0; z0; x1; y1; z0; x0; y0; z1; x1; y1; z0; x0; y1; z1])
       (norm geo ++ quadAttr ++ quadAttr)
       (uv geo ++ quadUv ++ quadUv)
       (color geo ++ quadColor ++ quadColor)).

(** Body of the voxel loop for block type [bID] at the cell (x, y, z). *)
Definition meshVoxel (bID : Z) (props : BlockProp) (x z y : Z) (g : Geometries)
    : Geometries :=
  if negb (TypedArray.get chunkData (x + z * CHUNK_SIZE + y * 256)%Z =? bID)%Z then g
  else
    let waterHeight :=
      if isWater bID then
        let blockAbove := getBlock (cx * CHUNK_SIZE + x)%Z (y + 1)%Z (cz * CHUNK_SIZE + z)%Z in
        if negb (isWater blockAbove) then 0.9 else 1.0
      else 1.0 in
    if truthy (cross props) then addCross g bID x y z
    else if (bID =? TORCH)%Z then
      let g := addFace g bID x y z 1 0 0 0.2 1.0 in
      let g := addFace g bID x y z (-1) 0 0 0.2 1.0 in
      let g := addFace g bID x y z 0 1 0 0.2 1.0 in
      let g := addFace g bID x y z 0 (-1) 0 0.2 1.0 in
      let g := addFace g bID x y z 0 0 1 0.2 1.0 in
      addFace g bID x y z 0 0 (-1) 0.2 1.0
    else
      let g := if check bID x y z 1 0 0
               then addFace g bID x y z 1 0 0 1.0 waterHeight else g in
      let g := if check bID x y z (-1) 0 0
               then addFace g bID x y z (-1) 0 0 1.0 waterHeight else g in
      let g := if check bID x y z 0 1 0
               then addFace g bID x y z 0 1 0 1.0 waterHeight else g in
      let g := if check bID x y z 0 (-1) 0
               then addFace g bID x y z 0 (-1) 0 1.0 waterHeight else g in
      let g := if check bID x y z 0 0 1
               then addFace g bID x y z 0 0 1 1.0 waterHeight else g in
      if check bID x y z 0 0 (-1)
      then addFace g bID x y z 0 0 (-1) 1.0 waterHeight else g.

(** Body of the loop over the block table: all voxels of type [bID]. *)
Definition meshBlock (bID : Z) (g : Geometries) : Geometries :=
  if (bID =? AIR)%Z then g
  else match BLOCK_PROPS bID with
       | None => g
       | Some props =>
           for_range 0 CHUNK_SIZE (fun x g =>
             for_range 0 CHUNK_SIZE (fun z g =>
               for_range 0 CHUNK_HEIGHT (fun y g =>
                 meshVoxel bID props x z y g) g) g) g
       end.

Definition meshGeometries : Geometries :=
  fold_left (fun g bID => meshBlock bID g) BLOCK_PROPS_keys [].

(** One mesh per block type that has vertices, with its render flags. *)
Definition toMesh (bID : Z) (geo : Geo) : Mesh :=
  if isWater bID then mkMesh bID geo 1 false true
  else if ((bID =? TORCH) || (bID =? TALL_GRASS))%Z then mkMesh bID geo 0 false false
  else mkMesh bID geo 0 true true.

Definition generateChunkMesh : Group :=
  fold_left (fun grp '(bID, geo) =>
    if (0 <? List.length (pos geo))%nat then grp ++ [toMesh bID geo] else grp)
    meshGeometries [].

End Mesher.

End Chunk.

(** ** [GameEngine]: chunk store, overlay, mining and fluids ([Engine.ts]) *)

Module Engine.

Import Key Chunk.

Inductive GameMode := Survival | Creative.

Definition GameMode_eqb (a b : GameMode) : bool :=
  match a, b with
  | Survival, Survival | Creative, Creative => true
  | _, _ => false
  end.

Record ItemStack := mkItemStack { id : Z; count : Z }.

Record GameSettings := mkGameSettings {
  fov : Q;
  renderDistance : Z;
  sensitivity : Q;
  smoothLighting : bool;
  shadows : bool
}.

(** A value of [this.chunks]. *)
Record ChunkEntry := mkChunkEntry {
  data : Uint8Array;
  mesh : option Group
}.

(** [class DroppedItem], without its mesh and its timestamps. *)
Record DroppedItem := mkDroppedItem {
  d_type : Z;
  d_position : Vec3;
  d_velocity : Vec3
}.

(** What the ray cast reports: [hit.point] and [hit.face.normal]. *)
Record Intersection := mkIntersection {
  point : Vec3;
  normal : Vec3
}.

Definition Coord : Type := Z * Z * Z.

Record GameEngine := mkEngine {
  chunkManager : ChunkManager;
  chunks : JSMap.t ChunkEntry;
  modifiedBlocks : JSMap.t Z;
  playerPos : Vec3;
  isMining : bool;
  miningBlock : option Coord;
  miningProgress : Q;
  breakingVisible : bool;
  droppedItems : list DroppedItem;
  fluidQueue : list Coord;
  fluidQueueSet : gset string;
  seed : Z;
  worldType : WorldType;
  settings : GameSettings;
  inventory : list (option ItemStack);
  selectedSlot : Z;
  gameMode : GameMode;
  random : Random.Source
}.

(** Assignments to one field of [this]. *)
Definition set_chunks (v : JSMap.t ChunkEntry) (s : GameEngine) : GameEngine :=
  mkEngine (chunkManager s) v (modifiedBlocks s) (playerPos s) (isMining s)
    (miningBlock s) (miningProgress s) (breakingVisible s) (droppedItems s)
    (fluidQueue s) (fluidQueueSet s) (seed s) (worldType s) (settings s)
    (inventory s) (selectedSlot s) (gameMode s) (random s).
Definition set_modifiedBlocks (v : JSMap.t Z) (s : GameEngine) : GameEngine :=
  mkEngine (chunkManager s) (chunks s) v (playerPos s) (isMining s)
    (miningBlock s) (miningProgress s) (breakingVisible s) (droppedItems s)
    (fluidQueue s) (fluidQueueSet s) (seed s) (worldType s) (settings s)
    (inventory s) (selectedSlot s) (gameMode s) (random s).
Definition set_isMining (v : bool) (s : GameEngine) : GameEngine :=
  mkEngine (chunkManager s) (chunks s) (modifiedBlocks s) (playerPos s) v
    (miningBlock s) (miningProgress s) (breakingVisible s) (droppedItems s)
    (fluidQueue s) (fluidQueueSet s) (seed s) (worldType s) (settings s)
    (inventory s) (selectedSlot s) (gameMode s) (random s).
Definition set_miningBlock (v : option Coord) (s : GameEngine) : GameEngine :=
  mkEngine (chunkManager s) (chunks s) (modifiedBlocks s) (playerPos s) (isMining s)
    v (miningProgress s) (breakingVisible s) (droppedItems s)
    (fluidQueue s) (fluidQueueSet s) (seed s) (worldType s) (settings s)
    (inventory s) (selectedSlot s) (gameMode s) (random s).
Definition set_miningProgress (v : Q) (s : GameEngine) : GameEngine :=
  mkEngine (chunkManager s) (chunks s) (modifiedBlocks s) (playerPos s) (isMining s)
    (miningBlock s) v (breakingVisible s) (droppedItems s)
    (fluidQueue s) (fluidQueueSet s) (seed s) (worldType s) (settings s)
    (inventory s) (selectedSlot s) (gameMode s) (random s).
Definition set_breakingVisible (v : bool) (s : GameEngine) : GameEngine :=
  mkEngine (chunkManager s) (chunks s) (modifiedBlocks s) (playerPos s) (isMining s)
    (miningBlock s) (miningProgress s) v (droppedItems s)
    (fluidQueue s) (fluidQueueSet s) (seed s) (worldType s) (settings s)
    (inventory s) (selectedSlot s) (gameMode s) (random s).
Definition set_droppedItems (v : list DroppedItem) (s : GameEngine) : GameEngine :=
  mkEngine (chunkManager s) (chunks s) (modifiedBlocks s) (playerPos s) (isMining s)
    (miningBlock s) (miningProgress s) (breakingVisible s) v
    (fluidQueue s) (fluidQueueSet s) (seed s) (worldType s) (settings s)
    (inventory s) (selectedSlot s) (gameMode s) (random s).
Definition set_fluidQueue (v : list Coord) (s : GameEngine) : GameEngine :=
  mkEngine (chunkManager s) (chunks s) (modifiedBlocks s) (playerPos s) (isMining s)
    (miningBlock s) (miningProgress s) (breakingVisible s) (droppedItems s)
    v (fluidQueueSet s) (seed s) (worldType s) (settings s)
    (inventory s) (selectedSlot s) (gameMode s) (random s).
Definition set_fluidQueueSet (v : gset string) (s : GameEngine) : GameEngine :=
  mkEngine (chunkManager s) (chunks s) (modifiedBlocks s) (playerPos s) (isMining s)
    (miningBlock s) (miningProgress s) (breakingVisible s) (droppedItems s)
    (fluidQueue s) v (seed s) (worldType s) (settings s)
    (inventory s) (selectedSlot s) (gameMode s) (random s).
Definition set_random (v : Random.Source) (s : GameEngine) : GameEngine :=
  mkEngine (chunkManager s) (chunks s) (modifiedBlocks s) (playerPos s) (isMining s)
    (miningBlock s) (miningProgress s) (breakingVisible s) (droppedItems s)
    (fluidQueue s) (fluidQueueSet s) (seed s) (worldType s) (settings s)
    (inventory s) (selectedSlot s) (gameMode s) v.

(** [Math.random()] read from the engine. *)
Definition Math_random (s : GameEngine) : Q * GameEngine :=
  let '(u, r) := Random.next (random s) in (u, set_random r s).

(** [(v % CHUNK_SIZE + CHUNK_SIZE) % CHUNK_SIZE]. *)
Definition localCoord (v : Z) : Z :=
  jsmod (jsmod v CHUNK_SIZE + CHUNK_SIZE) CHUNK_SIZE.

(** [Math.floor(v / CHUNK_SIZE)] for an integer [v]. *)
Definition chunkCoord (v : Z) : Z := v / CHUNK_SIZE.

Definition getBlock (s : GameEngine) (x y z : Z) : Z :=
  let cx := chunkCoord x in
  let cz := chunkCoord z in
  let key := key2 cx cz in
  match JSMap.get (chunks s) key with
  | None => AIR
  | Some chunk =>
      if (y <? 0) || (y >=? CHUNK_HEIGHT) then AIR
      else
        let lx := localCoord x in
        let lz := localCoord z in
        TypedArray.get (data chunk) (lx + lz * CHUNK_SIZE + y * 256)
  end.

Definition regenerateChunk (cx cz : Z) (s : GameEngine) : GameEngine :=
  let key := key2 cx cz in
  match JSMap.get (chunks s) key with
  | None => s
  | Some chunk =>
      let m := generateChunkMesh (data chunk) (smoothLighting (settings s))
                 (getBlock s) cx cz in
      set_chunks (JSMap.set (chunks s) key (mkChunkEntry (data chunk) (Some m))) s
  end.

Definition setBlock (x y z id : Z) (s : GameEngine) : GameEngine :=
  let cx := chunkCoord x in
  let cz := chunkCoord z in
  let key := key2 cx cz in
  match JSMap.get (chunks s) key with
  | None => s
  | Some chunk =>
      let lx := localCoord x in
      let lz := localCoord z in
      let d := TypedArray.set_u8 (data chunk) (lx + lz * CHUNK_SIZE + y * 256) id in
      let s := set_chunks (JSMap.set (chunks s) key (mkChunkEntry d (mesh chunk))) s in
      let s := set_modifiedBlocks (JSMap.set (modifiedBlocks s) (key3 x y z) id) s in
      let s := regenerateChunk cx cz s in
      let s := if lx =? 0 then regenerateChunk (cx - 1) cz s else s in
      let s := if lx =? CHUNK_SIZE - 1 then regenerateChunk (cx + 1) cz s else s in
      let s := if lz =? 0 then regenerateChunk cx (cz - 1) s else s in
      if lz =? CHUNK_SIZE - 1 then regenerateChunk cx (cz + 1) s else s
  end.

(** [Math.floor(this.playerPos.x / CHUNK_SIZE)] and the same for z. *)
Definition playerChunk (s : GameEngine) : Z * Z :=
  let '(px, _, pz) := playerPos s in
  (Math_floor (px / inject_Z CHUNK_SIZE), Math_floor (pz / inject_Z CHUNK_SIZE)).

(** [Math.abs(c - centre) > limit], false when [c] is [NaN]. *)
Definition beyond (c : option Z) (centre limit : Z) : bool :=
  match c with
  | Some c => Z.abs (c - centre) >? limit
  | None => false
  end.

Section World.

Variable Math_sin : Q -> Q.

(** Body of the first loop of [updateWorldChunks] for the chunk (cx, cz). *)
Definition loadChunk (cx cz : Z) (s : GameEngine) : GameEngine :=
  let key := key2 cx cz in
  if negb (JSMap.has (chunks s) key) then
    let generated := generateChunkData Math_sin (chunkManager s) cx cz (seed s)
                       (worldType s) (modifiedBlocks s) (random s) in
    let d := fst generated in
    let s := set_random (snd generated) s in
    let m := generateChunkMesh d (smoothLighting (settings s)) (getBlock s) cx cz in
    set_chunks (JSMap.set (chunks s) key (mkChunkEntry d (Some m))) s
  else s.

(** Body of the second loop: drop the entry if it is too far. *)
Definition evictChunk (pcx pcz dist : Z) (key : string) (s : GameEngine) : GameEngine :=
  let '(cx, cz) := parse2 key in
  if beyond cx pcx (dist + 2) || beyond cz pcz (dist + 2)
  then set_chunks (JSMap.delete (chunks s) key) s
  else s.

Definition updateWorldChunks (s : GameEngine) : GameEngine :=
  let '(pcx, pcz) := playerChunk s in
  let dist := renderDistance (settings s) in
  let s := for_range (- dist) (dist + 1) (fun x s =>
             for_range (- dist) (dist + 1) (fun z s =>
               loadChunk (pcx + x) (pcz + z) s) s) s in
  fold_left (fun s key => evictChunk pcx pcz dist key s) (JSMap.keys (chunks s)) s.

End World.

(** *** Fluids *)

Definition coordKey (c : Coord) : string :=
  let '(x, y, z) := c in key3 x y z.

Definition scheduleFluidUpdate (x y z : Z) (s : GameEngine) : GameEngine :=
  let key := key3 x y z in
  if decide (key ∈ fluidQueueSet s) then s
  else
    let s := set_fluidQueueSet ({[ key ]} ∪ fluidQueueSet s) s in
    set_fluidQueue (fluidQueue s ++ [(x, y, z)]) s.

(** [BLOCK_PROPS[b]?.fluid === undefined]. *)
Definition fluidUndefined (b : Z) : bool :=
  match BLOCK_PROPS b with
  | Some p => match fluid p with None => true | Some _ => false end
  | None => true
  end.

(** "Try flow down". *)
Definition flowDown (x y z : Z) (s : GameEngine) : GameEngine :=
  if y >? 0 then
    let bBelow := getBlock s x (y - 1) z in
    if (bBelow =? AIR)
       || (negb (bBelow =? WATER) && negb (bBelow =? FLOWING_WATER)
           && negb (prop_flag cross bBelow) && negb (bBelow =? TORCH)
           && negb (bBelow =? BEDROCK))
    then
      if (bBelow =? AIR) || fluidUndefined bBelow
      then scheduleFluidUpdate x (y - 1) z (setBlock x (y - 1) z FLOWING_WATER s)
      else s
    else s
  else s.

(** "Try flow sideways if source". *)
Definition flowSideways (x y z : Z) (s : GameEngine) : GameEngine :=
  let neighbors := [(1, 0); (-1, 0); (0, 1); (0, -1)] in
  let bBelow := getBlock s x (y - 1) z in
  let isSolidBelow :=
    negb (bBelow =? AIR) && negb (bBelow =? WATER) && negb (bBelow =? FLOWING_WATER)
    && negb (prop_flag fluid bBelow) in
  if isSolidBelow then
    fold_left (fun s '(dx, dz) =>
      let nx := x + dx in
      let nz := z + dz in
      let nb := getBlock s nx y nz in
      if (nb =? AIR) || prop_flag cross nb
      then scheduleFluidUpdate nx y nz (setBlock nx y nz FLOWING_WATER s)
      else s) neighbors s
  else s.

(** What the loop of [processFluids] does with the entry it has taken. *)
Definition fluidCell (c : Coord) (s : GameEngine) : GameEngine :=
  let '(x, y, z) := c in
  let block := getBlock s x y z in
  if (block =? WATER) || (block =? FLOWING_WATER) then
    let s := flowDown x y z s in
    if block =? WATER then flowSideways x y z s else s
  else s.

(** One turn of the loop: [shift], drop the key from the set, handle the cell. *)
Definition fluidStep (s : GameEngine) : GameEngine :=
  match fluidQueue s with
  | [] => s
  | c :: rest =>
      let s := set_fluidQueue rest s in
      let s := set_fluidQueueSet (fluidQueueSet s ∖ {[ coordKey c ]}) s in
      fluidCell c s
  end.

(** [while (this.fluidQueue.length > 0 && processed < batchSize)]. *)
Fixpoint fluidLoop (turns : nat) (s : GameEngine) : GameEngine :=
  match turns with
  | O => s
  | S n => match fluidQueue s with
           | [] => s
           | _ :: _ => fluidLoop n (fluidStep s)
           end
  end.

Definition batchSize : nat := 500.

Definition processFluids (s : GameEngine) : GameEngine := fluidLoop batchSize s.

(** One of the ten samples [randomTick] takes in the chunk at [key], whose
    coordinate is (cx, cz). The chunk object is the live entry of the
    store, so its data is read from the current state. *)
Definition randomSample (key : string) (cx cz : Z) (s : GameEngine) : GameEngine :=
  let '(u1, s) := Math_random s in
  let lx := Math_floor (u1 * inject_Z CHUNK_SIZE) in
  let '(u2, s) := Math_random s in
  let lz := Math_floor (u2 * inject_Z CHUNK_SIZE) in
  let '(u3, s) := Math_random s in
  let y := Math_floor (u3 * inject_Z CHUNK_HEIGHT) in
  let idx := lx + lz * CHUNK_SIZE + y * 256 in
  match JSMap.get (chunks s) key with
  | None => s
  | Some chunk =>
      let block := TypedArray.get (data chunk) idx in
      if block =? FLOWING_WATER then
        let wx := cx * CHUNK_SIZE + lx in
        let wz := cz * CHUNK_SIZE + lz in
        let bAbove := getBlock s wx (y + 1) wz in
        let supported := (bAbove =? WATER) || (bAbove =? FLOWING_WATER) in
        let supported :=
          if negb supported then
            let neighbors := [getBlock s (wx + 1) y wz; getBlock s (wx - 1) y wz;
                              getBlock s wx y (wz + 1); getBlock s wx y (wz - 1)] in
            existsb (fun b => b =? WATER) neighbors
          else supported in
        if negb supported
        then scheduleFluidUpdate wx (y - 1) wz (setBlock wx y wz AIR s)
        else scheduleFluidUpdate wx y wz s
      else if block =? WATER then
        let wx := cx * CHUNK_SIZE + lx in
        let wz := cz * CHUNK_SIZE + lz in
        scheduleFluidUpdate wx y wz s
      else s
  end.

(** The callback of [this.chunks.forEach] in [randomTick]. Every key of the
    store is written by [updateWorldChunks] and parses; an entry whose key
    would not parse is passed over here. *)
Definition randomTickChunk (key : string) (s : GameEngine) : GameEngine :=
  match parse2 key with
  | (Some cx, Some cz) =>
      let '(pcx, pcz) := playerChunk s in
      if (Z.abs (cx - pcx) >? 2) || (Z.abs (cz - pcz) >? 2) then s
      else for_range 0 10 (fun _ s => randomSample key cx cz s) s
  | _ => s
  end.

Definition randomTick (s : GameEngine) : GameEngine :=
  fold_left (fun s key => randomTickChunk key s) (JSMap.keys (chunks s)) s.

(** *** Mining *)

(** [this.inventory[this.selectedSlot]]. *)
Definition heldItem (s : GameEngine) : option ItemStack :=
  if selectedSlot s <? 0 then None
  else match nth_error (inventory s) (Z.to_nat (selectedSlot s)) with
       | Some it => it
       | None => None
       end.

(** The speed computed by the "Efficiency Logic" of [updateMining] for a
    block of type [blockType] and the item in hand. *)
Definition miningSpeed (blockType : Z) (held : option ItemStack) : Q :=
  let blockProps := BLOCK_PROPS blockType in
  match held with
  | Some item =>
      let toolProps := BLOCK_PROPS (id item) in
      match blockProps with
      | Some bp =>
          match toolType bp with
          | Some required =>
              match toolProps with
              | Some tp =>
                  match toolType tp with
                  | Some t =>
                      if ToolType_eqb t required then
                        match efficiency tp with
                        | Some e => if Qeq_bool e 0 then 1.0%Q else e
                        | None => 1.0%Q
                        end
                      else 1.0%Q
                  | None => 1.0%Q
                  end
              | None => 1.0%Q
              end
          | None => 1.0%Q
          end
      | None => 1.0%Q
      end
  | None => 1.0%Q
  end.

(** [blockProps.hardness ?? 1]. *)
Definition hardnessOf (blockType : Z) : Q :=
  match BLOCK_PROPS blockType with
  | Some p => match hardness p with Some h => h | None => 1%Q end
  | None => 1%Q
  end.

(** The block a hit points at: [Math.floor(p - n * 0.5)] on each axis. *)
Definition targetOf (hit : Intersection) : Coord :=
  let '(px, py, pz) := point hit in
  let '(nx, ny, nz) := normal hit in
  (Math_floor (px - nx * 0.5), Math_floor (py - ny * 0.5), Math_floor (pz - nz * 0.5)).

(** [new DroppedItem(type, pos, material)]: two draws for the spread. *)
Definition newDroppedItem (type : Z) (p : Vec3) (s : GameEngine)
    : DroppedItem * GameEngine :=
  let '(u1, s) := Math_random s in
  let '(u2, s) := Math_random s in
  (mkDroppedItem type p ((u1 - 0.5) * 3, 4, (u2 - 0.5) * 3)%Q, s).

Definition breakBlock (x y z : Z) (s : GameEngine) : GameEngine :=
  let type := getBlock s x y z in
  let s := setBlock x y z AIR s in
  let s := scheduleFluidUpdate x (y + 1) z s in
  let s := scheduleFluidUpdate (x + 1) y z s in
  let s := scheduleFluidUpdate (x - 1) y z s in
  let s := scheduleFluidUpdate x y (z + 1) s in
  let s := scheduleFluidUpdate x y (z - 1) s in
  if GameMode_eqb (gameMode s) Survival && negb (type =? AIR) then
    let dropType := type in
    let dropType := if type =? STONE then COBBLESTONE else dropType in
    let dropType := if type =? COAL_ORE then COAL else dropType in
    let dropType := if type =? GRASS then DIRT else dropType in
    if negb (type =? WATER) && negb (type =? FLOWING_WATER) then
      let p := (inject_Z x + 0.5, inject_Z y + 0.5, inject_Z z + 0.5)%Q in
      let '(drop, s) := newDroppedItem dropType p s in
      set_droppedItems (droppedItems s ++ [drop]) s
    else s
  else s.

Section Mining.

(** [this.raycast()]: the nearest mesh hit along the view direction, or
    [null]; computed by the rendering library from the scene. *)
Variable raycast : GameEngine -> option Intersection.

Definition startMining (s : GameEngine) : GameEngine :=
  match raycast s with
  | None => s
  | Some hit =>
      let '(bx, by_, bz) := targetOf hit in
      let b := getBlock s bx by_ bz in
      if negb (b =? AIR) && negb (b =? BEDROCK) then
        let isIndestructible :=
          match BLOCK_PROPS b with
          | Some p => match hardness p with
                      | Some h => Qeq_bool h (-1)
                      | None => false
                      end
          | None => false
          end in
        if isIndestructible && negb (GameMode_eqb (gameMode s) Creative) then s
        else
          let s := set_isMining true s in
          let s := set_miningBlock (Some (bx, by_, bz)) s in
          let s := set_miningProgress 0 s in
          let s := set_breakingVisible true s in
          if GameMode_eqb (gameMode s) Creative then
            let s := breakBlock bx by_ bz s in
            let s := set_isMining false s in
            set_breakingVisible false s
          else s
      else s
  end.

Definition updateMining (dt : Q) (s : GameEngine) : GameEngine :=
  match isMining s, miningBlock s with
  | true, Some mined =>
      match raycast s with
      | None => set_breakingVisible false (set_isMining false s)
      | Some hit =>
          let '(bx, by_, bz) := targetOf hit in
          let '(mx, my, mz) := mined in
          let s :=
            if negb (bx =? mx) || negb (by_ =? my) || negb (bz =? mz)
            then set_miningProgress 0 (set_miningBlock (Some (bx, by_, bz)) s)
            else s in
          let blockType := getBlock s bx by_ bz in
          if blockType =? AIR
          then set_breakingVisible false (set_isMining false s)
          else
            let hardness := hardnessOf blockType in
            if (hardness <? 0)%js && negb (GameMode_eqb (gameMode s) Creative)
            then set_breakingVisible false (set_isMining false s)
            else
              let speed := miningSpeed blockType (heldItem s) in
              let s := set_miningProgress (miningProgress s + dt * speed)%Q s in
              if (miningProgress s >=? hardness)%js then
                let s := breakBlock bx by_ bz s in
                let s := set_miningProgress 0 s in
                let s := set_breakingVisible false s in
                startMining s
              else s
      end
  | _, _ => s
  end.

End Mining.

End Engine.

(** * Vocabulary of the properties *)

Module Spec.
Import Key Chunk Engine.

(** ** Chunk store *)

(** A voxel buffer of the size of a chunk. *)
Definition sized (d : Uint8Array) : Prop :=
  TypedArray.length d = CHUNK_SIZE * CHUNK_SIZE * CHUNK_HEIGHT.

(** The voxel buffer stored under a chunk key. *)
Definition dataAt (s : GameEngine) (key : string) : option Uint8Array :=
  match JSMap.get (chunks s) key with
  | Some c => Some (data c)
  | None => None
  end.

(** Every resident buffer has the size of a chunk. *)
Definition storeSized (s : GameEngine) : Prop :=
  forall k d, dataAt s k = Some d -> sized d.

(** Everything but the chunk store and the overlay. *)
Definition sameRest (s s' : GameEngine) : Prop :=
  chunkManager s' = chunkManager s /\ playerPos s' = playerPos s
  /\ isMining s' = isMining s /\ miningBlock s' = miningBlock s
  /\ miningProgress s' = miningProgress s /\ breakingVisible s' = breakingVisible s
  /\ droppedItems s' = droppedItems s /\ fluidQueue s' = fluidQueue s
  /\ fluidQueueSet s' = fluidQueueSet s /\ seed s' = seed s
  /\ worldType s' = worldType s /\ settings s' = settings s
  /\ inventory s' = inventory s /\ selectedSlot s' = selectedSlot s
  /\ gameMode s' = gameMode s /\ random s' = random s.

(** The mesh rebuilds that follow a write. *)
Definition remesh (cx cz lx lz : Z) (s : GameEngine) : GameEngine :=
  let s := regenerateChunk cx cz s in
  let s := if lx =? 0 then regenerateChunk (cx - 1) cz s else s in
  let s := if lx =? CHUNK_SIZE - 1 then regenerateChunk (cx + 1) cz s else s in
  let s := if lz =? 0 then regenerateChunk cx (cz - 1) s else s in
  if lz =? CHUNK_SIZE - 1 then regenerateChunk cx (cz + 1) s else s.

(** ** Overlay *)

(** An overlay as [setBlock] builds it: one entry per key, every key the
    text of a world coordinate. *)
Definition overlayWf (m : JSMap.t Z) : Prop :=
  List.NoDup (JSMap.keys m)
  /\ Forall (fun k => exists x y z, k = key3 x y z) (JSMap.keys m).

(** What [applyModifications] does with one entry. *)
Definition applyEntry (cx cz : Z) (data : Uint8Array) (e : string * Z) : Uint8Array :=
  let '(key, val) := e in
  let parts := split comma key in
  match parseInt_at parts 0, parseInt_at parts 1, parseInt_at parts 2 with
  | Some gx, Some gy, Some gz =>
      if (gx >=? cx * CHUNK_SIZE) && (gx <? (cx + 1) * CHUNK_SIZE)
         && (gz >=? cz * CHUNK_SIZE) && (gz <? (cz + 1) * CHUNK_SIZE)
         && (gy >=? 0) && (gy <? CHUNK_HEIGHT)
      then TypedArray.set_u8 data
             (localCoord gx + localCoord gz * CHUNK_SIZE + gy * 256) val
      else data
  | _, _, _ => data
  end.

(** ** Streaming *)

(** The two loops of [updateWorldChunks]: the loads, then the evictions
    over a snapshot of the keys. *)
Definition loadAll (Math_sin : Q -> Q) (pcx pcz dist : Z) (s : GameEngine) : GameEngine :=
  for_range (- dist) (dist + 1) (fun x s =>
    for_range (- dist) (dist + 1) (fun z s =>
      loadChunk Math_sin (pcx + x) (pcz + z) s) s) s.

Definition evictAll (pcx pcz dist : Z) (l : list string) (s : GameEngine) : GameEngine :=
  fold_left (fun s key => evictChunk pcx pcz dist key s) l s.

(** The key parses to a coordinate beyond radius + 2. *)
Definition far (pcx pcz dist : Z) (key : string) : bool :=
  let '(cx, cz) := parse2 key in
  beyond cx pcx (dist + 2) || beyond cz pcz (dist + 2).

(** The keys a pass from an empty store around chunk (0, 0) leaves, for
    radius 2, in the order of the two loops. *)
Definition square2 : list string :=
  flat_map (fun x => map (fun z => key2 x z) (range (-2) 3)) (range (-2) 3).

(** ** Mesher *)

(** A block code with a row in the table that is drawn as a full cube:
    opaque, hence neither a plant, nor a torch, nor water. *)
Definition cubeRow (b : Z) : bool :=
  match BLOCK_PROPS b with
  | Some p =>
      implb (negb (isTransparent b))
        (negb (truthy (cross p)) && negb (b =? TORCH) && negb (isWater b))
  | None => false
  end.

(** The cell (x, y, z) lies in the chunk. *)
Definition inChunk (x y z : Z) : Prop :=
  0 <= x < CHUNK_SIZE /\ 0 <= z < CHUNK_SIZE /\ 0 <= y < CHUNK_HEIGHT.

(** Total number of vertex coordinates gathered for block [bID]. *)
Definition posLength (g : Geometries) (bID : Z) : nat :=
  List.length (pos (geoFor g bID)).

(** A geometry table that holds at most the block type [bID]. *)
Definition only (bID : Z) (g : Geometries) : Prop :=
  g = [] \/ exists geo, g = [(bID, geo)].





(** The side of the cell a vertex coordinate lies on: -1 at 0, +1 at 1. *)
Definition toward (c : Q) : Z := if Qle_bool c (1 # 2) then -1 else 1.

(** The steps from a cell to the two cells that touch the vertex at offset
    [v] across an edge of the face of normal (dx, dy, dz): both lie in the
    layer in front of the face, one step along one of the two axes of the
    face, on the side of the vertex. *)
Definition edgeOffsets (dx dy dz : Z) (v : Vec3) : Coord * Coord :=
  let '(vx, vy, vz) := v in
  if negb (dx =? 0) then ((dx, toward vy, 0), (dx, 0, toward vz))
  else if negb (dy =? 0) then ((toward vx, dy, 0), (0, dy, toward vz))
  else ((toward vx, 0, dz), (0, toward vy, dz)).

(** The two edge neighbours of the vertex at offset [v] of the cell
    (x, y, z), for its face of normal (dx, dy, dz). *)
Definition edgeNeighbours (x y z dx dy dz : Z) (v : Vec3) : Coord * Coord :=
  let '((a1, b1, c1), (a2, b2, c2)) := edgeOffsets dx dy dz v in
  ((x + a1, y + b1, z + c1), (x + a2, y + b2, z + c2)).

(** The cell [c] of the chunk (cx, cz) holds an opaque block, as the
    neighbour lookup reports it. *)
Definition opaqueAt (getBlock : Z -> Z -> Z -> Z) (cx cz : Z) (c : Coord) : bool :=
  let '(a, b, c') := c in
  negb (isTransparent (getBlock (cx * CHUNK_SIZE + a) b (cz * CHUNK_SIZE + c'))).


(** The vertex at the high x, low y corner of a face that looks along z. *)
Definition highXLowYOfZFace (dx dy : Z) (v : Vec3) : bool :=
  let '(vx, vy, _) := v in
  (dx =? 0) && (dy =? 0) && Qeq_bool vx 1 && Qeq_bool vy 0.




(** ** Fluids *)

(** The queue holds no coordinate twice, and the set holds the keys of the
    queued coordinates and nothing else. *)
Definition queueInv (s : GameEngine) : Prop :=
  NoDup (fluidQueue s)
  /\ fluidQueueSet s = list_to_set (coordKey <$> fluidQueue s).

(** [s'] has the queue of [s] with entries added at the back. *)
Definition appended (s s' : GameEngine) : Prop :=
  exists added, fluidQueue s' = fluidQueue s ++ added.

(** What a step may change as far as the queue is concerned. *)
Definition queueOf (s : GameEngine) : list Coord * gset string :=
  (fluidQueue s, fluidQueueSet s).

(** A block that stands in the way of a flow, less the torch, which the flow
    rule names apart: not air, not water, not a plant, not bedrock, and with
    no [fluid] field in the table. *)
Definition solidBlock (b : Z) : Prop :=
  b <> AIR /\ isWater b = false /\ prop_flag cross b = false
  /\ b <> TORCH /\ b <> BEDROCK /\ fluidUndefined b = true.

(** Flowing water written by the flow rules stays where it is. *)
Definition keepsFlowing (s s' : GameEngine) : Prop :=
  forall x y z, getBlock s x y z = FLOWING_WATER -> getBlock s' x y z = FLOWING_WATER.

(** Between [s] and [s'] a cell only changes by becoming flowing water,
    and then it held neither water nor bedrock and lies at height [top] or
    below. *)
Definition flowWrites (top : Z) (s s' : GameEngine) : Prop :=
  forall x y z,
    getBlock s' x y z <> getBlock s x y z ->
    getBlock s' x y z = FLOWING_WATER
    /\ isWater (getBlock s x y z) = false
    /\ getBlock s x y z <> BEDROCK
    /\ y <= top.

(** Between [s] and [s'] a cell only changes by becoming air. *)
Definition clearsOnly (s s' : GameEngine) : Prop :=
  forall x y z, getBlock s' x y z = getBlock s x y z \/ getBlock s' x y z = AIR.

End Spec.

(** * Worlds used as examples *)

Module Examples.
Import Key Chunk Engine.

Definition stillNoise : ChunkManager :=
  mkChunkManager (fun _ _ => 0%Q) (fun _ _ _ => 0%Q) 0.

Definition flatSettings : GameSettings := mkGameSettings 75 2 0.003 true true.

Definition noSin : Q -> Q := fun _ => 0%Q.

(** The voxel buffer of a chunk of a [Flat] world with no edit. *)
Definition flatData : Uint8Array :=
  fst (generateChunkData noSin stillNoise 0 0 0 Flat [] (Random.constant 0.5)).

(** A new [Flat] survival world before its first streaming pass. *)
Definition emptyEngine : GameEngine :=
  mkEngine stillNoise [] [] (0, 80, 0)%Q false None 0 false [] [] ∅ 0 Flat
    flatSettings (Some (mkItemStack WOODEN_AXE 1) :: repeat None 35) 0 Survival
    (Random.constant 0.5).

(** The same world with the chunk (0, 0) resident. *)
Definition flatEngine : GameEngine :=
  set_chunks [(key2 0 0, mkChunkEntry flatData None)] emptyEngine.

(** A ray that ends on top of the bedrock cell (0, 0, 0). *)
Definition hitBedrock : GameEngine -> option Intersection :=
  fun _ => Some (mkIntersection (0.5, 1, 0.5)%Q (0, 1, 0)%Q).

(** A [Flat] world in which a water source was placed at (5, 5, 5), on the
    grass, and is waiting in the fluid queue. *)
Definition wetOverlay : JSMap.t Z := [(key3 5 5 5, WATER)].

Definition wetData : Uint8Array :=
  fst (generateChunkData noSin stillNoise 0 0 0 Flat wetOverlay (Random.constant 0.5)).

Definition wetEngine : GameEngine :=
  set_fluidQueueSet {[ key3 5 5 5 ]}
    (set_fluidQueue [(5, 5, 5)]
       (set_modifiedBlocks wetOverlay
          (set_chunks [(key2 0 0, mkChunkEntry wetData None)] emptyEngine))).

(** A buffer that is all stone, and one that holds a single stone. *)
Definition stoneData : Uint8Array := TypedArray.mk 65536 (fun _ => STONE).

Definition loneStone : Uint8Array :=
  TypedArray.mk 65536 (fun i => if i =? cellIndex 3 7 5 then STONE else AIR).



(** A world of air with two stones, at (7, 5, 7) and at (6, 4, 7): the two
    edge neighbours of the high x, low y corner of the face of the cell
    (6, 5, 6) that looks along +z. *)
Definition cornerLookup (x y z : Z) : Z :=
  if ((x =? 7) && (y =? 5) && (z =? 7)) || ((x =? 6) && (y =? 4) && (z =? 7))
  then STONE else AIR.

(** Noise fields that read 0.5 everywhere around the chunk: a temperate
    column on a temperature boundary of the biome table. *)
Definition warmNoise : ChunkManager :=
  mkChunkManager (fun _ _ => 0.5%Q) (fun _ _ _ => 0%Q) 0.

Definition halfSin : Q -> Q := fun _ => 0.5%Q.

(** Two states of [Math.random]: draws above and below one half. *)
Definition highDraws : Random.Source := Random.constant 0.9.

Definition lowDraws : Random.Source := Random.constant 0.1.

End Examples.

(** ** [GameEngine]: the inventory ([Engine.ts]) *)

Module Inventory.
Import Engine.

(** [InventorySlots], the type of [this.inventory], is a list of slots;
    [null] is [None]. *)

(** [this.inventory[i]], [undefined] beyond the end being as falsy as [null]. *)
Definition slot (inv : list (option ItemStack)) (i : nat) : option ItemStack :=
  match inv !! i with
  | Some s => s
  | None => None
  end.

(** [this.inventory[i] = v]: a write beyond the end makes the array longer,
    the slots in between being holes. *)
Definition put (inv : list (option ItemStack)) (i : nat) (v : option ItemStack) : list (option ItemStack) :=
  if (i <? List.length inv)%nat then <[ i := v ]> inv
  else inv ++ replicate (i - List.length inv) None ++ [v].

(** The state of a loop of [addToInventory]: the slots, what is left of
    [count], and whether the loop has reached its [break]. *)
Definition Filling : Type := list (option ItemStack) * Z * bool.

(** "Try stack first": the body of the first loop. *)
Definition stackStep (id : Z) (st : Filling) (i : nat) : Filling :=
  let '(inv, count, stop) := st in
  if stop then st
  else
    match slot inv i with
    | Some it =>
        if (Engine.id it =? id) && (Engine.count it <? 64) then
          let space := 64 - Engine.count it in
          let add := Z.min space count in
          let inv := put inv i (Some (mkItemStack (Engine.id it) (Engine.count it + add))) in
          let count := count - add in
          (inv, count, count <=? 0)
        else st
    | None => st
    end.

(** "Then empty slot": the body of the second loop. *)
Definition emptyStep (id : Z) (st : Filling) (i : nat) : Filling :=
  let '(inv, count, stop) := st in
  if stop then st
  else
    match slot inv i with
    | Some _ => st
    | None => (put inv i (Some (mkItemStack id count)), 0, true)
    end.

(** [addToInventory(id, count)], on [this.inventory]. *)
Definition addToInventory (id count : Z) (inv : list (option ItemStack)) : list (option ItemStack) :=
  let '(inv, count, _) := fold_left (stackStep id) (seq 0 36) (inv, count, false) in
  if count >? 0
  then fst (fst (fold_left (emptyStep id) (seq 0 36) (inv, count, false)))
  else inv.

(** [give(id, count)]: [addToInventory] and a message. *)
Definition give (id count : Z) (inv : list (option ItemStack)) : list (option ItemStack) := addToInventory id count inv.

(** [clearInventory()]: [this.inventory.fill(null)]. *)
Definition clearInventory (inv : list (option ItemStack)) : list (option ItemStack) := map (fun _ => None) inv.

End Inventory.

(** * Vocabulary of the further properties *)

Module Terms.
Import Key Chunk Engine Spec.

(** Between [s] and [s'] a cell only changes by becoming flowing water, and
    then it held neither water nor bedrock. *)
Definition onlyFloods (s s' : GameEngine) : Prop :=
  forall x y z,
    getBlock s' x y z <> getBlock s x y z ->
    getBlock s' x y z = FLOWING_WATER
    /\ isWater (getBlock s x y z) = false
    /\ getBlock s x y z <> BEDROCK.

(** The state [fluidStep] leaves when it only takes the entry [c] off the
    queue. *)
Definition dequeued (c : Coord) (rest : list Coord) (s : GameEngine) : GameEngine :=
  set_fluidQueueSet (fluidQueueSet s ∖ {[ coordKey c ]}) (set_fluidQueue rest s).

(** How many items of type [id] the slots hold. *)
Definition held (id : Z) (inv : list (option ItemStack)) : Z :=
  fold_right (fun s acc =>
    match s with
    | Some it => if Engine.id it =? id then Engine.count it + acc else acc
    | None => acc
    end) 0 inv.

(** What a slot counts for in [held]. *)
Definition worth (id : Z) (s : option ItemStack) : Z :=
  match s with
  | Some it => if Engine.id it =? id then Engine.count it else 0
  | None => 0
  end.

(** What the first loop of [addToInventory] keeps, from the slots [inv]
    and the [count] it starts with: the items of other types, the sum of
    what is held and what is left to add, and the free slots. *)
Definition stacking (id count : Z) (inv : list (option ItemStack)) (st : Inventory.Filling) : Prop :=
  let '(inv', c, _) := st in
  (forall id', id' <> id -> held id' inv' = held id' inv)
  /\ held id inv' + c = held id inv + count
  /\ 0 <= c <= count
  /\ (forall j, Inventory.slot inv' j = None <-> Inventory.slot inv j = None).

(** One of the 36 slots the engine looks at is free. *)
Definition hasFreeSlot (inv : list (option ItemStack)) : Prop :=
  exists i, (i < 36)%nat /\ Inventory.slot inv i = None.

(** A stack of [id] with room left, among the 36 slots. *)
Definition hasOpenStack (id : Z) (inv : list (option ItemStack)) : Prop :=
  exists i it, (i < 36)%nat /\ Inventory.slot inv i = Some it
               /\ Engine.id it = id /\ Engine.count it < 64.

(** The block a [Flat] world puts at height [y]. *)
Definition layerOf (y : Z) : Z :=
  if y =? 0 then BEDROCK else if y <? 4 then DIRT
  else if y =? 4 then GRASS else AIR.

(** A block code that fits a byte and is not bedrock. *)
Definition ordinary (v : Z) : Prop := 0 <= v < 256 /\ v <> BEDROCK.

(** Bedrock fills the cells of height 0 of the buffer and no other cell. *)
Definition bedrockFloor (d : Uint8Array) : Prop :=
  forall x y z,
    0 <= x < CHUNK_SIZE -> 0 <= z < CHUNK_SIZE -> 0 <= y < CHUNK_HEIGHT ->
    (TypedArray.get d (cellIndex x y z) = BEDROCK <-> y = 0).

End Terms.

(** * Further example worlds *)

Module MoreExamples.
Import Key Chunk Engine Examples.

(** A [Flat] world whose only resident chunk, (4, 0), lies in the band
    between the render distance 2 and the eviction distance 4. *)
Definition bandEngine : GameEngine :=
  set_chunks [(key2 4 0, mkChunkEntry flatData None)] emptyEngine.

(** The [Flat] world with chunk (0, 0) resident and, waiting in the fluid
    queue, a coordinate of a chunk that is not. *)
Definition strayEngine : GameEngine :=
  set_fluidQueueSet {[ key3 100 5 100 ]} (set_fluidQueue [(100, 5, 100)] flatEngine).

(** The [Flat] world with chunk (0, 0) resident, in creative mode. *)
Definition creativeEngine : GameEngine :=
  mkEngine stillNoise [(key2 0 0, mkChunkEntry flatData None)] [] (0, 80, 0)%Q
    false None 0 false [] [] ∅ 0 Flat flatSettings (repeat None 36) 0 Creative
    (Random.constant 0.5).

(** A ray that ends on top of the grass cell (0, 4, 0). *)
Definition hitGrass : GameEngine -> option Intersection :=
  fun _ => Some (mkIntersection (0.5, 5, 0.5)%Q (0, 1, 0)%Q).

End MoreExamples.

(** * Properties *)

(** ** Loops *)

Module NumFacts.

Lemma In_range lo hi i : In i (range lo hi) <-> lo <= i < hi.
Proof.
  unfold range. rewrite in_map_iff. split.
  - intros (k & <- & Hk%in_seq). lia.
  - intros H. exists (Z.to_nat (i - lo)). split; [lia|]. apply in_seq. lia.
Qed.

Lemma range_empty lo hi : hi <= lo -> range lo hi = [].
Proof. intros H. unfold range. replace (Z.to_nat (hi - lo)) with 0%nat by lia. reflexivity. Qed.

Lemma range_cons lo hi : lo < hi -> range lo hi = lo :: range (lo + 1) hi.
Proof.
  intros H. unfold range.
  replace (Z.to_nat (hi - lo)) with (S (Z.to_nat (hi - (lo + 1)))) by lia.
  cbn [seq List.map]. f_equal; [lia|].
  rewrite <- seq_shift, List.map_map. apply List.map_ext. intros k. lia.
Qed.

Lemma range_app lo mid hi :
  lo <= mid <= hi -> range lo hi = range lo mid ++ range mid hi.
Proof.
  intros H. remember (Z.to_nat (mid - lo)) as n eqn:Hn.
  revert lo H Hn. induction n as [|n IH]; intros lo H Hn.
  - assert (lo = mid) as -> by lia. rewrite (range_empty mid mid) by lia. reflexivity.
  - rewrite (range_cons lo hi), (range_cons lo mid) by lia.
    cbn [app]. f_equal. apply IH; lia.
Qed.

Lemma range_split lo hi k :
  lo <= k < hi -> range lo hi = range lo k ++ k :: range (k + 1) hi.
Proof.
  intros H. rewrite (range_app lo k hi) by lia. rewrite (range_cons k hi) by lia.
  reflexivity.
Qed.

Lemma fold_left_inv {A S} (P : S -> Prop) (f : S -> A -> S) (l : list A) (s : S) :
  P s -> (forall a s', In a l -> P s' -> P (f s' a)) -> P (fold_left f l s).
Proof.
  revert s. induction l as [|a l IH]; intros s Hs Hstep; simpl; [exact Hs|].
  apply IH.
  - apply Hstep; [left; reflexivity|exact Hs].
  - intros b s' Hb. apply Hstep. right. exact Hb.
Qed.

Lemma for_range_inv {S} (P : S -> Prop) lo hi (body : Z -> S -> S) (s : S) :
  P s -> (forall i s', lo <= i < hi -> P s' -> P (body i s')) ->
  P (for_range lo hi body s).
Proof.
  intros Hs Hstep. unfold for_range. apply fold_left_inv; [exact Hs|].
  intros i s' Hi%In_range. apply Hstep. exact Hi.
Qed.

Lemma for_range_id {S} lo hi (body : Z -> S -> S) (s : S) :
  (forall i, lo <= i < hi -> body i s = s) -> for_range lo hi body s = s.
Proof.
  intros H. apply (for_range_inv (fun s' => s' = s)); [reflexivity|].
  intros i s' Hi ->. apply H. exact Hi.
Qed.

Lemma for_range_app {S} lo mid hi (body : Z -> S -> S) (s : S) :
  lo <= mid <= hi ->
  for_range lo hi body s = for_range mid hi body (for_range lo mid body s).
Proof.
  intros H. unfold for_range. rewrite (range_app lo mid hi) by exact H.
  apply fold_left_app.
Qed.

Lemma for_range_step {S} lo hi (body : Z -> S -> S) (s : S) :
  lo < hi -> for_range lo hi body s = for_range (lo + 1) hi body (body lo s).
Proof. intros H. unfold for_range. rewrite range_cons by exact H. reflexivity. Qed.

(** A loop whose body acts at one index only. *)
Lemma for_range_single {S} lo hi k (body : Z -> S -> S) (s : S) :
  lo <= k < hi ->
  (forall i s', lo <= i < hi -> i <> k -> body i s' = s') ->
  for_range lo hi body s = body k s.
Proof.
  intros Hk Hid.
  rewrite (for_range_app lo k hi) by lia.
  rewrite (for_range_id lo k) by (intros; apply Hid; lia).
  rewrite for_range_step by lia.
  apply for_range_id. intros i Hi. apply Hid; lia.
Qed.

End NumFacts.

(** ** Maps *)

Module JSMapFacts.
Import JSMap.

Section Facts.
Context {V : Type}.
Implicit Types (m : JSMap.t V) (k : string) (v : V).

Lemma get_set_eq m k v : get (set m k v) k = Some v.
Proof.
  induction m as [|[k' v'] m IH]; simpl.
  - rewrite String.eqb_refl. reflexivity.
  - destruct (String.eqb k k') eqn:E; simpl.
    + rewrite String.eqb_refl. reflexivity.
    + rewrite E. exact IH.
Qed.

Lemma get_set_ne m k k' v : k <> k' -> get (set m k v) k' = get m k'.
Proof.
  intros Hne. induction m as [|[k0 v0] m IH]; simpl.
  - destruct (String.eqb_spec k' k); [congruence|reflexivity].
  - destruct (String.eqb_spec k k0) as [->|Hk]; simpl.
    + destruct (String.eqb_spec k' k0); [congruence|reflexivity].
    + destruct (String.eqb_spec k' k0); [reflexivity|exact IH].
Qed.

Lemma get_delete_eq m k : get (delete m k) k = None.
Proof.
  unfold delete. induction m as [|[k' v'] m IH]; simpl; [reflexivity|].
  destruct (String.eqb_spec k k') as [->|Hk]; simpl; [exact IH|].
  destruct (String.eqb_spec k k'); [congruence|exact IH].
Qed.

Lemma get_delete_ne m k k' : k <> k' -> get (delete m k) k' = get m k'.
Proof.
  intros Hne. unfold delete. induction m as [|[k0 v0] m IH]; simpl; [reflexivity|].
  destruct (String.eqb_spec k k0) as [->|Hk]; simpl.
  - destruct (String.eqb_spec k' k0); [congruence|exact IH].
  - destruct (String.eqb_spec k' k0); [reflexivity|exact IH].
Qed.

Lemma has_set_eq m k v : has (set m k v) k = true.
Proof. unfold has. rewrite get_set_eq. reflexivity. Qed.

Lemma has_set_ne m k k' v : k <> k' -> has (set m k v) k' = has m k'.
Proof. intros H. unfold has. rewrite get_set_ne by exact H. reflexivity. Qed.

Lemma has_delete_eq m k : has (delete m k) k = false.
Proof. unfold has. rewrite get_delete_eq. reflexivity. Qed.

Lemma has_delete_ne m k k' : k <> k' -> has (delete m k) k' = has m k'.
Proof. intros H. unfold has. rewrite get_delete_ne by exact H. reflexivity. Qed.

Lemma has_In_keys m k : has m k = true <-> In k (keys m).
Proof.
  unfold has, keys. induction m as [|[k' v'] m IH]; simpl.
  - split; [discriminate|tauto].
  - destruct (String.eqb_spec k k') as [->|Hk].
    + split; auto.
    + rewrite IH. split; [auto|]. intros [H|H]; [congruence|exact H].
Qed.

Lemma get_None_keys m k : get m k = None <-> ~ In k (keys m).
Proof.
  rewrite <- has_In_keys. unfold has. destruct (get m k); split; intros H.
  - discriminate.
  - exfalso. apply H. reflexivity.
  - discriminate.
  - reflexivity.
Qed.

Lemma keys_set m k v :
  keys (set m k v) = if has m k then keys m else keys m ++ [k].
Proof.
  unfold has, keys. induction m as [|[k' v'] m IH]; simpl; [reflexivity|].
  destruct (String.eqb_spec k k') as [->|Hk]; simpl; [reflexivity|].
  rewrite IH. destruct (get m k); reflexivity.
Qed.

Lemma keys_delete m k : keys (delete m k) = List.filter (fun k' => negb (String.eqb k k')) (keys m).
Proof.
  unfold keys, delete. induction m as [|[k' v'] m IH]; simpl; [reflexivity|].
  destruct (String.eqb k k'); simpl; congruence.
Qed.

Lemma NoDup_keys_set m k v : List.NoDup (keys m) -> List.NoDup (keys (set m k v)).
Proof.
  intros H. rewrite keys_set. destruct (has m k) eqn:E; [exact H|].
  apply List.NoDup_app; [exact H|repeat constructor; simpl; tauto|].
  intros x Hx [->|[]]. apply has_In_keys in Hx. congruence.
Qed.

Lemma get_In m k v : List.NoDup (keys m) -> In (k, v) m -> get m k = Some v.
Proof.
  unfold keys. induction m as [|[k' v'] m IH]; simpl; [tauto|].
  intros Hnd [Heq|Hin].
  - inversion Heq; subst. rewrite String.eqb_refl. reflexivity.
  - inversion Hnd as [|? ? Hk' Hnd']; subst.
    destruct (String.eqb_spec k k') as [->|Hk].
    + exfalso. apply Hk'. apply in_map_iff. exists (k', v). auto.
    + apply IH; assumption.
Qed.

End Facts.
End JSMapFacts.

(** ** Typed arrays: reads after writes *)

Module TypedArrayFacts.
Import TypedArray.

Lemma length_store a i v : length (store a i v) = length a.
Proof. unfold store. destruct (_ && _); reflexivity. Qed.

Lemma get_store_eq a i v : 0 <= i < length a -> get (store a i v) i = v.
Proof.
  intros H. unfold store, get.
  replace ((0 <=? i) && (i <? length a)) with true by (symmetry; apply andb_true_iff; lia).
  simpl. rewrite Z.eqb_refl. reflexivity.
Qed.

Lemma get_store_ne a i j v : j <> i -> get (store a i v) j = get a j.
Proof.
  intros H. unfold store, get. destruct (_ && _); [simpl|reflexivity].
  destruct (Z.eqb_spec j i); [congruence|reflexivity].
Qed.

Lemma store_out a i v : ~ (0 <= i < length a) -> store a i v = a.
Proof.
  intros H. unfold store.
  replace ((0 <=? i) && (i <? length a)) with false; [reflexivity|].
  symmetry. apply andb_false_iff. lia.
Qed.

Lemma length_set_u8 a i v : length (set_u8 a i v) = length a.
Proof. apply length_store. Qed.

Lemma get_set_u8_eq a i v :
  0 <= i < length a -> 0 <= v < 256 -> get (set_u8 a i v) i = v.
Proof.
  intros Hi Hv. unfold set_u8. cbv zeta. rewrite get_store_eq by exact Hi.
  apply Z.mod_small. exact Hv.
Qed.

Lemma get_set_u8_ne a i j v : j <> i -> get (set_u8 a i v) j = get a j.
Proof. apply get_store_ne. Qed.

Lemma set_u8_out a i v : ~ (0 <= i < length a) -> set_u8 a i v = a.
Proof. apply store_out. Qed.

End TypedArrayFacts.

(** ** String keys: printing and parsing back *)

Module KeyFacts.
Import Key.

Lemma uint_digits u :
  digits (NilEmpty.string_of_uint u) = NilEmpty.string_of_uint u.
Proof. induction u; simpl; congruence. Qed.

Lemma uint_plain u : plain (NilEmpty.string_of_uint u) = true.
Proof. induction u; simpl; auto. Qed.

Lemma uint_unsigned u :
  signed (NilEmpty.string_of_uint u) = (false, NilEmpty.string_of_uint u).
Proof. destruct u; reflexivity. Qed.

Lemma uint_nonempty u : u <> Nil -> NilEmpty.string_of_uint u <> EmptyString.
Proof. destruct u; simpl; congruence. Qed.

Lemma numToString_plain z : plain (numToString z) = true.
Proof.
  unfold numToString. destruct z; cbn -[Pos.to_uint]; rewrite ?uint_plain; reflexivity.
Qed.

Lemma parse_uint neg u :
  u <> Nil ->
  match digits (NilEmpty.string_of_uint u) with
  | EmptyString => None
  | ds => option_map (apply_sign neg) (NilEmpty.uint_of_string ds)
  end = Some (apply_sign neg u).
Proof.
  intros Hu. rewrite uint_digits.
  pose proof (uint_nonempty u Hu) as Hne.
  pose proof (NilEmpty.usu u) as Hus.
  destruct (NilEmpty.string_of_uint u) eqn:E; [congruence|].
  rewrite Hus. reflexivity.
Qed.

Lemma parseInt_numToString z : parseInt (numToString z) = Some z.
Proof.
  destruct z as [|p|p]; [reflexivity| |].
  - unfold parseInt, numToString. simpl Z.to_int. simpl NilEmpty.string_of_int.
    rewrite uint_unsigned.
    rewrite (parse_uint false) by apply Unsigned.to_uint_nonnil.
    unfold apply_sign, N.of_uint. rewrite Unsigned.of_to. reflexivity.
  - unfold parseInt, numToString. simpl Z.to_int. simpl NilEmpty.string_of_int.
    cbn [signed]. 
    rewrite (parse_uint true) by apply Unsigned.to_uint_nonnil.
    unfold apply_sign, N.of_uint. rewrite Unsigned.of_to. reflexivity.
Qed.

Lemma split_plain s : plain s = true -> split comma s = [s].
Proof.
  induction s as [|c s IH]; simpl; [reflexivity|].
  intros [Hc Hs]%andb_prop. apply negb_true_iff in Hc. rewrite Hc, (IH Hs). reflexivity.
Qed.

Lemma split_sep a b :
  plain a = true -> split comma (a +:+ String comma b) = a :: split comma b.
Proof.
  induction a as [|c a IH]; simpl.
  - intros _. reflexivity.
  - intros [Hc Ha]%andb_prop. apply negb_true_iff in Hc. rewrite Hc, (IH Ha). reflexivity.
Qed.

Lemma split_key3 x y z :
  split comma (key3 x y z) = [numToString x; numToString y; numToString z].
Proof.
  unfold key3.
  rewrite split_sep by apply numToString_plain.
  rewrite split_sep by apply numToString_plain.
  rewrite split_plain by apply numToString_plain. reflexivity.
Qed.

Lemma split_key2 x z : split comma (key2 x z) = [numToString x; numToString z].
Proof.
  unfold key2.
  rewrite split_sep by apply numToString_plain.
  rewrite split_plain by apply numToString_plain. reflexivity.
Qed.

(** Reading a coordinate key back gives the coordinate. *)
Lemma parse_key3 x y z :
  let parts := split comma (key3 x y z) in
  parseInt_at parts 0 = Some x /\ parseInt_at parts 1 = Some y
  /\ parseInt_at parts 2 = Some z.
Proof.
  cbv zeta. rewrite split_key3. unfold parseInt_at. simpl.
  rewrite !parseInt_numToString. auto.
Qed.

Lemma numToString_whole z :
  let '(neg, body) := signed (numToString z) in (digits body =? body)%string = true.
Proof.
  unfold numToString. destruct z as [|p|p]; [reflexivity| |].
  - simpl Z.to_int. simpl NilEmpty.string_of_int. rewrite uint_unsigned, uint_digits.
    apply String.eqb_refl.
  - simpl Z.to_int. simpl NilEmpty.string_of_int. cbn [signed]. rewrite uint_digits.
    apply String.eqb_refl.
Qed.

Lemma numToString_nonempty z : numToString z <> EmptyString.
Proof.
  unfold numToString. destruct z as [|p|p]; [discriminate| |discriminate].
  simpl. apply uint_nonempty, Unsigned.to_uint_nonnil.
Qed.

Lemma Number_numToString z : Number (numToString z) = Some z.
Proof.
  unfold Number. pose proof (numToString_whole z) as Hw.
  pose proof (numToString_nonempty z) as Hne.
  pose proof (parseInt_numToString z) as Hp.
  destruct (numToString z) as [|c r]; [congruence|].
  destruct (signed (String c r)) as [neg body]. rewrite Hw. exact Hp.
Qed.

(** Reading a chunk key back gives the chunk coordinate. *)
Lemma parse_key2 cx cz : parse2 (key2 cx cz) = (Some cx, Some cz).
Proof.
  unfold parse2. rewrite split_key2. simpl. rewrite !Number_numToString. reflexivity.
Qed.

Lemma key2_inj a b a' b' : key2 a b = key2 a' b' -> a = a' /\ b = b'.
Proof.
  intros H. pose proof (parse_key2 a b) as H1. rewrite H, parse_key2 in H1.
  inversion H1; auto.
Qed.

Lemma key3_inj a b c a' b' c' : key3 a b c = key3 a' b' c' -> a = a' /\ b = b' /\ c = c'.
Proof.
  intros H. destruct (parse_key3 a b c) as (H1 & H2 & H3).
  destruct (parse_key3 a' b' c') as (H1' & H2' & H3').
  rewrite H in H1, H2, H3. rewrite H1 in H1'. rewrite H2 in H2'. rewrite H3 in H3'.
  inversion H1'; inversion H2'; inversion H3'; auto.
Qed.

End KeyFacts.

(** ** Reads and writes of the chunk store *)

Module EngineFacts.
Import Key Chunk Engine Spec KeyFacts NumFacts JSMapFacts TypedArrayFacts.

Lemma localCoord_mod v : localCoord v = v mod 16.
Proof.
  unfold localCoord, jsmod, CHUNK_SIZE.
  Z.to_euclidean_division_equations. lia.
Qed.

Lemma localCoord_range v : 0 <= localCoord v < 16.
Proof. rewrite localCoord_mod. apply Z.mod_pos_bound. lia. Qed.

Lemma world_split v : v = 16 * chunkCoord v + localCoord v.
Proof. rewrite localCoord_mod. unfold chunkCoord, CHUNK_SIZE. apply Z.div_mod. lia. Qed.

Lemma getBlock_dataAt s x y z :
  getBlock s x y z =
  match dataAt s (key2 (chunkCoord x) (chunkCoord z)) with
  | None => AIR
  | Some d =>
      if (y <? 0) || (y >=? CHUNK_HEIGHT) then AIR
      else TypedArray.get d (localCoord x + localCoord z * CHUNK_SIZE + y * 256)
  end.
Proof. unfold getBlock, dataAt. destruct (JSMap.get _ _); reflexivity. Qed.

Lemma getBlock_ext s s' :
  (forall k, dataAt s k = dataAt s' k) -> forall x y z, getBlock s x y z = getBlock s' x y z.
Proof. intros H x y z. rewrite !getBlock_dataAt, H. reflexivity. Qed.

(** The vertical bound of reads. *)
Lemma getBlock_vertical s x y z : y < 0 \/ y >= CHUNK_HEIGHT -> getBlock s x y z = AIR.
Proof.
  intros H. unfold getBlock. destruct (JSMap.get _ _); [|reflexivity].
  replace ((y <? 0) || (y >=? CHUNK_HEIGHT)) with true; [reflexivity|].
  symmetry. apply orb_true_iff. unfold CHUNK_HEIGHT in *. lia.
Qed.

Lemma sameRest_refl s : sameRest s s.
Proof. unfold sameRest. tauto. Qed.

Lemma sameRest_trans s1 s2 s3 : sameRest s1 s2 -> sameRest s2 s3 -> sameRest s1 s3.
Proof. unfold sameRest. intuition congruence. Qed.

Lemma regenerateChunk_rest cx cz s : sameRest s (regenerateChunk cx cz s).
Proof.
  unfold regenerateChunk. destruct (JSMap.get _ _); [|apply sameRest_refl].
  unfold sameRest. simpl. tauto.
Qed.

Lemma regenerateChunk_modifiedBlocks cx cz s :
  modifiedBlocks (regenerateChunk cx cz s) = modifiedBlocks s.
Proof. unfold regenerateChunk. destruct (JSMap.get _ _); reflexivity. Qed.

Lemma regenerateChunk_dataAt cx cz s k :
  dataAt (regenerateChunk cx cz s) k = dataAt s k.
Proof.
  unfold regenerateChunk. destruct (JSMap.get (chunks s) (key2 cx cz)) as [c|] eqn:E;
    [|reflexivity].
  unfold dataAt. simpl.
  destruct (String.eqb_spec (key2 cx cz) k) as [<-|Hne].
  - rewrite get_set_eq, E. reflexivity.
  - rewrite get_set_ne by exact Hne. reflexivity.
Qed.

Lemma regenerateChunk_keys cx cz s :
  JSMap.keys (chunks (regenerateChunk cx cz s)) = JSMap.keys (chunks s).
Proof.
  unfold regenerateChunk. destruct (JSMap.get (chunks s) (key2 cx cz)) as [c|] eqn:E;
    [|reflexivity].
  simpl. rewrite keys_set. unfold JSMap.has. rewrite E. reflexivity.
Qed.

Lemma remesh_spec cx cz lx lz s :
  sameRest s (remesh cx cz lx lz s)
  /\ modifiedBlocks (remesh cx cz lx lz s) = modifiedBlocks s
  /\ (forall k, dataAt (remesh cx cz lx lz s) k = dataAt s k)
  /\ JSMap.keys (chunks (remesh cx cz lx lz s)) = JSMap.keys (chunks s).
Proof.
  unfold remesh.
  repeat match goal with
  | |- context [if ?b then _ else _] => destruct b
  end;
  (split; [|split; [|split]];
   [ repeat (eapply sameRest_trans; [|apply regenerateChunk_rest]); apply sameRest_refl
   | rewrite ?regenerateChunk_modifiedBlocks; reflexivity
   | intros k; rewrite ?regenerateChunk_dataAt; reflexivity
   | rewrite ?regenerateChunk_keys; reflexivity ]).
Qed.

Lemma setBlock_unfold x y z id s :
  setBlock x y z id s =
  match JSMap.get (chunks s) (key2 (chunkCoord x) (chunkCoord z)) with
  | None => s
  | Some chunk =>
      let idx := localCoord x + localCoord z * CHUNK_SIZE + y * 256 in
      let d := TypedArray.set_u8 (data chunk) idx id in
      remesh (chunkCoord x) (chunkCoord z) (localCoord x) (localCoord z)
        (set_modifiedBlocks (JSMap.set (modifiedBlocks s) (key3 x y z) id)
          (set_chunks (JSMap.set (chunks s) (key2 (chunkCoord x) (chunkCoord z))
                         (mkChunkEntry d (mesh chunk))) s))
  end.
Proof. unfold setBlock, remesh. destruct (JSMap.get _ _); reflexivity. Qed.

Lemma setBlock_rest x y z id s : sameRest s (setBlock x y z id s).
Proof.
  rewrite setBlock_unfold. destruct (JSMap.get _ _); [|apply sameRest_refl]. cbv zeta.
  eapply sameRest_trans; [|apply remesh_spec]. unfold sameRest. simpl. tauto.
Qed.

Lemma setBlock_modifiedBlocks x y z id s :
  modifiedBlocks (setBlock x y z id s) =
  match JSMap.get (chunks s) (key2 (chunkCoord x) (chunkCoord z)) with
  | None => modifiedBlocks s
  | Some _ => JSMap.set (modifiedBlocks s) (key3 x y z) id
  end.
Proof.
  rewrite setBlock_unfold. destruct (JSMap.get _ _); [|reflexivity]. cbv zeta.
  destruct (remesh_spec (chunkCoord x) (chunkCoord z) (localCoord x) (localCoord z)
    (set_modifiedBlocks (JSMap.set (modifiedBlocks s) (key3 x y z) id)
       (set_chunks (JSMap.set (chunks s) (key2 (chunkCoord x) (chunkCoord z))
          (mkChunkEntry (TypedArray.set_u8 (data c)
             (localCoord x + localCoord z * CHUNK_SIZE + y * 256) id) (mesh c))) s)))
    as (_ & -> & _). reflexivity.
Qed.

Lemma setBlock_dataAt x y z id s k :
  dataAt (setBlock x y z id s) k =
  match dataAt s (key2 (chunkCoord x) (chunkCoord z)) with
  | Some d =>
      if String.eqb (key2 (chunkCoord x) (chunkCoord z)) k
      then Some (TypedArray.set_u8 d (localCoord x + localCoord z * CHUNK_SIZE + y * 256) id)
      else dataAt s k
  | None => dataAt s k
  end.
Proof.
  rewrite setBlock_unfold. unfold dataAt at 2.
  destruct (JSMap.get (chunks s) (key2 (chunkCoord x) (chunkCoord z))) as [c|] eqn:E;
    [|reflexivity].
  cbv zeta.
  match goal with |- dataAt (remesh ?a ?b ?c0 ?d ?s0) k = _ =>
    destruct (remesh_spec a b c0 d s0) as (_ & _ & -> & _) end.
  unfold dataAt. simpl.
  destruct (String.eqb_spec (key2 (chunkCoord x) (chunkCoord z)) k) as [<-|Hne].
  - rewrite get_set_eq. reflexivity.
  - rewrite get_set_ne by exact Hne. reflexivity.
Qed.

Lemma setBlock_keys x y z id s :
  JSMap.keys (chunks (setBlock x y z id s)) = JSMap.keys (chunks s).
Proof.
  rewrite setBlock_unfold.
  destruct (JSMap.get (chunks s) (key2 (chunkCoord x) (chunkCoord z))) as [c|] eqn:E;
    [|reflexivity].
  cbv zeta.
  match goal with |- JSMap.keys (chunks (remesh ?a ?b ?c0 ?d ?s0)) = _ =>
    destruct (remesh_spec a b c0 d s0) as (_ & _ & _ & ->) end.
  simpl. rewrite keys_set. unfold JSMap.has. rewrite E. reflexivity.
Qed.

End EngineFacts.

(** ** Mining: the hardness guard and the speed *)

Module Mining.
Import Key Chunk Engine Spec KeyFacts NumFacts JSMapFacts TypedArrayFacts EngineFacts Examples.

Lemma Qltb_lt a b : (a <? b)%js = true <-> (a < b)%Q.
Proof.
  unfold Qltb. rewrite negb_true_iff. split.
  - intros H. apply Qnot_le_lt. intros Hle. apply Qle_bool_iff in Hle. congruence.
  - intros H. destruct (Qle_bool b a) eqn:E; [|reflexivity].
    apply Qle_bool_iff in E. exfalso. exact (Qlt_not_le _ _ H E).
Qed.

Lemma not_Creative m : m <> Creative -> GameMode_eqb m Creative = false.
Proof. destruct m; [reflexivity|congruence]. Qed.

(** In survival mode [startMining] only touches the mining fields. *)
Lemma startMining_survival raycast s :
  gameMode s <> Creative ->
  chunks (startMining raycast s) = chunks s
  /\ modifiedBlocks (startMining raycast s) = modifiedBlocks s.
Proof.
  intros Hmode. unfold startMining.
  destruct (raycast s) as [hit|]; [|auto].
  destruct (targetOf hit) as [[bx by_] bz].
  destruct (negb _ && negb _); [|auto].
  cbn [gameMode set_breakingVisible set_miningProgress set_miningBlock set_isMining].
  rewrite (not_Creative _ Hmode).
  destruct (_ && negb false); auto.
Qed.

(** C8. Unbreakable guard. Outside creative mode, when the ray cast points
    at a block whose descriptor has a negative hardness, neither
    [startMining] nor [updateMining] changes the chunk store (hence no voxel
    buffer) or the modification overlay. *)
Theorem unbreakable_guard (raycast : GameEngine -> option Intersection)
    (s : GameEngine) (dt : Q) (hit : Intersection) (bx by_ bz b : Z)
    (p : BlockProp) (h : Q) :
  gameMode s <> Creative ->
  raycast s = Some hit ->
  targetOf hit = (bx, by_, bz) ->
  getBlock s bx by_ bz = b ->
  BLOCK_PROPS b = Some p ->
  hardness p = Some h ->
  (h < 0)%Q ->
  (chunks (startMining raycast s) = chunks s
   /\ modifiedBlocks (startMining raycast s) = modifiedBlocks s)
  /\ (chunks (updateMining raycast dt s) = chunks s
      /\ modifiedBlocks (updateMining raycast dt s) = modifiedBlocks s).
Proof.
  intros Hmode Hray Htarget Hb Hp Hh Hneg.
  split; [apply startMining_survival; exact Hmode|].
  unfold updateMining.
  destruct (isMining s); [|auto].
  destruct (miningBlock s) as [[[mx my] mz]|]; [|auto].
  rewrite Hray, Htarget.
  cbv zeta.
  match goal with
  | |- context [if ?c then set_miningProgress ?a ?t else s] =>
      set (s1 := if c then set_miningProgress a t else s)
  end.
  assert (Hc : chunks s1 = chunks s) by (subst s1; destruct (_ || _); reflexivity).
  assert (Hm : modifiedBlocks s1 = modifiedBlocks s) by (subst s1; destruct (_ || _); reflexivity).
  assert (Hg : gameMode s1 = gameMode s) by (subst s1; destruct (_ || _); reflexivity).
  assert (Hblock : getBlock s1 bx by_ bz = b).
  { rewrite <- Hb. unfold getBlock. rewrite Hc. reflexivity. }
  rewrite Hblock.
  destruct (b =? AIR); [simpl; auto|].
  assert (Hhard : hardnessOf b = h) by (unfold hardnessOf; rewrite Hp, Hh; reflexivity).
  rewrite Hhard, Hg, (not_Creative _ Hmode).
  apply Qltb_lt in Hneg. rewrite Hneg. simpl. auto.
Qed.

Lemma unbreakable_guard_witness :
  (chunks (startMining hitBedrock flatEngine) = chunks flatEngine
   /\ modifiedBlocks (startMining hitBedrock flatEngine) = modifiedBlocks flatEngine)
  /\ (chunks (updateMining hitBedrock 0.05 flatEngine) = chunks flatEngine
      /\ modifiedBlocks (updateMining hitBedrock 0.05 flatEngine)
         = modifiedBlocks flatEngine).
Proof.
  apply (unbreakable_guard hitBedrock flatEngine 0.05
           (mkIntersection (0.5, 1, 0.5)%Q (0, 1, 0)%Q) 0 0 0 BEDROCK
           (block "Bedrock" 0x222222 (-1)) (-1)%Q).
  - discriminate.
  - reflexivity.
  - reflexivity.
  - vm_compute. reflexivity.
  - reflexivity.
  - reflexivity.
  - reflexivity.
Defined.

(** Stone asks for a pickaxe; with a wooden axe in hand, whose descriptor
    carries the efficiency 2.0, the speed is not 2.0. *)
Lemma mining_speed_ignores_wrong_tool :
  (exists bp, BLOCK_PROPS STONE = Some bp /\ toolType bp = Some pickaxe)
  /\ (exists tp, BLOCK_PROPS WOODEN_AXE = Some tp /\ toolType tp = Some axe
                 /\ efficiency tp = Some 2.0%Q)
  /\ ~ (miningSpeed STONE (Some (mkItemStack WOODEN_AXE 1)) == 2.0)%Q.
Proof.
  split; [eexists; split; reflexivity|].
  split; [eexists; repeat split; reflexivity|].
  vm_compute. discriminate.
Qed.

(** C10. Mining speed. When the descriptor of the mined block names a
    required tool type and the held item's descriptor carries an efficiency
    other than 0, the speed is that efficiency if the held item's tool type
    is the required one, and 1.0 if it is not. *)
Theorem mining_speed_needs_matching_tool (b : Z) (item : ItemStack)
    (bp tp : BlockProp) (required : ToolType) (e : Q) :
  BLOCK_PROPS b = Some bp ->
  toolType bp = Some required ->
  BLOCK_PROPS (id item) = Some tp ->
  efficiency tp = Some e ->
  ~ (e == 0)%Q ->
  (toolType tp = Some required -> miningSpeed b (Some item) = e)
  /\ (toolType tp <> Some required -> miningSpeed b (Some item) = 1.0%Q).
Proof.
  intros Hbp Hreq Htp He Hnz. unfold miningSpeed. rewrite Hbp, Hreq, Htp, He.
  assert (Hz : Qeq_bool e 0 = false).
  { destruct (Qeq_bool e 0) eqn:E; [|reflexivity]. apply Qeq_bool_iff in E. contradiction. }
  split.
  - intros ->. destruct required; simpl; rewrite Hz; reflexivity.
  - intros Hne. destruct (toolType tp) as [t|]; [|reflexivity].
    destruct t, required; simpl; try reflexivity; congruence.
Qed.

Lemma mining_speed_needs_matching_tool_witness :
  (toolType (tool "Wooden Pickaxe" 0x8D6E63 pickaxe 2.0) = Some pickaxe ->
   miningSpeed STONE (Some (mkItemStack WOODEN_PICKAXE 1)) = 2.0%Q)
  /\ (toolType (tool "Wooden Pickaxe" 0x8D6E63 pickaxe 2.0) <> Some pickaxe ->
      miningSpeed STONE (Some (mkItemStack WOODEN_PICKAXE 1)) = 1.0%Q).
Proof.
  apply (mining_speed_needs_matching_tool STONE (mkItemStack WOODEN_PICKAXE 1)
           (tooled "Stone" 0x9e9e9e 1.5 pickaxe)
           (tool "Wooden Pickaxe" 0x8D6E63 pickaxe 2.0) pickaxe 2.0%Q).
  - reflexivity.
  - reflexivity.
  - reflexivity.
  - reflexivity.
  - vm_compute. discriminate.
Defined.
End Mining.

(** ** The overlay is applied last *)

Module Overlay.
Import Key Chunk Engine Spec KeyFacts NumFacts JSMapFacts TypedArrayFacts EngineFacts Examples.
Lemma applyModifications_fold cx cz data m :
  applyModifications cx cz data m = fold_left (applyEntry cx cz) m data.
Proof.
  unfold applyModifications. cbv zeta. revert data.
  induction m as [|[key val] m IH]; intros data; simpl; [reflexivity|].
  rewrite IH. reflexivity.
Qed.

Lemma applyEntry_key3 cx cz data x y z val :
  applyEntry cx cz data (key3 x y z, val) =
  if (x >=? cx * CHUNK_SIZE) && (x <? (cx + 1) * CHUNK_SIZE)
     && (z >=? cz * CHUNK_SIZE) && (z <? (cz + 1) * CHUNK_SIZE)
     && (y >=? 0) && (y <? CHUNK_HEIGHT)
  then TypedArray.set_u8 data (localCoord x + localCoord z * CHUNK_SIZE + y * 256) val
  else data.
Proof.
  unfold applyEntry. destruct (parse_key3 x y z) as (-> & -> & ->). reflexivity.
Qed.

Lemma applyEntry_length cx cz data e :
  TypedArray.length (applyEntry cx cz data e) = TypedArray.length data.
Proof.
  destruct e as [key val]. unfold applyEntry. cbv zeta.
  repeat match goal with
  | |- context [match ?o with Some _ => _ | None => _ end] => destruct o
  | |- context [if ?b then _ else _] => destruct b
  end; auto using length_set_u8.
Qed.

Lemma applyModifications_length cx cz data m :
  TypedArray.length (applyModifications cx cz data m) = TypedArray.length data.
Proof.
  rewrite applyModifications_fold. revert data.
  induction m as [|e m IH]; intros data; simpl; [reflexivity|].
  rewrite IH. apply applyEntry_length.
Qed.

(** Two coordinates of one chunk that share a cell are the same. *)
Lemma cell_inj cx cz x y z x' y' z' :
  cx * 16 <= x < (cx + 1) * 16 -> cz * 16 <= z < (cz + 1) * 16 -> 0 <= y < 256 ->
  cx * 16 <= x' < (cx + 1) * 16 -> cz * 16 <= z' < (cz + 1) * 16 -> 0 <= y' < 256 ->
  localCoord x + localCoord z * CHUNK_SIZE + y * 256
  = localCoord x' + localCoord z' * CHUNK_SIZE + y' * 256 ->
  x = x' /\ y = y' /\ z = z'.
Proof.
  intros Hx Hz Hy Hx' Hz' Hy'.
  assert (Hl : forall v c, c * 16 <= v < (c + 1) * 16 -> localCoord v = v - c * 16).
  { intros v c Hv. rewrite localCoord_mod. symmetry.
    apply (Z.mod_unique_pos v 16 c); lia. }
  rewrite (Hl x cx), (Hl z cz), (Hl x' cx), (Hl z' cz) by assumption.
  unfold CHUNK_SIZE. lia.
Qed.

Lemma in_bounds_spec cx cz x y z :
  (x >=? cx * CHUNK_SIZE) && (x <? (cx + 1) * CHUNK_SIZE)
  && (z >=? cz * CHUNK_SIZE) && (z <? (cz + 1) * CHUNK_SIZE)
  && (y >=? 0) && (y <? CHUNK_HEIGHT) = true
  <-> (cx * 16 <= x < (cx + 1) * 16 /\ cz * 16 <= z < (cz + 1) * 16 /\ 0 <= y < 256).
Proof. unfold CHUNK_SIZE, CHUNK_HEIGHT. rewrite !andb_true_iff. lia. Qed.

Lemma cell_in_range x y z :
  0 <= y < 256 ->
  0 <= localCoord x + localCoord z * CHUNK_SIZE + y * 256
    < CHUNK_SIZE * CHUNK_SIZE * CHUNK_HEIGHT.
Proof.
  intros Hy. pose proof (localCoord_range x). pose proof (localCoord_range z).
  unfold CHUNK_SIZE, CHUNK_HEIGHT. lia.
Qed.

(** The last write to a cell by the overlay is the one of its entry. *)
Lemma applyModifications_entry cx cz data m x y z val :
  sized data -> overlayWf m -> In (key3 x y z, val) m ->
  cx * 16 <= x < (cx + 1) * 16 -> cz * 16 <= z < (cz + 1) * 16 -> 0 <= y < 256 ->
  0 <= val < 256 ->
  TypedArray.get (applyModifications cx cz data m)
    (localCoord x + localCoord z * CHUNK_SIZE + y * 256) = val.
Proof.
  intros Hsz [Hnd Hcanon] Hin Hx Hz Hy Hval.
  rewrite applyModifications_fold.
  apply in_split in Hin as (m1 & m2 & ->).
  rewrite fold_left_app. cbn [fold_left].
  set (d1 := fold_left (applyEntry cx cz) m1 data).
  assert (Hd1 : sized d1).
  { unfold sized. subst d1. rewrite <- applyModifications_fold, applyModifications_length.
    exact Hsz. }
  unfold JSMap.keys in Hnd, Hcanon. rewrite List.map_app in Hnd, Hcanon. cbn [List.map fst] in Hnd, Hcanon.
  apply List.NoDup_remove_2 in Hnd.
  apply Forall_app in Hcanon as [_ Hcanon]. apply Forall_cons in Hcanon as [_ Hcanon].
  assert (Hfresh : ~ In (key3 x y z) (List.map fst m2)).
  { intros H. apply Hnd, in_or_app. right. exact H. }
  clear Hnd.
  assert (Hstart : TypedArray.get (applyEntry cx cz d1 (key3 x y z, val))
            (localCoord x + localCoord z * CHUNK_SIZE + y * 256) = val
          /\ sized (applyEntry cx cz d1 (key3 x y z, val))).
  { split; [|unfold sized; rewrite applyEntry_length; exact Hd1].
    rewrite applyEntry_key3.
    rewrite (proj2 (in_bounds_spec cx cz x y z)) by auto.
    apply get_set_u8_eq; [|exact Hval]. rewrite Hd1. apply cell_in_range. exact Hy. }
  revert Hstart. generalize (applyEntry cx cz d1 (key3 x y z, val)). clear d1 Hd1.
  induction m2 as [|[k v] m2 IH]; intros d [Hget Hd]; cbn [fold_left]; [exact Hget|].
  apply Forall_cons in Hcanon as [(x' & y' & z' & Hk) Hcanon]. cbn [fst] in Hk. subst k.
  apply IH; [exact Hcanon|intros H; apply Hfresh; right; exact H|].
  split; [|unfold sized; rewrite applyEntry_length; exact Hd].
  rewrite applyEntry_key3.
  destruct (_ && _) eqn:Eb; [|exact Hget].
  apply in_bounds_spec in Eb as (Hx' & Hz' & Hy').
  rewrite get_set_u8_ne; [exact Hget|].
  intros Heq. apply (cell_inj cx cz) in Heq as (-> & -> & ->); try assumption.
  apply Hfresh. left. reflexivity.
Qed.

Section Sizes.
Variable Math_sin : Q -> Q.

Lemma leafAt_length d idx l : TypedArray.length (leafAt d idx l) = TypedArray.length d.
Proof. unfold leafAt. destruct (_ =? _); auto using length_set_u8. Qed.

Lemma for_range_length lo hi (body : Z -> Uint8Array -> Uint8Array) d :
  (forall i d', TypedArray.length (body i d') = TypedArray.length d') ->
  TypedArray.length (for_range lo hi body d) = TypedArray.length d.
Proof.
  intros H. apply (for_range_inv (fun d' => TypedArray.length d' = TypedArray.length d));
    [reflexivity|]. intros i d' _ <-. apply H.
Qed.

Lemma for_range_length2 {R} lo hi (body : Z -> Uint8Array * R -> Uint8Array * R) st :
  (forall i st', TypedArray.length (fst (body i st')) = TypedArray.length (fst st')) ->
  TypedArray.length (fst (for_range lo hi body st)) = TypedArray.length (fst st).
Proof.
  intros H.
  apply (for_range_inv (fun st' => TypedArray.length (fst st') = TypedArray.length (fst st)));
    [reflexivity|]. intros i st' _ <-. apply H.
Qed.

Lemma makeTree_length d x z y t l h rnd :
  TypedArray.length (fst (makeTree d x z y t l h rnd)) = TypedArray.length d.
Proof.
  unfold makeTree. destruct (_ || _); [reflexivity|].
  rewrite for_range_length2.
  - cbn [fst]. apply for_range_length. intros. apply length_set_u8.
  - intros ly st. cbv zeta. apply for_range_length2. intros lx st'.
    apply for_range_length2. intros lz [d' rnd'].
    destruct (_ && _); [|apply leafAt_length].
    destruct (negb _); [reflexivity|].
    destruct (Random.next rnd') as [u r]. destruct (u >? 0.5)%js; [reflexivity|].
    apply leafAt_length.
Qed.

Lemma makeSpruceTree_length d x z y :
  TypedArray.length (makeSpruceTree d x z y) = TypedArray.length d.
Proof.
  unfold makeSpruceTree. destruct (_ || _); [reflexivity|]. cbv zeta.
  rewrite for_range_length.
  - rewrite length_set_u8. apply for_range_length. intros. apply length_set_u8.
  - intros i d'. apply for_range_length. intros lx d''. apply for_range_length.
    intros lz d3. destruct (_ && _); [reflexivity|apply leafAt_length].
Qed.

Lemma makeAcaciaTree_length d x z y :
  TypedArray.length (makeAcaciaTree d x z y) = TypedArray.length d.
Proof.
  unfold makeAcaciaTree. destruct (_ || _); [reflexivity|]. cbv zeta.
  rewrite for_range_length.
  - apply for_range_length. intros. apply length_set_u8.
  - intros lx d'. apply for_range_length. intros lz d''.
    destruct (_ && _); [reflexivity|apply length_set_u8].
Qed.

Lemma flatFill_length d : TypedArray.length (flatFill d) = TypedArray.length d.
Proof.
  unfold flatFill. apply for_range_length. intros x d1. apply for_range_length.
  intros z d2. apply for_range_length. intros y d3. cbv zeta.
  repeat match goal with |- context [if ?b then _ else _] => destruct b end;
    apply length_set_u8.
Qed.

Lemma genColumn_length cm cx cz wt x z st :
  TypedArray.length (g_data (genColumn cm cx cz wt x z st)) = TypedArray.length (g_data st).
Proof.
  unfold genColumn. cbv zeta.
  destruct (classifyBiome _ _ _ _) as [[[biomeId surface] sub] rnd]. cbn [g_data].
  apply for_range_length. intros. apply length_set_u8.
Qed.

Lemma decorateColumn_length cx cz seed x z st :
  TypedArray.length (g_data (decorateColumn Math_sin cx cz seed x z st))
  = TypedArray.length (g_data st).
Proof.
  unfold decorateColumn. cbv zeta.
  repeat match goal with
  | |- context [if ?b then _ else _] => destruct b
  | |- context [let '(_, _) := makeTree ?d ?x ?z ?y ?t ?l ?h ?r in _] =>
      let H := fresh "H" in
      pose proof (makeTree_length d x z y t l h r) as H;
      destruct (makeTree d x z y t l h r); cbn [fst] in H
  end; cbn [g_data];
  auto using length_set_u8, makeSpruceTree_length, makeAcaciaTree_length.
Qed.

Lemma columns_length (f : Z -> Z -> GenState -> GenState) st0 :
  (forall x z st', TypedArray.length (g_data (f x z st')) = TypedArray.length (g_data st')) ->
  TypedArray.length (g_data (for_range 0 CHUNK_SIZE (fun x st =>
     for_range 0 CHUNK_SIZE (fun z st => f x z st) st) st0))
  = TypedArray.length (g_data st0).
Proof.
  intros Hf.
  apply (for_range_inv (fun st' => TypedArray.length (g_data st') = TypedArray.length (g_data st0)));
    [reflexivity|]. intros x st1 _ <-.
  apply (for_range_inv (fun st' => TypedArray.length (g_data st') = TypedArray.length (g_data st1)));
    [reflexivity|]. intros z st2 _ <-. apply Hf.
Qed.

(** Whatever the mode, the overlay is applied last, to a full buffer. *)
Lemma generateChunkData_shape cm cx cz seed wt m rnd :
  exists d rest,
    sized d
    /\ generateChunkData Math_sin cm cx cz seed wt m rnd
       = (applyModifications cx cz d m, rest).
Proof.
  unfold generateChunkData. cbv zeta.
  destruct wt; (eexists; eexists; split; [|reflexivity]); unfold sized.
  - rewrite (columns_length (decorateColumn Math_sin cx cz seed))
      by (intros; apply decorateColumn_length).
    rewrite (columns_length (genColumn cm cx cz Default))
      by (intros; apply genColumn_length).
    reflexivity.
  - rewrite flatFill_length. reflexivity.
  - rewrite (columns_length (decorateColumn Math_sin cx cz seed))
      by (intros; apply decorateColumn_length).
    rewrite (columns_length (genColumn cm cx cz Mountains))
      by (intros; apply genColumn_length).
    reflexivity.
Qed.

Lemma generateChunkData_sized cm cx cz seed wt m rnd :
  sized (fst (generateChunkData Math_sin cm cx cz seed wt m rnd)).
Proof.
  destruct (generateChunkData_shape cm cx cz seed wt m rnd) as (d & rest & Hd & ->).
  cbn [fst]. unfold sized. rewrite applyModifications_length. exact Hd.
Qed.

(** C3. Overlay precedence: for an overlay as [setBlock] builds it, every
    entry whose coordinate lies in the horizontal extent of the generated
    chunk and in the vertical bound [0, 256) is what the buffer returned by
    [generateChunkData] holds at that cell, in every world type ([Flat]
    included) and whatever terrain, caves and decoration were written
    there. *)
Theorem overlay_precedence (cm : ChunkManager) (cx cz seed : Z)
    (worldType : WorldType) (modifiedBlocks : JSMap.t Z) (rnd : Random.Source)
    (gx gy gz val : Z) :
  overlayWf modifiedBlocks ->
  In (key3 gx gy gz, val) modifiedBlocks ->
  isBlockType val ->
  cx * CHUNK_SIZE <= gx < (cx + 1) * CHUNK_SIZE ->
  cz * CHUNK_SIZE <= gz < (cz + 1) * CHUNK_SIZE ->
  0 <= gy < CHUNK_HEIGHT ->
  TypedArray.get
    (fst (generateChunkData Math_sin cm cx cz seed worldType modifiedBlocks rnd))
    (cellIndex (localCoord gx) gy (localCoord gz)) = val.
Proof.
  intros Hwf Hin Hval Hx Hz Hy. unfold isBlockType in Hval.
  unfold CHUNK_SIZE, CHUNK_HEIGHT in Hx, Hz, Hy.
  destruct (generateChunkData_shape cm cx cz seed worldType modifiedBlocks rnd)
    as (d & rest & Hd & ->).
  cbn [fst]. unfold cellIndex. apply applyModifications_entry; auto; lia.
Qed.

End Sizes.

(** The overlays the engine builds are well formed. *)
Lemma overlayWf_empty : overlayWf [].
Proof. split; constructor. Qed.

Lemma overlayWf_set m x y z id :
  overlayWf m -> overlayWf (JSMap.set m (key3 x y z) id).
Proof.
  intros [Hnd Hc]. split; [apply NoDup_keys_set; exact Hnd|].
  rewrite keys_set. destruct (JSMap.has m (key3 x y z)); [exact Hc|].
  apply Forall_app. split; [exact Hc|]. constructor; [eauto|constructor].
Qed.

Lemma setBlock_overlayWf s x y z id :
  overlayWf (modifiedBlocks s) -> overlayWf (modifiedBlocks (setBlock x y z id s)).
Proof.
  intros H. rewrite setBlock_modifiedBlocks.
  destruct (JSMap.get _ _); [apply overlayWf_set|]; exact H.
Qed.

Lemma overlay_precedence_witness :
  TypedArray.get
    (fst (generateChunkData noSin stillNoise 0 0 0 Flat wetOverlay (Random.constant 0.5)))
    (cellIndex (localCoord 5) 5 (localCoord 5)) = WATER
  /\ TypedArray.get
       (fst (generateChunkData halfSin warmNoise 0 0 0 Default wetOverlay lowDraws))
       (cellIndex (localCoord 5) 5 (localCoord 5)) = WATER.
Proof.
  assert (Hwf : overlayWf wetOverlay).
  { apply (overlayWf_set [] 5 5 5 WATER). exact overlayWf_empty. }
  split.
  - apply (overlay_precedence noSin stillNoise 0 0 0 Flat wetOverlay
             (Random.constant 0.5) 5 5 5 WATER).
    + exact Hwf.
    + left. reflexivity.
    + unfold isBlockType, WATER. lia.
    + unfold CHUNK_SIZE. lia.
    + unfold CHUNK_SIZE. lia.
    + unfold CHUNK_HEIGHT. lia.
  - apply (overlay_precedence halfSin warmNoise 0 0 0 Default wetOverlay lowDraws
             5 5 5 WATER).
    + exact Hwf.
    + left. reflexivity.
    + unfold isBlockType, WATER. lia.
    + unfold CHUNK_SIZE. lia.
    + unfold CHUNK_SIZE. lia.
    + unfold CHUNK_HEIGHT. lia.
Defined.

End Overlay.

(** ** The fluid queue and its membership set *)

Module FluidQueue.
Import Key Chunk Engine Spec KeyFacts NumFacts JSMapFacts TypedArrayFacts EngineFacts Examples.
Global Instance coordKey_inj : Inj (=) (=) coordKey.
Proof.
  intros [[x y] z] [[x' y'] z'] H. simpl in H.
  apply key3_inj in H as (-> & -> & ->). reflexivity.
Qed.

Lemma queueInv_ext s s' : queueOf s = queueOf s' -> queueInv s -> queueInv s'.
Proof. unfold queueOf, queueInv. intros [= <- <-]. auto. Qed.

Lemma setBlock_queueOf x y z id s : queueOf (setBlock x y z id s) = queueOf s.
Proof.
  pose proof (setBlock_rest x y z id s) as H. unfold sameRest in H.
  unfold queueOf. f_equal; tauto.
Qed.

Lemma schedule_inv x y z s : queueInv s -> queueInv (scheduleFluidUpdate x y z s).
Proof.
  intros [Hnd Hset]. unfold scheduleFluidUpdate.
  destruct (decide (key3 x y z ∈ fluidQueueSet s)) as [Hin|Hnin]; [split; assumption|].
  split; simpl.
  - apply NoDup_app. split; [exact Hnd|]. split; [|apply NoDup_singleton].
    intros c Hc Hc'. apply list_elem_of_singleton in Hc'. subst c.
    apply Hnin. rewrite Hset. apply elem_of_list_to_set, list_elem_of_fmap.
    exists (x, y, z). split; [reflexivity|exact Hc].
  - rewrite Hset, fmap_app, list_to_set_app_L. simpl.
    rewrite union_empty_r_L. apply (comm_L (∪)).
Qed.

Lemma schedule_appended x y z s : appended s (scheduleFluidUpdate x y z s).
Proof.
  unfold scheduleFluidUpdate, appended. destruct (decide _).
  - exists []. rewrite app_nil_r. reflexivity.
  - exists [(x, y, z)]. reflexivity.
Qed.

Lemma appended_refl s : appended s s.
Proof. exists []. rewrite app_nil_r. reflexivity. Qed.

Lemma appended_trans s1 s2 s3 : appended s1 s2 -> appended s2 s3 -> appended s1 s3.
Proof.
  intros [a Ha] [b Hb]. exists (a ++ b). rewrite Hb, Ha, app_assoc. reflexivity.
Qed.

Lemma appended_ext s s' t : fluidQueue s = fluidQueue s' -> appended s' t -> appended s t.
Proof. unfold appended. intros ->. auto. Qed.

Lemma setBlock_fluidQueue x y z id s : fluidQueue (setBlock x y z id s) = fluidQueue s.
Proof. pose proof (setBlock_queueOf x y z id s) as H. injection H. auto. Qed.

(** Writing a block and scheduling it, as the flow rules do. *)
Lemma write_schedule_inv x y z id x' y' z' s :
  queueInv s -> queueInv (scheduleFluidUpdate x' y' z' (setBlock x y z id s)).
Proof.
  intros H. apply schedule_inv. apply (queueInv_ext s); [|exact H].
  symmetry. apply setBlock_queueOf.
Qed.

Lemma write_schedule_appended x y z id x' y' z' s :
  appended s (scheduleFluidUpdate x' y' z' (setBlock x y z id s)).
Proof.
  eapply appended_ext; [|apply schedule_appended]. symmetry. apply setBlock_fluidQueue.
Qed.

Lemma flowDown_inv x y z s : queueInv s -> queueInv (flowDown x y z s).
Proof.
  intros H. unfold flowDown.
  repeat match goal with |- context [if ?b then _ else _] => destruct b end;
    auto using write_schedule_inv.
Qed.

Lemma flowDown_appended x y z s : appended s (flowDown x y z s).
Proof.
  unfold flowDown.
  repeat match goal with |- context [if ?b then _ else _] => destruct b end;
    auto using write_schedule_appended, appended_refl.
Qed.

Lemma flowSideways_spec x y z s :
  (queueInv s -> queueInv (flowSideways x y z s)) /\ appended s (flowSideways x y z s).
Proof.
  unfold flowSideways. cbv zeta.
  destruct (_ && _); [|split; auto using appended_refl].
  generalize [(1, 0); (-1, 0); (0, 1); (0, -1)]. intros l. revert s.
  induction l as [|[dx dz] l IH]; intros s; simpl; [split; auto using appended_refl|].
  destruct (_ || _).
  - destruct (IH (scheduleFluidUpdate (x + dx) y (z + dz)
                    (setBlock (x + dx) y (z + dz) FLOWING_WATER s))) as [IH1 IH2].
    split.
    + intros H. apply IH1, write_schedule_inv, H.
    + eapply appended_trans; [apply write_schedule_appended|exact IH2].
  - apply IH.
Qed.

Lemma fluidCell_spec c s :
  (queueInv s -> queueInv (fluidCell c s)) /\ appended s (fluidCell c s).
Proof.
  destruct c as [[x y] z]. unfold fluidCell. cbv zeta.
  destruct (_ || _); [|split; auto using appended_refl].
  destruct (_ =? WATER).
  - destruct (flowSideways_spec x y z (flowDown x y z s)) as [H1 H2]. split.
    + intros H. apply H1, flowDown_inv, H.
    + eapply appended_trans; [apply flowDown_appended|exact H2].
  - split; [apply flowDown_inv|apply flowDown_appended].
Qed.

Lemma dequeue_inv c rest s :
  fluidQueue s = c :: rest -> queueInv s ->
  queueInv (set_fluidQueueSet (fluidQueueSet (set_fluidQueue rest s) ∖ {[coordKey c]})
              (set_fluidQueue rest s)).
Proof.
  intros Hq [Hnd Hset]. rewrite Hq in Hnd, Hset.
  apply NoDup_cons in Hnd as [Hc Hnd].
  split; simpl; [exact Hnd|].
  rewrite Hset, fmap_cons, list_to_set_cons.
  assert (coordKey c ∉ (list_to_set (coordKey <$> rest) : gset string)).
  { rewrite elem_of_list_to_set, list_elem_of_fmap. intros (c' & Heq & Hin).
    apply (inj coordKey) in Heq. subst c'. contradiction. }
  rewrite difference_union_distr_l_L, difference_diag_L, union_empty_l_L.
  apply difference_disjoint_L, disjoint_singleton_r. assumption.
Qed.

Lemma fluidStep_inv s : queueInv s -> queueInv (fluidStep s).
Proof.
  intros H. unfold fluidStep. destruct (fluidQueue s) as [|c rest] eqn:Hq; [exact H|].
  apply fluidCell_spec, dequeue_inv; assumption.
Qed.

(** First in, first out: a turn takes the oldest entry, and whatever it
    schedules goes behind the entries that were already waiting. *)
Lemma fluidStep_fifo s c rest :
  fluidQueue s = c :: rest -> exists added, fluidQueue (fluidStep s) = rest ++ added.
Proof.
  intros Hq. unfold fluidStep. rewrite Hq.
  destruct (fluidCell_spec c
    (set_fluidQueueSet (fluidQueueSet (set_fluidQueue rest s) ∖ {[coordKey c]})
       (set_fluidQueue rest s))) as [_ [added Ha]].
  exists added. exact Ha.
Qed.

Lemma fluidLoop_inv n s : queueInv s -> queueInv (fluidLoop n s).
Proof.
  revert s. induction n as [|n IH]; intros s H; simpl; [exact H|].
  destruct (fluidQueue s) eqn:Hq; [exact H|]. apply IH, fluidStep_inv, H.
Qed.

(** C9. Fluid queue. From a state in which the queue holds no coordinate
    twice and the membership set holds exactly the keys of the queued
    coordinates, that holds again after [scheduleFluidUpdate] (which adds
    the coordinate at the back or changes nothing), after one turn of the
    loop of [processFluids] and after the whole call; and a turn handles the
    entry at the front, leaving the entries behind it in their order with
    the new ones after them. *)
Theorem fluid_queue_invariant (s : GameEngine) :
  queueInv s ->
  (forall x y z,
      queueInv (scheduleFluidUpdate x y z s)
      /\ (fluidQueue (scheduleFluidUpdate x y z s) = fluidQueue s
          \/ fluidQueue (scheduleFluidUpdate x y z s) = fluidQueue s ++ [(x, y, z)]))
  /\ queueInv (fluidStep s)
  /\ queueInv (processFluids s)
  /\ (forall c rest, fluidQueue s = c :: rest ->
        fluidStep s
        = fluidCell c (set_fluidQueueSet (fluidQueueSet s ∖ {[ coordKey c ]})
                         (set_fluidQueue rest s))
        /\ exists added, fluidQueue (fluidStep s) = rest ++ added).
Proof.
  intros H. split; [|split; [|split]].
  - intros x y z. split; [apply schedule_inv, H|].
    unfold scheduleFluidUpdate. destruct (decide _); [left|right]; reflexivity.
  - apply fluidStep_inv, H.
  - apply fluidLoop_inv, H.
  - intros c rest Hq. split; [|apply (fluidStep_fifo s c rest Hq)].
    unfold fluidStep. rewrite Hq. reflexivity.
Qed.

Lemma fluid_queue_invariant_witness :
  (forall x y z,
      queueInv (scheduleFluidUpdate x y z wetEngine)
      /\ (fluidQueue (scheduleFluidUpdate x y z wetEngine) = fluidQueue wetEngine
          \/ fluidQueue (scheduleFluidUpdate x y z wetEngine)
             = fluidQueue wetEngine ++ [(x, y, z)]))
  /\ queueInv (fluidStep wetEngine)
  /\ queueInv (processFluids wetEngine)
  /\ (forall c rest, fluidQueue wetEngine = c :: rest ->
        fluidStep wetEngine
        = fluidCell c (set_fluidQueueSet (fluidQueueSet wetEngine ∖ {[ coordKey c ]})
                         (set_fluidQueue rest wetEngine))
        /\ exists added, fluidQueue (fluidStep wetEngine) = rest ++ added).
Proof.
  apply (fluid_queue_invariant wetEngine).
  split; [apply NoDup_singleton|].
  change (({[ key3 5 5 5 ]} : gset string) = {[ key3 5 5 5 ]} ∪ ∅).
  symmetry. apply union_empty_r_L.
Defined.

End FluidQueue.

(** ** Chunk streaming *)

Module Streaming.
Import Key Chunk Engine Spec KeyFacts NumFacts JSMapFacts TypedArrayFacts EngineFacts Examples.
Section Pass.
Variable Math_sin : Q -> Q.

Local Abbreviation loadAll := (Spec.loadAll Math_sin).

Lemma for_range_establish {S} (Q : S -> Prop) lo hi k (body : Z -> S -> S) (s : S) :
  lo <= k < hi ->
  (forall s', Q (body k s')) ->
  (forall i s', Q s' -> Q (body i s')) ->
  Q (for_range lo hi body s).
Proof.
  intros Hk Hest Hkeep.
  rewrite (for_range_app lo k hi) by lia.
  rewrite (for_range_step k hi) by lia.
  apply for_range_inv; [apply Hest|]. intros i s' _. apply Hkeep.
Qed.

Lemma loadChunk_has_self cx cz s :
  JSMap.has (chunks (loadChunk Math_sin cx cz s)) (key2 cx cz) = true.
Proof.
  unfold loadChunk. destruct (JSMap.has (chunks s) (key2 cx cz)) eqn:E; simpl.
  - exact E.
  - apply has_set_eq.
Qed.

Lemma loadChunk_has_mono cx cz s k :
  JSMap.has (chunks s) k = true ->
  JSMap.has (chunks (loadChunk Math_sin cx cz s)) k = true.
Proof.
  intros H. unfold loadChunk. destruct (JSMap.has (chunks s) (key2 cx cz)) eqn:E; simpl.
  - exact H.
  - destruct (String.eqb_spec (key2 cx cz) k) as [<-|Hne]; [congruence|].
    rewrite has_set_ne by exact Hne. exact H.
Qed.

Lemma updateWorldChunks_unfold s :
  updateWorldChunks Math_sin s =
  let pcx := fst (playerChunk s) in
  let pcz := snd (playerChunk s) in
  let dist := renderDistance (settings s) in
  evictAll pcx pcz dist (JSMap.keys (chunks (loadAll pcx pcz dist s)))
    (loadAll pcx pcz dist s).
Proof. unfold updateWorldChunks. destruct (playerChunk s). reflexivity. Qed.

Lemma loadAll_has pcx pcz dist s x z :
  - dist <= x <= dist -> - dist <= z <= dist ->
  JSMap.has (chunks (loadAll pcx pcz dist s)) (key2 (pcx + x) (pcz + z)) = true.
Proof.
  intros Hx Hz. unfold loadAll.
  apply (for_range_establish
           (fun s => JSMap.has (chunks s) (key2 (pcx + x) (pcz + z)) = true)
           _ _ x); [lia| |].
  - intros s'. apply (for_range_establish
           (fun s => JSMap.has (chunks s) (key2 (pcx + x) (pcz + z)) = true)
           _ _ z); [lia| |].
    + intros s''. apply loadChunk_has_self.
    + intros i s''. apply loadChunk_has_mono.
  - intros i s' H. apply for_range_inv; [exact H|].
    intros j s'' _. apply loadChunk_has_mono.
Qed.

Lemma evictChunk_chunks pcx pcz dist key s :
  chunks (evictChunk pcx pcz dist key s) =
  if far pcx pcz dist key then JSMap.delete (chunks s) key else chunks s.
Proof.
  unfold evictChunk, far. destruct (parse2 key) as [cx cz].
  destruct (_ || _); reflexivity.
Qed.

Lemma evictAll_keeps pcx pcz dist l s k :
  far pcx pcz dist k = false ->
  JSMap.has (chunks (evictAll pcx pcz dist l s)) k = JSMap.has (chunks s) k.
Proof.
  intros Hk. unfold evictAll. revert s.
  induction l as [|a l IH]; intros s; simpl; [reflexivity|].
  rewrite IH, evictChunk_chunks.
  destruct (far pcx pcz dist a) eqn:Ea; [|reflexivity].
  apply has_delete_ne. intros ->. congruence.
Qed.

Lemma evictAll_removes pcx pcz dist l s k :
  far pcx pcz dist k = true ->
  In k l \/ JSMap.has (chunks s) k = false ->
  JSMap.has (chunks (evictAll pcx pcz dist l s)) k = false.
Proof.
  intros Hk. unfold evictAll. revert s.
  induction l as [|a l IH]; intros s H; simpl.
  - destruct H as [[]|H]. exact H.
  - apply IH. rewrite evictChunk_chunks.
    destruct (String.eqb_spec a k) as [->|Hne].
    + right. rewrite Hk. apply has_delete_eq.
    + destruct H as [[H|H]|H]; [congruence|left; exact H|right].
      destruct (far pcx pcz dist a); [|exact H].
      rewrite has_delete_ne by exact Hne. exact H.
Qed.

Lemma far_key2 pcx pcz dist cx cz :
  far pcx pcz dist (key2 cx cz) =
  (Z.abs (cx - pcx) >? dist + 2) || (Z.abs (cz - pcz) >? dist + 2).
Proof. unfold far. rewrite parse_key2. reflexivity. Qed.

(** C7. Streaming. After a pass of [updateWorldChunks] every chunk within
    the render distance of the player's chunk, in both directions, is
    resident, and no chunk whose distance in either direction exceeds the
    render distance plus 2 is; and a pass from an empty store with the
    player in chunk (0, 0) and render distance 2 leaves exactly the 25
    chunks of [-2, 2] x [-2, 2]. *)
Theorem streaming_pass (s : GameEngine) :
  let pcx := fst (playerChunk s) in
  let pcz := snd (playerChunk s) in
  let radius := renderDistance (settings s) in
  let s' := updateWorldChunks Math_sin s in
  (forall cx cz,
      Z.abs (cx - pcx) <= radius -> Z.abs (cz - pcz) <= radius ->
      JSMap.has (chunks s') (key2 cx cz) = true)
  /\ (forall cx cz,
      Z.max (Z.abs (cx - pcx)) (Z.abs (cz - pcz)) > radius + 2 ->
      JSMap.has (chunks s') (key2 cx cz) = false)
  /\ (chunks s = [] -> playerChunk s = (0, 0) -> radius = 2 ->
      JSMap.keys (chunks s') = square2
      /\ JSMap.size (chunks s') = 25%nat
      /\ (forall cx cz, JSMap.has (chunks s') (key2 cx cz) = true
                        <-> (-2 <= cx <= 2 /\ -2 <= cz <= 2))).
Proof.
  cbv zeta. rewrite updateWorldChunks_unfold. cbv zeta.
  set (pcx := fst (playerChunk s)). set (pcz := snd (playerChunk s)).
  set (dist := renderDistance (settings s)).
  split; [|split].
  - intros cx cz Hx Hz.
    rewrite evictAll_keeps.
    + replace cx with (pcx + (cx - pcx)) by lia.
      replace cz with (pcz + (cz - pcz)) by lia.
      apply loadAll_has; lia.
    + rewrite far_key2. apply orb_false_iff. split; lia.
  - intros cx cz H. apply evictAll_removes.
    + rewrite far_key2. apply orb_true_iff. lia.
    + destruct (JSMap.has (chunks (loadAll pcx pcz dist s)) (key2 cx cz)) eqn:E;
        [left; apply has_In_keys; exact E|right; reflexivity].
  - intros Hempty Hpc Hr.
    assert (Hkeys : JSMap.keys (chunks (evictAll pcx pcz dist
               (JSMap.keys (chunks (loadAll pcx pcz dist s)))
               (loadAll pcx pcz dist s))) = square2).
    { subst pcx pcz dist. rewrite Hpc, Hr. clear Hpc Hr.
      destruct s. cbn [chunks] in Hempty. subst. lazy. reflexivity. }
    split; [exact Hkeys|]. split.
    + pose proof (f_equal (@List.length string) Hkeys) as Hlen.
      unfold JSMap.keys in Hlen. rewrite List.length_map in Hlen. exact Hlen.
    + intros cx cz. rewrite has_In_keys, Hkeys. unfold square2.
      rewrite in_flat_map. split.
      * intros (x & Hx%In_range & Hin). apply in_map_iff in Hin as (z & Heq & Hz%In_range).
        apply key2_inj in Heq as [-> ->]. lia.
      * intros [Hx Hz]. exists cx. split; [apply In_range; lia|].
        apply in_map_iff. exists cz. split; [reflexivity|apply In_range; lia].
Qed.

End Pass.

Lemma streaming_pass_witness :
  JSMap.keys (chunks (updateWorldChunks noSin emptyEngine)) = square2
  /\ JSMap.size (chunks (updateWorldChunks noSin emptyEngine)) = 25%nat
  /\ JSMap.has (chunks (updateWorldChunks noSin emptyEngine)) (key2 (-2) 2) = true
  /\ JSMap.has (chunks (updateWorldChunks noSin emptyEngine)) (key2 5 0) = false.
Proof.
  pose proof (streaming_pass noSin emptyEngine) as H. cbv zeta in H.
  destruct H as (Hin & Hout & Hexact).
  destruct (Hexact eq_refl eq_refl eq_refl) as (Hkeys & Hsize & _).
  split; [exact Hkeys|]. split; [exact Hsize|]. split.
  - apply Hin; vm_compute; discriminate.
  - apply Hout. vm_compute. reflexivity.
Defined.

End Streaming.

(** ** Faces of the mesh *)

Module MeshFacts.
Import Key Chunk Engine Spec KeyFacts NumFacts JSMapFacts TypedArrayFacts EngineFacts Examples.

Lemma BLOCK_PROPS_keys_eq : BLOCK_PROPS_keys = range 1 48.
Proof. vm_compute. reflexivity. Qed.

Lemma cubeRows : forallb cubeRow (range 1 48) = true.
Proof. vm_compute. reflexivity. Qed.

Lemma opaque_row b p :
  1 <= b < 48 -> BLOCK_PROPS b = Some p -> isTransparent b = false ->
  truthy (cross p) = false /\ (b =? TORCH) = false /\ isWater b = false.
Proof.
  intros Hb Hp Ht. pose proof cubeRows as H. rewrite forallb_forall in H.
  specialize (H b (proj2 (In_range 1 48 b) Hb)). unfold cubeRow in H.
  rewrite Hp, Ht in H. simpl in H.
  apply andb_prop in H as [H H3]. apply andb_prop in H as [H1 H2].
  rewrite negb_true_iff in H1, H2, H3. auto.
Qed.

Lemma row_exists b : 1 <= b < 48 -> exists p, BLOCK_PROPS b = Some p.
Proof.
  intros Hb. pose proof cubeRows as H. rewrite forallb_forall in H.
  specialize (H b (proj2 (In_range 1 48 b) Hb)). unfold cubeRow in H.
  destruct (BLOCK_PROPS b) as [p|]; [eauto|discriminate].
Qed.

Section Mesh.
Variable chunkData : Uint8Array.
Variable smoothLighting : bool.
Variable getBlock : Z -> Z -> Z -> Z.
Variables cx cz : Z.

Local Abbreviation addFace := (Chunk.addFace smoothLighting getBlock cx cz).
Local Abbreviation check := (Chunk.check chunkData getBlock cx cz).
Local Abbreviation meshVoxel := (Chunk.meshVoxel chunkData smoothLighting getBlock cx cz).
Local Abbreviation meshBlock := (Chunk.meshBlock chunkData smoothLighting getBlock cx cz).
Local Abbreviation meshGeometries :=
  (Chunk.meshGeometries chunkData smoothLighting getBlock cx cz).
Local Abbreviation generateChunkMesh :=
  (Chunk.generateChunkMesh chunkData smoothLighting getBlock cx cz).

Lemma meshGeometries_for_range :
  meshGeometries = for_range 1 48 meshBlock [].
Proof.
  unfold Chunk.meshGeometries, for_range. rewrite BLOCK_PROPS_keys_eq. reflexivity.
Qed.

Lemma geoFor_geoPut g bID geo : geoFor (geoPut g bID geo) bID = geo.
Proof.
  unfold geoFor. induction g as [|[k old] g IH]; simpl.
  - rewrite Z.eqb_refl. reflexivity.
  - destruct (Z.eqb_spec k bID) as [->|Hne]; simpl.
    + rewrite Z.eqb_refl. reflexivity.
    + destruct (Z.eqb_spec k bID); [congruence|exact IH].
Qed.

Lemma geoPut_lone bID geo geo' : geoPut [(bID, geo)] bID geo' = [(bID, geo')].
Proof. simpl. rewrite Z.eqb_refl. reflexivity. Qed.

(** A face adds eighteen vertex coordinates to its block type. *)
Lemma addFace_posLength g bID x y z dx dy dz scale height :
  posLength (addFace g bID x y z dx dy dz scale height) bID
  = (posLength g bID + 18)%nat.
Proof.
  unfold posLength, Chunk.addFace. cbv zeta.
  destruct (faceCorners dx dy dz scale height) as [[[v0 v1] v2] v3].
  rewrite geoFor_geoPut. cbn [pos].
  destruct (_ || _); rewrite !List.length_app;
    destruct v0 as [[? ?] ?], v1 as [[? ?] ?], v2 as [[? ?] ?], v3 as [[? ?] ?];
    simpl; lia.
Qed.

Lemma addFace_only g bID x y z dx dy dz scale height :
  only bID g -> only bID (addFace g bID x y z dx dy dz scale height).
Proof.
  intros Hg. right. unfold Chunk.addFace. cbv zeta.
  destruct (faceCorners dx dy dz scale height) as [[[v0 v1] v2] v3].
  destruct Hg as [->|[geo ->]]; [eexists; reflexivity|].
  rewrite geoPut_lone. eexists; reflexivity.
Qed.

Lemma check_inside bID x y z dx dy dz :
  inChunk (x + dx) (y + dy) (z + dz) ->
  check bID x y z dx dy dz =
  let nb := TypedArray.get chunkData ((x + dx) + (z + dz) * 16 + (y + dy) * 256) in
  isTransparent nb && (negb (isWater bID) || negb (isWater nb)).
Proof.
  intros (Hx & Hz & Hy). unfold Chunk.check. cbv zeta.
  replace (_ && _ && _ && _ && _ && _) with true; [reflexivity|].
  symmetry. rewrite !andb_true_iff. unfold CHUNK_SIZE, CHUNK_HEIGHT in *. lia.
Qed.

Lemma check_outside bID x y z dx dy dz :
  ~ inChunk (x + dx) (y + dy) (z + dz) ->
  check bID x y z dx dy dz =
  let gb := getBlock (cx * CHUNK_SIZE + (x + dx)) (y + dy) (cz * CHUNK_SIZE + (z + dz)) in
  isTransparent gb && (negb (isWater bID) || negb (isWater gb)).
Proof.
  intros H. unfold Chunk.check. cbv zeta.
  replace (_ && _ && _ && _ && _ && _) with false; [reflexivity|].
  symmetry. apply not_true_is_false. rewrite !andb_true_iff. intros Hin. apply H.
  unfold inChunk, CHUNK_SIZE, CHUNK_HEIGHT in *. lia.
Qed.

Lemma inChunk_dec x y z : inChunk x y z \/ ~ inChunk x y z.
Proof. unfold inChunk, CHUNK_SIZE, CHUNK_HEIGHT. lia. Qed.

Lemma inChunk_index x y z :
  inChunk x y z -> 0 <= x + z * 16 + y * 256 < 65536.
Proof. unfold inChunk, CHUNK_SIZE, CHUNK_HEIGHT. lia. Qed.

(** *** A solid chunk among solid neighbours *)

Hypothesis solid_inside :
  forall i, 0 <= i < 65536 -> isTransparent (TypedArray.get chunkData i) = false.
Hypothesis solid_outside :
  forall x y z, ~ inChunk x y z ->
    isTransparent (getBlock (cx * CHUNK_SIZE + x) y (cz * CHUNK_SIZE + z)) = false.

Lemma check_solid bID x y z dx dy dz : check bID x y z dx dy dz = false.
Proof.
  destruct (inChunk_dec (x + dx) (y + dy) (z + dz)) as [Hin|Hout].
  - rewrite check_inside by exact Hin. cbv zeta.
    rewrite solid_inside by (apply inChunk_index; exact Hin). reflexivity.
  - rewrite check_outside by exact Hout. cbv zeta.
    rewrite solid_outside by exact Hout. reflexivity.
Qed.

Lemma meshVoxel_solid bID props x y z g :
  1 <= bID < 48 -> BLOCK_PROPS bID = Some props -> inChunk x y z ->
  meshVoxel bID props x z y g = g.
Proof.
  intros Hb Hp Hin. unfold Chunk.meshVoxel.
  destruct (Z.eqb_spec (TypedArray.get chunkData (x + z * CHUNK_SIZE + y * 256)) bID)
    as [Heq|Hne]; [|reflexivity].
  cbn [negb]. cbv zeta.
  assert (Ht : isTransparent bID = false).
  { rewrite <- Heq. apply solid_inside. apply inChunk_index. exact Hin. }
  destruct (opaque_row bID props Hb Hp Ht) as (-> & -> & _).
  rewrite !check_solid. reflexivity.
Qed.

Lemma meshBlock_solid bID g : 1 <= bID < 48 -> meshBlock bID g = g.
Proof.
  intros Hb. unfold Chunk.meshBlock. destruct (bID =? AIR); [reflexivity|].
  destruct (BLOCK_PROPS bID) as [props|] eqn:Hp; [|reflexivity].
  apply for_range_id. intros x Hx. apply for_range_id. intros z Hz.
  apply for_range_id. intros y Hy. apply meshVoxel_solid; auto.
  unfold inChunk. auto.
Qed.

Lemma solid_chunk_no_geometry : meshGeometries = [].
Proof.
  rewrite meshGeometries_for_range. apply for_range_id.
  intros bID Hb. apply meshBlock_solid. exact Hb.
Qed.

End Mesh.

(** A chunk all of whose cells are opaque, in a world that is opaque around
    it, has no mesh. *)
Lemma solid_chunk_has_no_mesh (chunkData : Uint8Array) (smoothLighting : bool)
    (getBlock : Z -> Z -> Z -> Z) (cx cz : Z) :
  (forall i, 0 <= i < 65536 -> isTransparent (TypedArray.get chunkData i) = false) ->
  (forall x y z, ~ inChunk x y z ->
     isTransparent (getBlock (cx * CHUNK_SIZE + x) y (cz * CHUNK_SIZE + z)) = false) ->
  generateChunkMesh chunkData smoothLighting getBlock cx cz = [].
Proof.
  intros Hin Hout.
  unfold generateChunkMesh. rewrite solid_chunk_no_geometry by assumption. reflexivity.
Qed.

Section Lone.
Variable chunkData : Uint8Array.
Variable smoothLighting : bool.
Variable getBlock : Z -> Z -> Z -> Z.
Variables cx cz : Z.
Variables x0 y0 z0 b : Z.

Local Abbreviation addFace := (Chunk.addFace smoothLighting getBlock cx cz).
Local Abbreviation check := (Chunk.check chunkData getBlock cx cz).
Local Abbreviation meshVoxel := (Chunk.meshVoxel chunkData smoothLighting getBlock cx cz).
Local Abbreviation meshBlock := (Chunk.meshBlock chunkData smoothLighting getBlock cx cz).
Local Abbreviation meshGeometries :=
  (Chunk.meshGeometries chunkData smoothLighting getBlock cx cz).

Hypothesis place : inChunk x0 y0 z0.
Hypothesis row : 1 <= b < 48.
Hypothesis opaque : isTransparent b = false.
Hypothesis here : TypedArray.get chunkData (cellIndex x0 y0 z0) = b.
Hypothesis elsewhere :
  forall i, 0 <= i < 65536 -> i <> cellIndex x0 y0 z0 -> TypedArray.get chunkData i = AIR.
Hypothesis air_around :
  forall dx dy dz, ~ inChunk (x0 + dx) (y0 + dy) (z0 + dz) ->
    getBlock (cx * CHUNK_SIZE + (x0 + dx)) (y0 + dy) (cz * CHUNK_SIZE + (z0 + dz)) = AIR.

Lemma check_lone dx dy dz :
  Z.abs dx + Z.abs dy + Z.abs dz = 1 -> check b x0 y0 z0 dx dy dz = true.
Proof.
  intros Hd. destruct (row_exists b row) as [p Hp].
  destruct (opaque_row b p row Hp opaque) as (_ & _ & Hw).
  destruct (inChunk_dec (x0 + dx) (y0 + dy) (z0 + dz)) as [Hin|Hout].
  - rewrite check_inside by exact Hin. cbv zeta.
    rewrite elsewhere, Hw; [reflexivity|apply inChunk_index; exact Hin|].
    unfold cellIndex, CHUNK_SIZE. unfold inChunk, CHUNK_SIZE, CHUNK_HEIGHT in *. lia.
  - rewrite check_outside by exact Hout. cbv zeta.
    rewrite air_around, Hw by exact Hout. reflexivity.
Qed.

Lemma meshVoxel_elsewhere bID props x y z g :
  1 <= bID < 48 -> inChunk x y z -> (x, y, z) <> (x0, y0, z0) ->
  meshVoxel bID props x z y g = g.
Proof.
  intros Hb Hin Hne. unfold Chunk.meshVoxel.
  rewrite elsewhere; [|apply inChunk_index; exact Hin|].
  - destruct (Z.eqb_spec AIR bID) as [Heq|_]; [unfold AIR in Heq; lia|reflexivity].
  - unfold cellIndex, CHUNK_SIZE. unfold inChunk, CHUNK_SIZE, CHUNK_HEIGHT in *.
    intros Heq. apply Hne. f_equal; [f_equal|]; lia.
Qed.

Lemma meshVoxel_other_type bID props g :
  bID <> b -> meshVoxel bID props x0 z0 y0 g = g.
Proof.
  intros Hne. unfold Chunk.meshVoxel.
  change (x0 + z0 * CHUNK_SIZE + y0 * 256) with (cellIndex x0 y0 z0). rewrite here.
  destruct (Z.eqb_spec b bID); [congruence|reflexivity].
Qed.

Lemma meshBlock_other_type bID g : 1 <= bID < 48 -> bID <> b -> meshBlock bID g = g.
Proof.
  intros Hb Hne. unfold Chunk.meshBlock. destruct (bID =? AIR); [reflexivity|].
  destruct (BLOCK_PROPS bID) as [props|]; [|reflexivity].
  apply for_range_id. intros x Hx. apply for_range_id. intros z Hz.
  apply for_range_id. intros y Hy.
  destruct (decide ((x, y, z) = (x0, y0, z0))) as [Heq|Hnq].
  - injection Heq as -> -> ->. apply meshVoxel_other_type. exact Hne.
  - apply meshVoxel_elsewhere; auto. unfold inChunk. auto.
Qed.

Lemma meshBlock_lone props g :
  BLOCK_PROPS b = Some props -> meshBlock b g = meshVoxel b props x0 z0 y0 g.
Proof.
  intros Hp. unfold Chunk.meshBlock. rewrite Hp.
  destruct (Z.eqb_spec b AIR) as [Heq|_]; [unfold AIR in Heq; lia|].
  destruct place as (Hx & Hz & Hy).
  rewrite (for_range_single 0 CHUNK_SIZE x0) by
    (first [exact Hx | intros x g' Hxr Hne; apply for_range_id; intros z Hzr;
     apply for_range_id; intros y Hyr; apply meshVoxel_elsewhere;
     [exact row|unfold inChunk; auto|congruence]]).
  rewrite (for_range_single 0 CHUNK_SIZE z0) by
    (first [exact Hz | intros z g' Hzr Hne; apply for_range_id; intros y Hyr;
     apply meshVoxel_elsewhere; [exact row|unfold inChunk; auto|congruence]]).
  apply (for_range_single 0 CHUNK_HEIGHT y0); [exact Hy|].
  intros y g' Hyr Hne. apply meshVoxel_elsewhere;
    [exact row|unfold inChunk; auto|congruence].
Qed.

Lemma meshVoxel_lone props :
  BLOCK_PROPS b = Some props ->
  exists geo, meshVoxel b props x0 z0 y0 [] = [(b, geo)]
              /\ List.length (pos geo) = 108%nat.
Proof.
  intros Hp. destruct (opaque_row b props row Hp opaque) as (Hc & Ht & Hw).
  unfold Chunk.meshVoxel.
  change (x0 + z0 * CHUNK_SIZE + y0 * 256) with (cellIndex x0 y0 z0).
  rewrite here, Z.eqb_refl, Hc, Ht, Hw. cbn [negb]. cbv zeta.
  rewrite !check_lone by reflexivity.
  set (g1 := addFace [] b x0 y0 z0 1 0 0 1.0 1.0).
  set (g2 := addFace g1 b x0 y0 z0 (-1) 0 0 1.0 1.0).
  set (g3 := addFace g2 b x0 y0 z0 0 1 0 1.0 1.0).
  set (g4 := addFace g3 b x0 y0 z0 0 (-1) 0 1.0 1.0).
  set (g5 := addFace g4 b x0 y0 z0 0 0 1 1.0 1.0).
  set (g6 := addFace g5 b x0 y0 z0 0 0 (-1) 1.0 1.0).
  assert (H6 : only b g6) by
    (subst g6 g5 g4 g3 g2 g1; repeat apply addFace_only; left; reflexivity).
  assert (L6 : posLength g6 b = 108%nat) by
    (subst g6 g5 g4 g3 g2 g1; rewrite !addFace_posLength; reflexivity).
  destruct H6 as [H6|[geo H6]]; rewrite H6 in L6.
  - discriminate L6.
  - exists geo. split; [exact H6|].
    unfold posLength, geoFor in L6. simpl in L6. rewrite Z.eqb_refl in L6. exact L6.
Qed.

(** The whole mesh is what the voxel loop does at the one voxel. *)
Lemma lone_voxel_only props :
  BLOCK_PROPS b = Some props -> meshGeometries = meshVoxel b props x0 z0 y0 [].
Proof.
  intros Hp. rewrite meshGeometries_for_range.
  rewrite (for_range_single 1 48 b); [|exact row|].
  - apply meshBlock_lone. exact Hp.
  - intros bID g Hb Hne. apply meshBlock_other_type; assumption.
Qed.

Lemma lone_voxel_geometry :
  exists geo, meshGeometries = [(b, geo)] /\ List.length (pos geo) = 108%nat.
Proof.
  destruct (row_exists b row) as [props Hp].
  destruct (meshVoxel_lone props Hp) as (geo & Hgeo & Hlen).
  exists geo. split; [|exact Hlen].
  rewrite (lone_voxel_only props) by exact Hp. exact Hgeo.
Qed.

End Lone.

Lemma toMesh_geometry bID geo : m_geometry (toMesh bID geo) = geo.
Proof. unfold toMesh. destruct (isWater bID); [reflexivity|]. destruct (_ || _); reflexivity. Qed.

(** One opaque block in a chunk of air, in a world of air: six faces. *)
Lemma lone_voxel_six_faces (chunkData : Uint8Array) (smoothLighting : bool)
    (getBlock : Z -> Z -> Z -> Z) (cx cz : Z) (x0 y0 z0 b : Z) :
  inChunk x0 y0 z0 ->
  1 <= b < 48 ->
  isTransparent b = false ->
  TypedArray.get chunkData (cellIndex x0 y0 z0) = b ->
  (forall i, 0 <= i < 65536 -> i <> cellIndex x0 y0 z0 ->
     TypedArray.get chunkData i = AIR) ->
  (forall x y z, getBlock x y z = AIR) ->
  faceCount (generateChunkMesh chunkData smoothLighting getBlock cx cz) = 6%nat.
Proof.
  intros Hplace Hrow Hopaque Hhere Helse Hair.
  destruct (lone_voxel_geometry chunkData smoothLighting getBlock cx cz x0 y0 z0 b
              Hplace Hrow Hopaque Hhere Helse (fun dx dy dz _ => Hair _ _ _))
    as (geo & Hg & Hlen).
  unfold generateChunkMesh. rewrite Hg. cbn [fold_left]. rewrite Hlen.
  cbn [Nat.ltb Nat.leb app]. unfold faceCount. cbn [List.map list_sum].
  rewrite toMesh_geometry, Hlen. reflexivity.
Qed.

(** C5. Mesh face invariant. A buffer all of whose cells hold an opaque
    block, meshed with a neighbour lookup that reports an opaque block at
    every cell outside the chunk, gives a mesh with no face; a buffer with
    one opaque block of the table and air in every other cell, meshed with a
    lookup that reports air everywhere, gives exactly 6 faces. *)
Theorem mesh_face_invariant (smoothLighting : bool) (cx cz : Z) :
  (forall chunkData getBlock,
      (forall i, 0 <= i < 65536 ->
         isTransparent (TypedArray.get chunkData i) = false) ->
      (forall x y z, ~ inChunk x y z ->
         isTransparent (getBlock (cx * CHUNK_SIZE + x) y (cz * CHUNK_SIZE + z)) = false) ->
      generateChunkMesh chunkData smoothLighting getBlock cx cz = []
      /\ faceCount (generateChunkMesh chunkData smoothLighting getBlock cx cz) = 0%nat)
  /\ (forall chunkData getBlock x0 y0 z0 b,
        inChunk x0 y0 z0 ->
        1 <= b < 48 ->
        isTransparent b = false ->
        TypedArray.get chunkData (cellIndex x0 y0 z0) = b ->
        (forall i, 0 <= i < 65536 -> i <> cellIndex x0 y0 z0 ->
           TypedArray.get chunkData i = AIR) ->
        (forall x y z, getBlock x y z = AIR) ->
        faceCount (generateChunkMesh chunkData smoothLighting getBlock cx cz) = 6%nat).
Proof.
  split.
  - intros chunkData getBlock Hin Hout.
    rewrite (solid_chunk_has_no_mesh chunkData smoothLighting getBlock cx cz Hin Hout).
    split; reflexivity.
  - intros chunkData getBlock x0 y0 z0 b. apply lone_voxel_six_faces.
Qed.

Lemma mesh_face_invariant_witness :
  faceCount (generateChunkMesh stoneData true (fun _ _ _ => STONE) 0 0) = 0%nat
  /\ faceCount (generateChunkMesh loneStone true (fun _ _ _ => AIR) 0 0) = 6%nat.
Proof.
  split.
  - apply (proj1 (mesh_face_invariant true 0 0) stoneData (fun _ _ _ => STONE)).
    + intros i Hi. reflexivity.
    + intros x y z _. reflexivity.
  - apply (proj2 (mesh_face_invariant true 0 0) loneStone (fun _ _ _ => AIR) 3 7 5 STONE).
    + unfold inChunk, CHUNK_SIZE, CHUNK_HEIGHT. lia.
    + unfold STONE. lia.
    + reflexivity.
    + reflexivity.
    + intros i Hi Hne. unfold loneStone, TypedArray.get. cbn [TypedArray.cells].
      destruct (Z.eqb_spec i (cellIndex 3 7 5)); [contradiction|reflexivity].
    + reflexivity.
Defined.

End MeshFacts.

(** ** Vertex weights of the mesh *)

Module AOFacts.
Import Key Chunk Engine Spec KeyFacts NumFacts JSMapFacts TypedArrayFacts EngineFacts Examples MeshFacts.






(** At that corner the code steps to the low x side: with both edge
    neighbours of the corner stone and the cell on the low x side air, the
    weight is 0.8. *)
Lemma corner_of_z_face_reads_low_x :
  let v1 := snd (fst (fst (faceCorners 0 0 1 1.0 1.0))) in
  highXLowYOfZFace 0 0 v1 = true
  /\ edgeNeighbours 6 5 6 0 0 1 v1 = ((7, 5, 7), (6, 4, 7))
  /\ opaqueAt cornerLookup 0 0 (7, 5, 7) = true
  /\ opaqueAt cornerLookup 0 0 (6, 4, 7) = true
  /\ (Chunk.calcVertAO cornerLookup 0 0 6 5 6 0 0 1
        (fst (fst (fst (faceCorners 0 0 1 1.0 1.0))))
        (snd (fst (fst (faceCorners 0 0 1 1.0 1.0))))
        (snd (fst (faceCorners 0 0 1 1.0 1.0)))
        (snd (faceCorners 0 0 1 1.0 1.0)) v1 == 0.8)%Q.
Proof. cbv zeta. repeat split; vm_compute; reflexivity. Qed.

Section Weights.
Variable chunkData : Uint8Array.
Variable getBlock : Z -> Z -> Z -> Z.
Variables cx cz : Z.

Local Abbreviation getAO := (Chunk.getAO getBlock cx cz).
Local Abbreviation calcVertAO := (Chunk.calcVertAO getBlock cx cz).
















End Weights.


End AOFacts.

(** ** What the flow rules write *)

Module FluidFacts.
Import Key Chunk Engine Spec KeyFacts NumFacts JSMapFacts TypedArrayFacts EngineFacts Examples.
Import Overlay FluidQueue.

Lemma getBlock_schedule x y z s x' y' z' :
  getBlock (scheduleFluidUpdate x y z s) x' y' z' = getBlock s x' y' z'.
Proof. unfold scheduleFluidUpdate. destruct (decide _); reflexivity. Qed.

Lemma storeSized_setBlock x y z id s : storeSized s -> storeSized (setBlock x y z id s).
Proof.
  intros H k d. rewrite setBlock_dataAt.
  destruct (dataAt s (key2 (chunkCoord x) (chunkCoord z))) as [d0|] eqn:E; [|apply H].
  destruct (String.eqb _ _); [|apply H].
  intros [= <-]. unfold sized. rewrite length_set_u8. exact (H _ _ E).
Qed.

Lemma getBlock_setBlock_same x y z id s :
  storeSized s ->
  JSMap.has (chunks s) (key2 (chunkCoord x) (chunkCoord z)) = true ->
  0 <= y < CHUNK_HEIGHT ->
  getBlock (setBlock x y z id s) x y z = id mod 256.
Proof.
  intros Hs Hres Hy. rewrite getBlock_dataAt, setBlock_dataAt.
  unfold JSMap.has in Hres. unfold dataAt at 1.
  destruct (JSMap.get (chunks s) (key2 (chunkCoord x) (chunkCoord z))) as [c|] eqn:E;
    [|discriminate].
  rewrite String.eqb_refl.
  replace ((y <? 0) || (y >=? CHUNK_HEIGHT)) with false
    by (symmetry; apply orb_false_iff; unfold CHUNK_HEIGHT in *; lia).
  unfold TypedArray.set_u8. cbv zeta. apply get_store_eq.
  assert (Hd : dataAt s (key2 (chunkCoord x) (chunkCoord z)) = Some (data c))
    by (unfold dataAt; rewrite E; reflexivity).
  rewrite (Hs _ _ Hd). apply cell_in_range. unfold CHUNK_HEIGHT in Hy. exact Hy.
Qed.

(** A write leaves a cell as it was or gives it the written value. *)
Lemma getBlock_setBlock_cases x y z id s x' y' z' :
  getBlock (setBlock x y z id s) x' y' z' = getBlock s x' y' z'
  \/ getBlock (setBlock x y z id s) x' y' z' = id mod 256.
Proof.
  rewrite !getBlock_dataAt, setBlock_dataAt.
  destruct (dataAt s (key2 (chunkCoord x) (chunkCoord z))) as [d|] eqn:E; [|left; reflexivity].
  destruct (String.eqb_spec (key2 (chunkCoord x) (chunkCoord z))
              (key2 (chunkCoord x') (chunkCoord z'))) as [Heq|Hne]; [|left; reflexivity].
  rewrite <- Heq, E.
  destruct ((y' <? 0) || (y' >=? CHUNK_HEIGHT)); [left; reflexivity|].
  unfold TypedArray.set_u8, TypedArray.store, TypedArray.get. cbv zeta.
  destruct (_ && _); [|left; reflexivity]. cbn [TypedArray.cells].
  destruct (_ =? _); [right|left]; reflexivity.
Qed.

Lemma resident_of_block s x y z : getBlock s x y z <> AIR ->
  JSMap.has (chunks s) (key2 (chunkCoord x) (chunkCoord z)) = true
  /\ 0 <= y < CHUNK_HEIGHT.
Proof.
  intros H. unfold getBlock in H. unfold JSMap.has.
  destruct (JSMap.get _ _); [|congruence]. split; [reflexivity|].
  destruct ((y <? 0) || (y >=? CHUNK_HEIGHT)) eqn:E; [congruence|].
  apply orb_false_iff in E. unfold CHUNK_HEIGHT in *. lia.
Qed.

Lemma keepsFlowing_refl s : keepsFlowing s s.
Proof. intros x y z H. exact H. Qed.

Lemma keepsFlowing_trans s1 s2 s3 :
  keepsFlowing s1 s2 -> keepsFlowing s2 s3 -> keepsFlowing s1 s3.
Proof. intros H1 H2 x y z H. apply H2, H1, H. Qed.

Lemma keepsFlowing_write x y z x' y' z' s :
  keepsFlowing s (scheduleFluidUpdate x' y' z' (setBlock x y z FLOWING_WATER s)).
Proof.
  intros a b c H. rewrite getBlock_schedule.
  destruct (getBlock_setBlock_cases x y z FLOWING_WATER s a b c) as [->| ->];
    [exact H|reflexivity].
Qed.

Lemma keepsFlowing_ext s s' t :
  (forall x y z, getBlock s' x y z = getBlock s x y z) -> keepsFlowing s' t -> keepsFlowing s t.
Proof. intros He H x y z Hf. apply H. rewrite He. exact Hf. Qed.

Lemma flowDown_keeps x y z s : keepsFlowing s (flowDown x y z s).
Proof.
  unfold flowDown.
  repeat match goal with |- context [if ?b then _ else _] => destruct b end;
    auto using keepsFlowing_write, keepsFlowing_refl.
Qed.

Lemma flowSideways_keeps x y z s : keepsFlowing s (flowSideways x y z s).
Proof.
  unfold flowSideways. cbv zeta. destruct (_ && _); [|apply keepsFlowing_refl].
  generalize [(1, 0); (-1, 0); (0, 1); (0, -1)]. intros l. revert s.
  induction l as [|[dx dz] l IH]; intros s; simpl; [apply keepsFlowing_refl|].
  destruct (_ || _); [|apply IH].
  eapply keepsFlowing_trans; [apply keepsFlowing_write|apply IH].
Qed.

Lemma fluidCell_keeps c s : keepsFlowing s (fluidCell c s).
Proof.
  destruct c as [[x y] z]. unfold fluidCell. cbv zeta.
  destruct (_ || _); [|apply keepsFlowing_refl].
  destruct (_ =? WATER); [|apply flowDown_keeps].
  eapply keepsFlowing_trans; [apply flowDown_keeps|apply flowSideways_keeps].
Qed.

Lemma fluidStep_keeps s : keepsFlowing s (fluidStep s).
Proof.
  unfold fluidStep. destruct (fluidQueue s) as [|c rest]; [apply keepsFlowing_refl|].
  eapply keepsFlowing_trans; [|apply fluidCell_keeps].
  intros x y z H. exact H.
Qed.

Lemma fluidLoop_keeps n s : keepsFlowing s (fluidLoop n s).
Proof.
  revert s. induction n as [|n IH]; intros s; simpl; [apply keepsFlowing_refl|].
  destruct (fluidQueue s); [apply keepsFlowing_refl|].
  eapply keepsFlowing_trans; [apply fluidStep_keeps|apply IH].
Qed.

(** The flow rule replaces a solid block under water. *)
Lemma flowDown_replaces_solid s x y z b :
  storeSized s ->
  getBlock s x (y - 1) z = b -> solidBlock b ->
  getBlock (flowDown x y z s) x (y - 1) z = FLOWING_WATER.
Proof.
  intros Hs Hb (Hair & Hw & Hc & Ht & Hbed & Hf).
  assert (Hres : getBlock s x (y - 1) z <> AIR) by congruence.
  apply resident_of_block in Hres as [Hres Hy].
  unfold flowDown. replace (y >? 0) with true by (symmetry; apply Z.gtb_lt; lia).
  rewrite Hb. unfold isWater in Hw. apply orb_false_iff in Hw as [Hw1 Hw2].
  rewrite Hw1, Hw2, Hc, Hf.
  replace (b =? TORCH) with false by (symmetry; apply Z.eqb_neq; exact Ht).
  replace (b =? BEDROCK) with false by (symmetry; apply Z.eqb_neq; exact Hbed).
  cbn [negb andb]. rewrite !orb_true_r.
  rewrite getBlock_schedule. apply (getBlock_setBlock_same x (y - 1) z FLOWING_WATER s);
    assumption.
Qed.

Lemma fluidCell_replaces_solid s x y z b :
  storeSized s ->
  isWater (getBlock s x y z) = true ->
  getBlock s x (y - 1) z = b -> solidBlock b ->
  getBlock (fluidCell (x, y, z) s) x (y - 1) z = FLOWING_WATER.
Proof.
  intros Hs Hw Hb Hsolid. unfold fluidCell. cbv zeta.
  unfold isWater in Hw. rewrite Hw.
  pose proof (flowDown_replaces_solid s x y z b Hs Hb Hsolid) as Hdown.
  destruct (_ =? WATER); [|exact Hdown].
  apply flowSideways_keeps. exact Hdown.
Qed.

Lemma processFluids_first s c rest :
  fluidQueue s = c :: rest -> processFluids s = fluidLoop 499 (fluidStep s).
Proof.
  intros Hq. unfold processFluids. change batchSize with (S 499).
  change (fluidLoop (S 499) s)
    with (match fluidQueue s with [] => s | _ :: _ => fluidLoop 499 (fluidStep s) end).
  rewrite Hq. reflexivity.
Qed.

(** Water above a solid block that is neither bedrock nor a torch: the
    flow-down rule replaces the block with flowing water, in the step that
    handles the water cell and in the whole batch. *)
Lemma flow_down_replaces_solid (s : GameEngine) (x y z b : Z) (rest : list Coord) :
  storeSized s ->
  fluidQueue s = (x, y, z) :: rest ->
  isWater (getBlock s x y z) = true ->
  getBlock s x (y - 1) z = b ->
  solidBlock b ->
  getBlock (fluidStep s) x (y - 1) z = FLOWING_WATER
  /\ getBlock (processFluids s) x (y - 1) z = FLOWING_WATER.
Proof.
  intros Hs Hq Hw Hb Hsolid.
  assert (Hstep : getBlock (fluidStep s) x (y - 1) z = FLOWING_WATER).
  { unfold fluidStep. rewrite Hq.
    apply (fluidCell_replaces_solid _ x y z b); assumption. }
  split; [exact Hstep|].
  rewrite (processFluids_first s _ _ Hq). apply fluidLoop_keeps. exact Hstep.
Qed.

(** A store with one chunk in it. *)
Lemma single_chunk_sized s key d m :
  sized d -> chunks s = [(key, mkChunkEntry d m)] -> storeSized s.
Proof.
  intros Hd Hc k d'. unfold dataAt. rewrite Hc. cbn [JSMap.get].
  destruct (String.eqb k key); [|discriminate].
  cbn [data]. intros H. injection H as <-. exact Hd.
Qed.

Lemma wetEngine_sized : storeSized wetEngine.
Proof.
  apply (single_chunk_sized wetEngine (key2 0 0) wetData None); [|reflexivity].
  unfold wetData. apply generateChunkData_sized.
Qed.

Lemma flatEngine_sized : storeSized flatEngine.
Proof.
  apply (single_chunk_sized flatEngine (key2 0 0) flatData None); [|reflexivity].
  unfold flatData. apply generateChunkData_sized.
Qed.

Lemma grass_solid : solidBlock GRASS.
Proof. unfold solidBlock. repeat split; try discriminate; reflexivity. Qed.

(** C2. The fluid step overwrites a solid block: in a [Flat] world with a
    water source at (5, 5, 5) waiting in the queue, the cell below it,
    (5, 4, 5), holds grass, a block that is not air, not a fluid and not a
    plant; after the step that handles the source, and after the whole call
    of [processFluids], that cell holds flowing water. *)
Theorem fluid_replaces_solid_below :
  fluidQueue wetEngine = [(5, 5, 5)]
  /\ getBlock wetEngine 5 5 5 = WATER
  /\ getBlock wetEngine 5 4 5 = GRASS
  /\ solidBlock GRASS
  /\ getBlock (fluidStep wetEngine) 5 4 5 = FLOWING_WATER
  /\ getBlock (processFluids wetEngine) 5 4 5 = FLOWING_WATER.
Proof.
  assert (Hsrc : getBlock wetEngine 5 5 5 = WATER) by (vm_compute; reflexivity).
  assert (Hbelow : getBlock wetEngine 5 4 5 = GRASS) by (vm_compute; reflexivity).
  split; [reflexivity|]. split; [exact Hsrc|]. split; [exact Hbelow|].
  split; [exact grass_solid|].
  apply (flow_down_replaces_solid wetEngine 5 5 5 GRASS []).
  - exact wetEngine_sized.
  - reflexivity.
  - rewrite Hsrc. reflexivity.
  - exact Hbelow.
  - exact grass_solid.
Qed.

End FluidFacts.

(** ** What the flow rules and the random tick leave alone *)

Module FluidGuards.
Import Key Chunk Engine Spec KeyFacts NumFacts JSMapFacts TypedArrayFacts EngineFacts Examples.
Import Overlay FluidQueue FluidFacts.

Lemma getBlock_setBlock_other x y z id s x' y' z' :
  (x', y', z') <> (x, y, z) ->
  getBlock (setBlock x y z id s) x' y' z' = getBlock s x' y' z'.
Proof.
  intros Hne. rewrite !getBlock_dataAt, setBlock_dataAt.
  destruct (dataAt s (key2 (chunkCoord x) (chunkCoord z))) as [d|] eqn:E; [|reflexivity].
  destruct (String.eqb_spec (key2 (chunkCoord x) (chunkCoord z))
              (key2 (chunkCoord x') (chunkCoord z'))) as [Heq|Hk]; [|reflexivity].
  rewrite <- Heq, E. apply key2_inj in Heq as [Hcx Hcz].
  destruct ((y' <? 0) || (y' >=? CHUNK_HEIGHT)) eqn:Ey; [reflexivity|].
  apply get_set_u8_ne. intros Hidx. apply Hne.
  apply orb_false_iff in Ey as [Ey1 Ey2].
  pose proof (localCoord_range x). pose proof (localCoord_range z).
  pose proof (localCoord_range x'). pose proof (localCoord_range z').
  pose proof (world_split x). pose proof (world_split z).
  pose proof (world_split x'). pose proof (world_split z').
  unfold CHUNK_SIZE, CHUNK_HEIGHT in *.
  assert (y' = y /\ localCoord x' = localCoord x /\ localCoord z' = localCoord z) by lia.
  f_equal; [f_equal|]; lia.
Qed.

Lemma flowWrites_refl top s : flowWrites top s s.
Proof. intros x y z H. congruence. Qed.

Lemma flowWrites_trans top s1 s2 s3 :
  flowWrites top s1 s2 -> flowWrites top s2 s3 -> flowWrites top s1 s3.
Proof.
  intros H12 H23 x y z Hne.
  destruct (Z.eq_dec (getBlock s3 x y z) (getBlock s2 x y z)) as [E32|N32].
  - rewrite E32 in *. apply H12. exact Hne.
  - destruct (H23 x y z N32) as (Hf & Hw & Hb & Hy).
    destruct (Z.eq_dec (getBlock s2 x y z) (getBlock s1 x y z)) as [E21|N21].
    + rewrite <- E21. auto.
    + destruct (H12 x y z N21) as (Hf2 & _). rewrite Hf2 in Hw. discriminate.
Qed.

Lemma flowWrites_write top a b c a' b' c' s :
  isWater (getBlock s a b c) = false -> getBlock s a b c <> BEDROCK -> b <= top ->
  flowWrites top s (scheduleFluidUpdate a' b' c' (setBlock a b c FLOWING_WATER s)).
Proof.
  intros Hw Hb Hy x y z. rewrite getBlock_schedule. intros Hne.
  destruct (decide ((x, y, z) = (a, b, c))) as [Heq|Hd].
  - injection Heq as -> -> ->.
    destruct (getBlock_setBlock_cases a b c FLOWING_WATER s a b c) as [E|E];
      [congruence|]. auto.
  - rewrite getBlock_setBlock_other in Hne by exact Hd. congruence.
Qed.

(** A block drawn as a cross is a plant: not water, not bedrock. *)
Lemma cross_is_plant b : prop_flag cross b = true -> b = TALL_GRASS.
Proof.
  unfold prop_flag, BLOCK_PROPS, BLOCK_PROPS_table. cbn [lookup].
  repeat match goal with
  | |- context [(?k =? b)] =>
      destruct (Z.eqb_spec k b) as [<-|_]; [cbn; first [discriminate|reflexivity]|]
  end.
  discriminate.
Qed.

Lemma flowDown_writes x y z s : flowWrites y s (flowDown x y z s).
Proof.
  unfold flowDown. destruct (y >? 0); [|apply flowWrites_refl].
  destruct (_ || _) eqn:Eguard; [|apply flowWrites_refl].
  destruct (_ || fluidUndefined _); [|apply flowWrites_refl].
  apply flowWrites_write; [| |lia].
  - apply orb_true_iff in Eguard as [E|E].
    + apply Z.eqb_eq in E. rewrite E. reflexivity.
    + rewrite !andb_true_iff, !negb_true_iff in E. unfold isWater.
      apply orb_false_iff. tauto.
  - apply orb_true_iff in Eguard as [E|E].
    + apply Z.eqb_eq in E. rewrite E. discriminate.
    + rewrite !andb_true_iff, !negb_true_iff, !Z.eqb_neq in E. tauto.
Qed.

Lemma flowSideways_writes x y z s : flowWrites y s (flowSideways x y z s).
Proof.
  unfold flowSideways. cbv zeta. destruct (_ && _); [|apply flowWrites_refl].
  generalize [(1, 0); (-1, 0); (0, 1); (0, -1)]. intros l. revert s.
  induction l as [|[dx dz] l IH]; intros s; simpl; [apply flowWrites_refl|].
  destruct (_ || _) eqn:Eguard; [|apply IH].
  eapply flowWrites_trans; [|apply IH].
  assert (Hnb : getBlock s (x + dx) y (z + dz) = AIR
                \/ getBlock s (x + dx) y (z + dz) = TALL_GRASS).
  { apply orb_true_iff in Eguard as [E|E]; [left; apply Z.eqb_eq; exact E|].
    right. apply cross_is_plant. exact E. }
  apply flowWrites_write; [| |lia]; destruct Hnb as [-> | ->];
    first [reflexivity|discriminate].
Qed.

(** What one turn of the fluid loop leaves alone: water, bedrock, and
    everything above the processed cell. *)
Lemma fluidStep_writes s x y z rest :
  fluidQueue s = (x, y, z) :: rest -> flowWrites y s (fluidStep s).
Proof.
  intros Hq. unfold fluidStep. rewrite Hq.
  set (s' := set_fluidQueueSet _ _).
  assert (Hcell : flowWrites y s' (fluidCell (x, y, z) s')).
  { unfold fluidCell. cbv zeta. destruct (_ || _); [|apply flowWrites_refl].
    destruct (_ =? WATER); [|apply flowDown_writes].
    eapply flowWrites_trans; [apply flowDown_writes|apply flowSideways_writes]. }
  intros a b c. exact (Hcell a b c).
Qed.

Lemma clearsOnly_refl s : clearsOnly s s.
Proof. intros x y z. left. reflexivity. Qed.

Lemma clearsOnly_trans s1 s2 s3 : clearsOnly s1 s2 -> clearsOnly s2 s3 -> clearsOnly s1 s3.
Proof.
  intros H12 H23 x y z. destruct (H23 x y z) as [E|E]; [|right; exact E].
  rewrite E. apply H12.
Qed.

Lemma Math_random_getBlock s x y z :
  getBlock (snd (Math_random s)) x y z = getBlock s x y z.
Proof. reflexivity. Qed.

Lemma randomSample_clears key cx cz s : clearsOnly s (randomSample key cx cz s).
Proof.
  unfold randomSample, Math_random. cbn [Random.next]. cbv zeta.
  match goal with |- clearsOnly _ (match JSMap.get (chunks ?s') _ with _ => _ end) =>
    set (s1 := s') end.
  assert (H1 : clearsOnly s s1) by (intros x y z; left; reflexivity).
  eapply clearsOnly_trans; [exact H1|]. clear H1. clearbody s1.
  destruct (JSMap.get (chunks s1) key) as [chunk|]; [|apply clearsOnly_refl].
  repeat match goal with
  | |- context [if ?b then _ else _] => destruct b
  end; intros x y z; rewrite ?getBlock_schedule;
    first [ left; reflexivity
          | destruct (getBlock_setBlock_cases
              (cx * CHUNK_SIZE + Math_floor (random s 0%nat * inject_Z CHUNK_SIZE))
              (Math_floor (random s 2%nat * inject_Z CHUNK_HEIGHT))
              (cz * CHUNK_SIZE + Math_floor (random s 1%nat * inject_Z CHUNK_SIZE))
              AIR s1 x y z) as [E|E]; [left|right]; exact E ].
Qed.

(** The periodic re-validation never writes water. *)
Lemma randomTick_clears s : clearsOnly s (randomTick s).
Proof.
  unfold randomTick. apply (fold_left_inv (clearsOnly s)); [apply clearsOnly_refl|].
  intros key s' _ Hs'. eapply clearsOnly_trans; [exact Hs'|].
  unfold randomTickChunk. destruct (parse2 key) as [[cx|] [cz|]];
    try apply clearsOnly_refl.
  destruct (playerChunk s') as [pcx pcz]. destruct (_ || _); [apply clearsOnly_refl|].
  apply (for_range_inv (clearsOnly s')); [apply clearsOnly_refl|].
  intros i s'' _ H. eapply clearsOnly_trans; [exact H|apply randomSample_clears].
Qed.

End FluidGuards.

(** ** Writes outside the vertical bound *)

Module Bounds.
Import Key Chunk Engine Spec KeyFacts NumFacts JSMapFacts TypedArrayFacts EngineFacts Examples.
Import Overlay FluidFacts.

Lemma index_out_of_range lx lz y :
  0 <= lx < 16 -> 0 <= lz < 16 -> y < 0 \/ y >= CHUNK_HEIGHT ->
  ~ (0 <= lx + lz * CHUNK_SIZE + y * 256 < 65536).
Proof. unfold CHUNK_SIZE, CHUNK_HEIGHT. lia. Qed.

Lemma resident_get s k :
  JSMap.has (chunks s) k = true -> exists c, JSMap.get (chunks s) k = Some c.
Proof. unfold JSMap.has. destruct (JSMap.get _ _) as [c|]; [eauto|discriminate]. Qed.

(** A write outside the vertical bound, in a resident chunk: the read there
    gives air, no buffer changes, and the overlay records the write. *)
Lemma setBlock_outside_vertical (s : GameEngine) (x y z id : Z) :
  y < 0 \/ y >= CHUNK_HEIGHT ->
  JSMap.has (chunks s) (key2 (chunkCoord x) (chunkCoord z)) = true ->
  storeSized s ->
  getBlock s x y z = AIR
  /\ (forall k, dataAt (setBlock x y z id s) k = dataAt s k)
  /\ JSMap.get (modifiedBlocks (setBlock x y z id s)) (key3 x y z) = Some id.
Proof.
  intros Hy Hres Hlen. split; [apply getBlock_vertical; exact Hy|]. split.
  - intros k. rewrite setBlock_dataAt.
    destruct (dataAt s (key2 (chunkCoord x) (chunkCoord z))) as [d|] eqn:Ed; [|reflexivity].
    destruct (String.eqb_spec (key2 (chunkCoord x) (chunkCoord z)) k) as [<-|]; [|reflexivity].
    rewrite set_u8_out; [symmetry; exact Ed|].
    pose proof (Hlen _ _ Ed) as Hd. unfold sized in Hd. rewrite Hd.
    apply index_out_of_range; auto using localCoord_range.
  - rewrite setBlock_modifiedBlocks.
    destruct (resident_get _ _ Hres) as [c ->]. apply get_set_eq.
Qed.

(** A write outside a resident chunk is dropped altogether. *)
Lemma setBlock_not_resident (s : GameEngine) (x y z id : Z) :
  JSMap.get (chunks s) (key2 (chunkCoord x) (chunkCoord z)) = None ->
  setBlock x y z id s = s.
Proof. intros H. rewrite setBlock_unfold, H. reflexivity. Qed.

(** C4. Reads outside the vertical bound give air, but writes there are not
    rejected: in a world whose chunk (0, 0) is resident and whose overlay is
    empty, [setBlock] at height 256 and at height -1 leaves every voxel
    buffer as it was and yet enters the coordinate in the modification
    overlay. *)
Theorem setBlock_outside_bound_enters_overlay :
  (forall s x y z, y < 0 \/ y >= CHUNK_HEIGHT -> getBlock s x y z = AIR)
  /\ modifiedBlocks flatEngine = []
  /\ (forall k, dataAt (setBlock 0 256 0 STONE flatEngine) k = dataAt flatEngine k)
  /\ modifiedBlocks (setBlock 0 256 0 STONE flatEngine) = [(key3 0 256 0, STONE)]
  /\ (forall k, dataAt (setBlock 0 (-1) 0 STONE flatEngine) k = dataAt flatEngine k)
  /\ modifiedBlocks (setBlock 0 (-1) 0 STONE flatEngine) = [(key3 0 (-1) 0, STONE)].
Proof.
  split; [intros s x y z Hy; apply getBlock_vertical; exact Hy|].
  split; [reflexivity|].
  split; [apply (setBlock_outside_vertical flatEngine 0 256 0 STONE);
          [unfold CHUNK_HEIGHT; lia | reflexivity | exact flatEngine_sized]|].
  split; [rewrite setBlock_modifiedBlocks; reflexivity|].
  split; [apply (setBlock_outside_vertical flatEngine 0 (-1) 0 STONE);
          [unfold CHUNK_HEIGHT; lia | reflexivity | exact flatEngine_sized]|].
  rewrite setBlock_modifiedBlocks; reflexivity.
Qed.

End Bounds.

(** ** Terrain generation and [Math.random] *)

Module Determinism.
Import Key Chunk Engine Spec KeyFacts NumFacts JSMapFacts TypedArrayFacts EngineFacts Examples.

(** In [Flat] mode the buffer does not depend on [Math.random]. *)
Lemma flat_generation_deterministic Math_sin cm cx cz seed m rnd1 rnd2 :
  fst (generateChunkData Math_sin cm cx cz seed Flat m rnd1)
  = fst (generateChunkData Math_sin cm cx cz seed Flat m rnd2).
Proof. unfold generateChunkData. reflexivity. Qed.

(** The surface cell of the column (0, 0) of chunk (0, 0), for the two
    states of [Math.random]: the draw shifts the temperature and the
    moisture across the biome thresholds. *)
Lemma surface_high_draw :
  TypedArray.get
    (fst (generateChunkData halfSin warmNoise 0 0 0 Default [] highDraws))
    (cellIndex 0 112 0) = GRASS.
Proof. vm_compute. reflexivity. Qed.

Lemma surface_low_draw :
  TypedArray.get
    (fst (generateChunkData halfSin warmNoise 0 0 0 Default [] lowDraws))
    (cellIndex 0 112 0) = PODZOL.
Proof. vm_compute. reflexivity. Qed.

(** The corner leaves of the lowest canopy layer of [makeTree] follow the
    draw as well. *)
Lemma makeTree_depends_on_Math_random :
  TypedArray.get (fst (makeTree (TypedArray.make 65536) 5 5 70 WOOD LEAVES 5 highDraws))
    (cellIndex 3 73 3) = AIR
  /\ TypedArray.get (fst (makeTree (TypedArray.make 65536) 5 5 70 WOOD LEAVES 5 lowDraws))
    (cellIndex 3 73 3) = LEAVES.
Proof. split; vm_compute; reflexivity. Qed.

(** C1. Terrain generation is not a function of its arguments alone: two
    calls of [generateChunkData] for chunk (0, 0), seed 0, world type
    [Default] and the empty overlay, on the same noise fields, which differ
    only in the state of [Math.random] they run in, return buffers that
    differ at the surface cell (0, 112, 0): grass in one, podzol in the
    other. *)
Theorem generation_depends_on_Math_random :
  let first := fst (generateChunkData halfSin warmNoise 0 0 0 Default [] highDraws) in
  let second := fst (generateChunkData halfSin warmNoise 0 0 0 Default [] lowDraws) in
  TypedArray.get first (cellIndex 0 112 0) = GRASS
  /\ TypedArray.get second (cellIndex 0 112 0) = PODZOL
  /\ first <> second.
Proof.
  intros first second. subst first second.
  split; [exact surface_high_draw|]. split; [exact surface_low_draw|].
  intros H.
  pose proof surface_high_draw as Hhigh. rewrite H, surface_low_draw in Hhigh.
  discriminate Hhigh.
Qed.

End Determinism.

(** ** Keys of the overlay and of the chunk store *)

Module KeyProps.
Import Terms MoreExamples.
Import Key Chunk Engine Spec KeyFacts.

(** X1. The keys the engine prints are read back as the coordinates they
    were printed from: the three parts of an overlay key by [split] and
    [parseInt], the two parts of a chunk key by [split] and [Number]; and
    different coordinates have different keys. *)
Theorem keys_round_trip (x y z : Z) :
  (let parts := split comma (key3 x y z) in
   parseInt_at parts 0 = Some x /\ parseInt_at parts 1 = Some y
   /\ parseInt_at parts 2 = Some z)
  /\ parse2 (key2 x z) = (Some x, Some z)
  /\ (forall x' y' z', key3 x y z = key3 x' y' z' -> x = x' /\ y = y' /\ z = z')
  /\ (forall x' z', key2 x z = key2 x' z' -> x = x' /\ z = z').
Proof.
  split; [apply parse_key3|]. split; [apply parse_key2|].
  split; [intros x' y' z'; apply key3_inj|intros x' z'; apply key2_inj].
Qed.

End KeyProps.

(** ** Reads after writes *)

Module StoreProps.
Import Terms MoreExamples.
Import Key Chunk Engine Spec KeyFacts NumFacts JSMapFacts TypedArrayFacts EngineFacts Examples.
Import Overlay FluidFacts FluidGuards.

(** X2. In a resident chunk and inside the vertical bound, a read after a
    write gives the value written, and every other cell reads as before. *)
Theorem setBlock_then_getBlock (s : GameEngine) (x y z id : Z) :
  storeSized s ->
  JSMap.has (chunks s) (key2 (chunkCoord x) (chunkCoord z)) = true ->
  0 <= y < CHUNK_HEIGHT ->
  0 <= id < 256 ->
  getBlock (setBlock x y z id s) x y z = id
  /\ (forall x' y' z', (x', y', z') <> (x, y, z) ->
        getBlock (setBlock x y z id s) x' y' z' = getBlock s x' y' z').
Proof.
  intros Hs Hres Hy Hid. split.
  - rewrite getBlock_setBlock_same by assumption. apply Z.mod_small. exact Hid.
  - intros x' y' z' Hne. apply getBlock_setBlock_other. exact Hne.
Qed.

Lemma setBlock_then_getBlock_witness :
  getBlock (setBlock 17 10 (-2) STONE (set_chunks
     [(key2 1 (-1), mkChunkEntry flatData None)] emptyEngine)) 17 10 (-2) = STONE
  /\ (forall x' y' z', (x', y', z') <> (17, 10, -2) ->
        getBlock (setBlock 17 10 (-2) STONE (set_chunks
           [(key2 1 (-1), mkChunkEntry flatData None)] emptyEngine)) x' y' z'
        = getBlock (set_chunks
           [(key2 1 (-1), mkChunkEntry flatData None)] emptyEngine) x' y' z').
Proof.
  apply (setBlock_then_getBlock
           (set_chunks [(key2 1 (-1), mkChunkEntry flatData None)] emptyEngine)
           17 10 (-2) STONE).
  - apply (single_chunk_sized _ (key2 1 (-1)) flatData None); [|reflexivity].
    unfold flatData. apply generateChunkData_sized.
  - vm_compute. reflexivity.
  - unfold CHUNK_HEIGHT. lia.
  - unfold STONE. lia.
Defined.

End StoreProps.

(** ** Streaming: the band between loading and eviction *)

Module StreamingProps.
Import Terms MoreExamples.
Import Key Chunk Engine Spec KeyFacts NumFacts JSMapFacts TypedArrayFacts EngineFacts Examples.
Import Streaming.

Section Pass.
Variable Math_sin : Q -> Q.

Local Abbreviation loadAll := (Spec.loadAll Math_sin).

Lemma loadChunk_has_inv cx cz s k :
  JSMap.has (chunks (loadChunk Math_sin cx cz s)) k = true ->
  JSMap.has (chunks s) k = true \/ k = key2 cx cz.
Proof.
  unfold loadChunk. destruct (negb (JSMap.has (chunks s) (key2 cx cz))); [|auto].
  cbn [chunks set_chunks set_random].
  destruct (String.eqb_spec k (key2 cx cz)) as [->|Hne]; [auto|].
  rewrite has_set_ne by congruence. auto.
Qed.

Lemma loadAll_has_mono pcx pcz dist s k :
  JSMap.has (chunks s) k = true ->
  JSMap.has (chunks (loadAll pcx pcz dist s)) k = true.
Proof.
  intros H. unfold Spec.loadAll.
  apply (for_range_inv (fun s' => JSMap.has (chunks s') k = true)); [exact H|].
  intros x s1 _ H1.
  apply (for_range_inv (fun s' => JSMap.has (chunks s') k = true)); [exact H1|].
  intros z s2 _ H2. apply loadChunk_has_mono. exact H2.
Qed.

(** The loads only add chunks of the square around the player. *)
Lemma loadAll_has_inv pcx pcz dist s k :
  JSMap.has (chunks (loadAll pcx pcz dist s)) k = true ->
  JSMap.has (chunks s) k = true
  \/ exists x z, - dist <= x <= dist /\ - dist <= z <= dist /\ k = key2 (pcx + x) (pcz + z).
Proof.
  unfold Spec.loadAll.
  set (P := fun s' : GameEngine =>
    JSMap.has (chunks s') k = true ->
    JSMap.has (chunks s) k = true
    \/ exists x z, - dist <= x <= dist /\ - dist <= z <= dist
                   /\ k = key2 (pcx + x) (pcz + z)).
  apply (for_range_inv P); [unfold P; auto|].
  intros x s1 Hx H1.
  apply (for_range_inv P); [exact H1|].
  intros z s2 Hz H2 Hhas.
  apply loadChunk_has_inv in Hhas as [Hhas| ->]; [apply H2; exact Hhas|].
  right. exists x, z. repeat split; try lia.
Qed.

(** X3. Hysteresis. For a chunk farther than the render distance from the
    player's chunk, but not farther than the render distance plus 2, in
    both directions, a pass of [updateWorldChunks] changes nothing: it is
    resident after the pass exactly if it was before. *)
Theorem band_is_left_alone (s : GameEngine) (cx cz : Z) :
  let pcx := fst (playerChunk s) in
  let pcz := snd (playerChunk s) in
  let radius := renderDistance (settings s) in
  Z.max (Z.abs (cx - pcx)) (Z.abs (cz - pcz)) > radius ->
  Z.max (Z.abs (cx - pcx)) (Z.abs (cz - pcz)) <= radius + 2 ->
  JSMap.has (chunks (updateWorldChunks Math_sin s)) (key2 cx cz)
  = JSMap.has (chunks s) (key2 cx cz).
Proof.
  cbv zeta. rewrite updateWorldChunks_unfold. cbv zeta.
  set (pcx := fst (playerChunk s)). set (pcz := snd (playerChunk s)).
  set (dist := renderDistance (settings s)).
  intros Hout Hband.
  rewrite evictAll_keeps by (rewrite far_key2; apply orb_false_iff; split; lia).
  destruct (JSMap.has (chunks s) (key2 cx cz)) eqn:Hs.
  - apply loadAll_has_mono. exact Hs.
  - destruct (JSMap.has (chunks (loadAll pcx pcz dist s)) (key2 cx cz)) eqn:Hl; [|reflexivity].
    apply loadAll_has_inv in Hl as [Hl|(x & z & Hx & Hz & Heq)]; [congruence|].
    apply key2_inj in Heq as [-> ->]. lia.
Qed.

Lemma playerChunk_ext s s' : playerPos s' = playerPos s -> playerChunk s' = playerChunk s.
Proof. unfold playerChunk. intros ->. reflexivity. Qed.

Lemma loadChunk_frame cx cz s :
  playerPos (loadChunk Math_sin cx cz s) = playerPos s
  /\ settings (loadChunk Math_sin cx cz s) = settings s.
Proof. unfold loadChunk. destruct (negb _); split; reflexivity. Qed.

Lemma loadAll_frame pcx pcz dist s :
  playerPos (loadAll pcx pcz dist s) = playerPos s
  /\ settings (loadAll pcx pcz dist s) = settings s.
Proof.
  unfold Spec.loadAll.
  set (P := fun s' : GameEngine => playerPos s' = playerPos s /\ settings s' = settings s).
  apply (for_range_inv P); [split; reflexivity|].
  intros x s1 _ H1. apply (for_range_inv P); [exact H1|].
  intros z s2 _ [H2 H3]. unfold P.
  destruct (loadChunk_frame (pcx + x) (pcz + z) s2) as [-> ->].
  split; assumption.
Qed.

Lemma evictAll_frame pcx pcz dist l s :
  playerPos (evictAll pcx pcz dist l s) = playerPos s
  /\ settings (evictAll pcx pcz dist l s) = settings s.
Proof.
  unfold evictAll.
  apply (fold_left_inv (fun s' => playerPos s' = playerPos s /\ settings s' = settings s));
    [split; reflexivity|].
  intros key s' _ [H1 H2]. unfold evictChunk. destruct (parse2 key) as [a b].
  destruct (_ || _); split; assumption.
Qed.

(** What is left in the store after the evictions is not far. *)
Lemma evictAll_keys pcx pcz dist l s k :
  In k (JSMap.keys (chunks (evictAll pcx pcz dist l s))) ->
  In k (JSMap.keys (chunks s)) /\ (In k l -> far pcx pcz dist k = false).
Proof.
  revert s. induction l as [|a l IH]; intros s Hin; [split; [exact Hin|intros []]|].
  unfold evictAll in Hin. cbn [fold_left] in Hin.
  apply IH in Hin as [Hin Hl]. rewrite evictChunk_chunks in Hin.
  destruct (far pcx pcz dist a) eqn:Ha.
  - rewrite keys_delete in Hin. apply filter_In in Hin as [Hin Hne].
    split; [exact Hin|]. intros [->|Hk]; [|auto].
    rewrite String.eqb_refl in Hne. discriminate.
  - split; [exact Hin|]. intros [->|Hk]; auto.
Qed.

Lemma evictAll_id pcx pcz dist l s :
  (forall k, In k l -> far pcx pcz dist k = false) ->
  evictAll pcx pcz dist l s = s.
Proof.
  revert s. induction l as [|a l IH]; intros s H; [reflexivity|].
  unfold evictAll. cbn [fold_left].
  assert (Ha : evictChunk pcx pcz dist a s = s).
  { pose proof (H a (or_introl eq_refl)) as Hfar. unfold far in Hfar.
    unfold evictChunk. destruct (parse2 a) as [u v]. rewrite Hfar. reflexivity. }
  rewrite Ha. apply IH. intros k Hk. apply H. right. exact Hk.
Qed.

Lemma loadAll_id pcx pcz dist s :
  (forall x z, - dist <= x <= dist -> - dist <= z <= dist ->
     JSMap.has (chunks s) (key2 (pcx + x) (pcz + z)) = true) ->
  loadAll pcx pcz dist s = s.
Proof.
  intros H. unfold Spec.loadAll.
  apply for_range_id. intros x Hx. apply for_range_id. intros z Hz.
  unfold loadChunk. rewrite H by lia. reflexivity.
Qed.

(** X4. A second pass of [updateWorldChunks] with the player in the same
    place changes nothing: no chunk is generated again, none is dropped,
    and no draw of [Math.random] is taken. *)
Theorem second_pass_changes_nothing (s : GameEngine) :
  updateWorldChunks Math_sin (updateWorldChunks Math_sin s)
  = updateWorldChunks Math_sin s.
Proof.
  rewrite (updateWorldChunks_unfold Math_sin (updateWorldChunks Math_sin s)). cbv zeta.
  assert (Hpc : playerChunk (updateWorldChunks Math_sin s) = playerChunk s
                /\ settings (updateWorldChunks Math_sin s) = settings s).
  { rewrite updateWorldChunks_unfold. cbv zeta.
    destruct (evictAll_frame (fst (playerChunk s)) (snd (playerChunk s))
                (renderDistance (settings s))
                (JSMap.keys (chunks (loadAll (fst (playerChunk s)) (snd (playerChunk s))
                   (renderDistance (settings s)) s)))
                (loadAll (fst (playerChunk s)) (snd (playerChunk s))
                   (renderDistance (settings s)) s)) as [Hp Hs].
    destruct (loadAll_frame (fst (playerChunk s)) (snd (playerChunk s))
                (renderDistance (settings s)) s) as [Hp' Hs'].
    split; [apply playerChunk_ext; rewrite Hp; exact Hp'|].
    rewrite Hs. exact Hs'. }
  destruct Hpc as [-> ->].
  set (pcx := fst (playerChunk s)). set (pcz := snd (playerChunk s)).
  set (dist := renderDistance (settings s)).
  set (s' := updateWorldChunks Math_sin s).
  assert (Hload : loadAll pcx pcz dist s' = s').
  { apply loadAll_id. intros x z Hx Hz. subst s'.
    rewrite updateWorldChunks_unfold. cbv zeta. fold pcx pcz dist.
    rewrite evictAll_keeps by (rewrite far_key2; apply orb_false_iff; split; lia).
    apply loadAll_has; assumption. }
  rewrite Hload. apply evictAll_id. intros k Hk. subst s'.
  rewrite updateWorldChunks_unfold in Hk. cbv zeta in Hk. fold pcx pcz dist in Hk.
  pose proof Hk as Hk'. apply evictAll_keys in Hk' as [Hin Hfar]. apply Hfar. exact Hin.
Qed.

End Pass.

Lemma band_is_left_alone_witness :
  JSMap.has (chunks (updateWorldChunks noSin bandEngine)) (key2 4 0)
  = JSMap.has (chunks bandEngine) (key2 4 0).
Proof.
  apply (band_is_left_alone noSin bandEngine 4 0); vm_compute; congruence.
Defined.

End StreamingProps.

(** ** What the fluid step does and leaves alone *)

Module FluidProps.
Import Terms MoreExamples.
Import Key Chunk Engine Spec KeyFacts NumFacts JSMapFacts TypedArrayFacts EngineFacts Examples.
Import Overlay FluidQueue FluidFacts FluidGuards.

Lemma flowWrites_floods top s s' : flowWrites top s s' -> onlyFloods s s'.
Proof. intros H x y z Hne. destruct (H x y z Hne) as (H1 & H2 & H3 & _). auto. Qed.

Lemma onlyFloods_refl s : onlyFloods s s.
Proof. intros x y z H. congruence. Qed.

Lemma onlyFloods_trans s1 s2 s3 :
  onlyFloods s1 s2 -> onlyFloods s2 s3 -> onlyFloods s1 s3.
Proof.
  intros H12 H23 x y z Hne.
  destruct (Z.eq_dec (getBlock s2 x y z) (getBlock s1 x y z)) as [E|E].
  - rewrite <- E in Hne |- *. apply H23. exact Hne.
  - destruct (H12 x y z E) as (Hf & Hw & Hb).
    destruct (Z.eq_dec (getBlock s3 x y z) (getBlock s2 x y z)) as [E'|E'].
    + rewrite E'. auto.
    + destruct (H23 x y z E') as (_ & Hw' & _). rewrite Hf in Hw'. discriminate.
Qed.

Lemma fluidStep_floods s : onlyFloods s (fluidStep s).
Proof.
  destruct (fluidQueue s) as [|[[x y] z] rest] eqn:Hq.
  - unfold fluidStep. rewrite Hq. apply onlyFloods_refl.
  - apply (flowWrites_floods y). apply (fluidStep_writes s x y z rest Hq).
Qed.

Lemma fluidLoop_floods n s : onlyFloods s (fluidLoop n s).
Proof.
  revert s. induction n as [|n IH]; intros s; [apply onlyFloods_refl|].
  cbn [fluidLoop]. destruct (fluidQueue s); [apply onlyFloods_refl|].
  eapply onlyFloods_trans; [apply fluidStep_floods|apply IH].
Qed.

(** X5. What the flow rules never do. A turn of the loop of
    [processFluids] for the cell (x, y, z) changes a cell only by writing
    flowing water into it, only if it held neither water nor bedrock, and
    only at height y or below; and over a whole call of [processFluids]
    every cell that changed turned into flowing water and held neither
    water nor bedrock before. *)
Theorem flow_never_overwrites_water_or_bedrock (s : GameEngine) :
  (forall x y z rest,
      fluidQueue s = (x, y, z) :: rest ->
      forall a b c,
        getBlock (fluidStep s) a b c <> getBlock s a b c ->
        getBlock (fluidStep s) a b c = FLOWING_WATER
        /\ isWater (getBlock s a b c) = false
        /\ getBlock s a b c <> BEDROCK
        /\ b <= y)
  /\ (forall a b c,
        getBlock (processFluids s) a b c <> getBlock s a b c ->
        getBlock (processFluids s) a b c = FLOWING_WATER
        /\ isWater (getBlock s a b c) = false
        /\ getBlock s a b c <> BEDROCK).
Proof.
  split.
  - intros x y z rest Hq a b c. apply (fluidStep_writes s x y z rest Hq).
  - intros a b c. apply (fluidLoop_floods batchSize s).
Qed.

Lemma flow_never_overwrites_water_or_bedrock_witness :
  getBlock (fluidStep Examples.wetEngine) 5 4 5 = FLOWING_WATER
  /\ isWater (getBlock Examples.wetEngine 5 4 5) = false
  /\ getBlock Examples.wetEngine 5 4 5 <> BEDROCK
  /\ 4 <= 5.
Proof.
  assert (Hsrc : isWater (getBlock Examples.wetEngine 5 5 5) = true)
    by (vm_compute; reflexivity).
  assert (Hbelow : getBlock Examples.wetEngine 5 (5 - 1) 5 = GRASS)
    by (vm_compute; reflexivity).
  apply (proj1 (flow_never_overwrites_water_or_bedrock Examples.wetEngine) 5 5 5 []).
  - reflexivity.
  - destruct (FluidFacts.flow_down_replaces_solid Examples.wetEngine 5 5 5 GRASS []
                FluidFacts.wetEngine_sized eq_refl Hsrc Hbelow FluidFacts.grass_solid)
      as [E _].
    change (5 - 1) with 4 in E, Hbelow. rewrite E, Hbelow. discriminate.
Defined.

(** X6. The random tick only dries cells up: after [randomTick] every cell
    reads as before or reads air, whatever [Math.random] draws. *)
Theorem random_tick_only_clears (s : GameEngine) (x y z : Z) :
  getBlock (randomTick s) x y z = getBlock s x y z
  \/ getBlock (randomTick s) x y z = AIR.
Proof. apply randomTick_clears. Qed.

Lemma fluidStep_not_water s x y z rest :
  fluidQueue s = (x, y, z) :: rest ->
  isWater (getBlock s x y z) = false ->
  fluidStep s = dequeued (x, y, z) rest s.
Proof.
  intros Hq Hw. unfold fluidStep. rewrite Hq. cbv zeta. unfold fluidCell.
  change (getBlock (set_fluidQueueSet _ (set_fluidQueue rest s)) x y z)
    with (getBlock s x y z).
  unfold isWater in Hw. rewrite Hw. reflexivity.
Qed.

(** X7. A queued coordinate whose chunk is not resident is taken off the
    queue and not put back: the turn of the loop changes nothing but the
    queue and its set, and the queue is left with the entries behind it. *)
Theorem unloaded_entry_is_dropped (s : GameEngine) (x y z : Z) (rest : list Coord) :
  fluidQueue s = (x, y, z) :: rest ->
  JSMap.has (chunks s) (key2 (chunkCoord x) (chunkCoord z)) = false ->
  fluidStep s = dequeued (x, y, z) rest s
  /\ fluidQueue (fluidStep s) = rest
  /\ chunks (fluidStep s) = chunks s
  /\ modifiedBlocks (fluidStep s) = modifiedBlocks s.
Proof.
  intros Hq Hres.
  assert (Hair : getBlock s x y z = AIR).
  { unfold getBlock. unfold JSMap.has in Hres.
    destruct (JSMap.get _ _); [discriminate|reflexivity]. }
  assert (E : fluidStep s = dequeued (x, y, z) rest s).
  { apply fluidStep_not_water; [exact Hq|]. rewrite Hair. reflexivity. }
  rewrite E. repeat split.
Qed.

Lemma unloaded_entry_is_dropped_witness :
  fluidStep strayEngine = dequeued (100, 5, 100) [] strayEngine
  /\ fluidQueue (fluidStep strayEngine) = []
  /\ chunks (fluidStep strayEngine) = chunks strayEngine
  /\ modifiedBlocks (fluidStep strayEngine) = modifiedBlocks strayEngine.
Proof.
  apply (unloaded_entry_is_dropped strayEngine 100 5 100 []).
  - reflexivity.
  - vm_compute. reflexivity.
Defined.



Lemma schedule_In x y z s :
  queueInv s -> In (x, y, z) (fluidQueue (scheduleFluidUpdate x y z s)).
Proof.
  intros [_ Hset]. unfold scheduleFluidUpdate.
  destruct (decide (key3 x y z ∈ fluidQueueSet s)) as [Hin|Hout].
  - rewrite Hset in Hin. apply elem_of_list_to_set in Hin.
    apply list_elem_of_fmap in Hin as (c & Hc & Hin).
    change (key3 x y z) with (coordKey (x, y, z)) in Hc.
    apply (inj coordKey) in Hc. subst c. apply list_elem_of_In. exact Hin.
  - cbn [fluidQueue set_fluidQueue set_fluidQueueSet]. apply in_or_app. right. left.
    reflexivity.
Qed.

Lemma appended_In s s' c : appended s s' -> In c (fluidQueue s) -> In c (fluidQueue s').
Proof. intros [added ->] H. apply in_or_app. left. exact H. Qed.

(** X9. Water falls into air. When the loop of [processFluids] handles a
    water cell above the floor of the world whose cell below reads air,
    that cell holds flowing water after the turn and is waiting in the
    queue. *)
Theorem water_falls_into_air (s : GameEngine) (x y z : Z) (rest : list Coord) :
  storeSized s ->
  queueInv s ->
  fluidQueue s = (x, y, z) :: rest ->
  isWater (getBlock s x y z) = true ->
  y > 0 ->
  getBlock s x (y - 1) z = AIR ->
  getBlock (fluidStep s) x (y - 1) z = FLOWING_WATER
  /\ In (x, y - 1, z) (fluidQueue (fluidStep s)).
Proof.
  intros Hs Hinv Hq Hw Hy Hair.
  assert (Hres : JSMap.has (chunks s) (key2 (chunkCoord x) (chunkCoord z)) = true
                 /\ 0 <= y < CHUNK_HEIGHT).
  { apply (resident_of_block s x y z). intros E. rewrite E in Hw. discriminate. }
  destruct Hres as [Hres Hrange].
  unfold fluidStep. rewrite Hq. cbv zeta.
  set (s' := set_fluidQueueSet _ (set_fluidQueue rest s)).
  assert (Hinv' : queueInv s') by (apply dequeue_inv; assumption).
  assert (Hs' : storeSized s') by exact Hs.
  assert (Hdown : flowDown x y z s'
                  = scheduleFluidUpdate x (y - 1) z (setBlock x (y - 1) z FLOWING_WATER s')).
  { unfold flowDown. replace (y >? 0) with true by (symmetry; apply Z.gtb_lt; lia).
    change (getBlock s' x (y - 1) z) with (getBlock s x (y - 1) z).
    rewrite Hair. reflexivity. }
  assert (Hcell1 : getBlock (flowDown x y z s') x (y - 1) z = FLOWING_WATER).
  { rewrite Hdown, getBlock_schedule.
    apply (getBlock_setBlock_same x (y - 1) z FLOWING_WATER s');
      [exact Hs'|exact Hres|unfold CHUNK_HEIGHT in *; lia]. }
  assert (Hcell2 : In (x, y - 1, z) (fluidQueue (flowDown x y z s'))).
  { rewrite Hdown. apply schedule_In.
    apply (queueInv_ext s'); [symmetry; apply setBlock_queueOf|exact Hinv']. }
  unfold fluidCell.
  change (getBlock s' x y z) with (getBlock s x y z).
  unfold isWater in Hw. rewrite Hw.
  destruct (getBlock s x y z =? WATER).
  - split; [apply flowSideways_keeps; exact Hcell1|].
    eapply appended_In; [apply flowSideways_spec|exact Hcell2].
  - split; assumption.
Qed.

Lemma water_falls_into_air_witness :
  getBlock (fluidStep (set_chunks
     [(key2 0 0, mkChunkEntry (TypedArray.set_u8 flatData (cellIndex 5 9 5) WATER) None)]
     (set_fluidQueueSet {[ key3 5 9 5 ]} (set_fluidQueue [(5, 9, 5)] emptyEngine))))
     5 (9 - 1) 5 = FLOWING_WATER
  /\ In (5, 9 - 1, 5) (fluidQueue (fluidStep (set_chunks
     [(key2 0 0, mkChunkEntry (TypedArray.set_u8 flatData (cellIndex 5 9 5) WATER) None)]
     (set_fluidQueueSet {[ key3 5 9 5 ]} (set_fluidQueue [(5, 9, 5)] emptyEngine))))).
Proof.
  apply (water_falls_into_air _ 5 9 5 []).
  - apply (single_chunk_sized _ (key2 0 0)
             (TypedArray.set_u8 flatData (cellIndex 5 9 5) WATER) None); [|reflexivity].
    unfold sized. rewrite length_set_u8. apply generateChunkData_sized.
  - split; [apply NoDup_singleton|].
    change (({[ key3 5 9 5 ]} : gset string) = {[ key3 5 9 5 ]} ∪ ∅).
    symmetry. apply union_empty_r_L.
  - reflexivity.
  - vm_compute. reflexivity.
  - lia.
  - vm_compute. reflexivity.
Defined.

End FluidProps.

(** ** Breaking blocks *)

Module BreakProps.
Import Terms MoreExamples.
Import Key Chunk Engine Spec KeyFacts NumFacts JSMapFacts TypedArrayFacts EngineFacts Examples.
Import Mining Overlay FluidQueue FluidFacts FluidGuards.

Lemma schedule_frame x y z s :
  chunks (scheduleFluidUpdate x y z s) = chunks s
  /\ modifiedBlocks (scheduleFluidUpdate x y z s) = modifiedBlocks s
  /\ droppedItems (scheduleFluidUpdate x y z s) = droppedItems s
  /\ gameMode (scheduleFluidUpdate x y z s) = gameMode s
  /\ random (scheduleFluidUpdate x y z s) = random s.
Proof. unfold scheduleFluidUpdate. destruct (decide _); repeat split. Qed.

(** The state of [breakBlock] after the write and the five schedules. *)
Lemma breakBlock_cleared x y z s :
  let s1 := scheduleFluidUpdate x y (z - 1)
              (scheduleFluidUpdate x y (z + 1)
                 (scheduleFluidUpdate (x - 1) y z
                    (scheduleFluidUpdate (x + 1) y z
                       (scheduleFluidUpdate x (y + 1) z (setBlock x y z AIR s))))) in
  (forall a b c, getBlock s1 a b c = getBlock (setBlock x y z AIR s) a b c)
  /\ droppedItems s1 = droppedItems s
  /\ gameMode s1 = gameMode s.
Proof.
  cbv zeta. split; [intros a b c; rewrite !getBlock_schedule; reflexivity|].
  destruct (setBlock_rest x y z AIR s) as (_ & _ & _ & _ & _ & _ & Hd & _ & _ & _ & _ & _ & _ & _ & Hg & _).
  repeat match goal with
  | |- context [scheduleFluidUpdate ?a ?b ?c ?t] =>
      destruct (schedule_frame a b c t) as (_ & _ & -> & -> & _)
  end.
  split; assumption.
Qed.

Lemma newDroppedItem_spec type p s :
  d_type (fst (newDroppedItem type p s)) = type
  /\ d_position (fst (newDroppedItem type p s)) = p
  /\ droppedItems (snd (newDroppedItem type p s)) = droppedItems s
  /\ (forall a b c, getBlock (snd (newDroppedItem type p s)) a b c = getBlock s a b c).
Proof.
  unfold newDroppedItem, Math_random.
  destruct (Random.next (random s)) as [u1 r1]. cbn [random set_random].
  destruct (Random.next r1) as [u2 r2]. cbn [fst snd d_type d_position].
  repeat split.
Qed.

Lemma breakBlock_clears_and_drops_aux (s : GameEngine) (x y z : Z) :
  storeSized s ->
  JSMap.has (chunks s) (key2 (chunkCoord x) (chunkCoord z)) = true ->
  0 <= y < CHUNK_HEIGHT ->
  getBlock (breakBlock x y z s) x y z = AIR
  /\ (gameMode s = Creative -> droppedItems (breakBlock x y z s) = droppedItems s).
Proof.
  intros Hs Hres Hy.
  destruct (breakBlock_cleared x y z s) as (Hget & Hdrops & Hmode).
  cbv zeta in Hget, Hdrops, Hmode.
  assert (Hair : getBlock (setBlock x y z AIR s) x y z = AIR).
  { rewrite (getBlock_setBlock_same x y z AIR s Hs Hres Hy). reflexivity. }
  unfold breakBlock. cbv zeta. rewrite Hmode.
  set (s1 := scheduleFluidUpdate x y (z - 1) _) in *.
  set (b := getBlock s x y z).
  set (dropType := if b =? GRASS then DIRT else _).
  set (p := (inject_Z x + 0.5, inject_Z y + 0.5, inject_Z z + 0.5)%Q).
  destruct (newDroppedItem_spec dropType p s1) as (Ht & Hp & Hd & Hg).
  destruct (newDroppedItem dropType p s1) as [drop s2]. cbn [fst snd] in Ht, Hp, Hd, Hg.
  split.
  - destruct (GameMode_eqb (gameMode s) Survival && negb (b =? AIR));
      [|rewrite Hget; exact Hair].
    destruct (negb (b =? WATER) && negb (b =? FLOWING_WATER));
      [|rewrite Hget; exact Hair].
    change (getBlock s2 x y z = AIR). rewrite Hg, Hget. exact Hair.
  - intros Hc. rewrite Hc. cbn [GameMode_eqb andb]. exact Hdrops.
Qed.

(** X10. Breaking a block. In a resident chunk and inside the vertical
    bound the cell reads air after [breakBlock]. In survival mode a block
    other than air and water leaves one dropped item at the centre of the
    cell: dirt for grass, coal for coal ore, cobblestone for stone, and the
    block itself otherwise. In creative mode, and for air and water,
    nothing is dropped. *)
Theorem breakBlock_clears_and_drops (s : GameEngine) (x y z : Z) :
  storeSized s ->
  JSMap.has (chunks s) (key2 (chunkCoord x) (chunkCoord z)) = true ->
  0 <= y < CHUNK_HEIGHT ->
  let b := getBlock s x y z in
  getBlock (breakBlock x y z s) x y z = AIR
  /\ (gameMode s = Survival -> b <> AIR -> isWater b = false ->
      exists drop,
        droppedItems (breakBlock x y z s) = droppedItems s ++ [drop]
        /\ d_type drop = (if b =? GRASS then DIRT
                          else if b =? COAL_ORE then COAL
                          else if b =? STONE then COBBLESTONE else b)
        /\ d_position drop
           = (inject_Z x + 0.5, inject_Z y + 0.5, inject_Z z + 0.5)%Q)
  /\ (gameMode s = Creative \/ b = AIR \/ isWater b = true ->
      droppedItems (breakBlock x y z s) = droppedItems s).
Proof.
  intros Hs Hres Hy b.
  destruct (breakBlock_cleared x y z s) as (Hget & Hdrops & Hmode).
  cbv zeta in Hget, Hdrops, Hmode.
  assert (Hair : getBlock (setBlock x y z AIR s) x y z = AIR).
  { rewrite (getBlock_setBlock_same x y z AIR s Hs Hres Hy). reflexivity. }
  unfold breakBlock. cbv zeta. fold b. rewrite Hmode.
  set (s1 := scheduleFluidUpdate x y (z - 1) _) in *.
  set (dropType := if b =? GRASS then DIRT else _).
  set (p := (inject_Z x + 0.5, inject_Z y + 0.5, inject_Z z + 0.5)%Q).
  destruct (newDroppedItem_spec dropType p s1) as (Ht & Hp & Hd & Hg).
  destruct (newDroppedItem dropType p s1) as [drop s2]. cbn [fst snd] in Ht, Hp, Hd, Hg.
  split; [|split].
  - destruct (GameMode_eqb (gameMode s) Survival && negb (b =? AIR));
      [|rewrite Hget; exact Hair].
    destruct (negb (b =? WATER) && negb (b =? FLOWING_WATER));
      [|rewrite Hget; exact Hair].
    change (getBlock s2 x y z = AIR). rewrite Hg, Hget. exact Hair.
  - intros Hsurv Hne Hw. rewrite Hsurv.
    replace (b =? AIR) with false by (symmetry; apply Z.eqb_neq; exact Hne).
    unfold isWater in Hw. apply orb_false_iff in Hw as [-> ->].
    cbn [GameMode_eqb negb andb].
    exists drop. cbn [droppedItems set_droppedItems]. rewrite Hd, Hdrops, Ht, Hp.
    repeat split.
  - intros [Hc|[Hb|Hw]].
    + rewrite Hc. cbn [GameMode_eqb andb]. exact Hdrops.
    + rewrite Hb. cbn [Z.eqb AIR negb]. rewrite andb_false_r. exact Hdrops.
    + unfold isWater in Hw. destruct (_ && negb (b =? AIR)); [|exact Hdrops].
      apply orb_true_iff in Hw as [-> | ->]; cbn [negb andb];
        rewrite ?andb_false_r; exact Hdrops.
Qed.

Lemma breakBlock_clears_and_drops_witness :
  getBlock (breakBlock 5 4 5 flatEngine) 5 4 5 = AIR
  /\ (gameMode flatEngine = Survival -> getBlock flatEngine 5 4 5 <> AIR ->
      isWater (getBlock flatEngine 5 4 5) = false ->
      exists drop,
        droppedItems (breakBlock 5 4 5 flatEngine) = droppedItems flatEngine ++ [drop]
        /\ d_type drop = (if getBlock flatEngine 5 4 5 =? GRASS then DIRT
                          else if getBlock flatEngine 5 4 5 =? COAL_ORE then COAL
                          else if getBlock flatEngine 5 4 5 =? STONE then COBBLESTONE
                          else getBlock flatEngine 5 4 5)
        /\ d_position drop
           = (inject_Z 5 + 0.5, inject_Z 4 + 0.5, inject_Z 5 + 0.5)%Q)
  /\ (gameMode flatEngine = Creative \/ getBlock flatEngine 5 4 5 = AIR
      \/ isWater (getBlock flatEngine 5 4 5) = true ->
      droppedItems (breakBlock 5 4 5 flatEngine) = droppedItems flatEngine).
Proof.
  apply (breakBlock_clears_and_drops flatEngine 5 4 5).
  - exact flatEngine_sized.
  - reflexivity.
  - unfold CHUNK_HEIGHT. lia.
Defined.

Lemma startMining_creative raycast s hit bx by_ bz :
  gameMode s = Creative ->
  raycast s = Some hit ->
  targetOf hit = (bx, by_, bz) ->
  getBlock s bx by_ bz <> AIR ->
  getBlock s bx by_ bz <> BEDROCK ->
  startMining raycast s
  = set_breakingVisible false (set_isMining false
      (breakBlock bx by_ bz
         (set_breakingVisible true (set_miningProgress 0
            (set_miningBlock (Some (bx, by_, bz)) (set_isMining true s)))))).
Proof.
  intros Hmode Hray Htarget Hair Hbed.
  unfold startMining. rewrite Hray, Htarget.
  apply Z.eqb_neq in Hair, Hbed. rewrite Hair, Hbed.
  cbn [negb andb]. cbv zeta.
  change (gameMode (set_breakingVisible true (set_miningProgress 0
            (set_miningBlock (Some (bx, by_, bz)) (set_isMining true s)))))
    with (gameMode s).
  rewrite Hmode. cbn [GameMode_eqb negb]. rewrite andb_false_r. reflexivity.
Qed.

Lemma after_creative_break s s1 x y z :
  getBlock s1 x y z = AIR ->
  droppedItems s1 = droppedItems s ->
  getBlock (set_breakingVisible false (set_isMining false s1)) x y z = AIR
  /\ droppedItems (set_breakingVisible false (set_isMining false s1)) = droppedItems s
  /\ isMining (set_breakingVisible false (set_isMining false s1)) = false.
Proof. intros H1 H2. repeat split; assumption. Qed.

(** X11. In creative mode [startMining] breaks the block the ray points at
    at once, unless it is air or bedrock: the cell reads air, nothing is
    dropped and no mining is left in progress. *)
Theorem creative_mining_breaks_at_once (raycast : GameEngine -> option Intersection)
    (s : GameEngine) (hit : Intersection) (bx by_ bz : Z) :
  storeSized s ->
  gameMode s = Creative ->
  raycast s = Some hit ->
  targetOf hit = (bx, by_, bz) ->
  getBlock s bx by_ bz <> AIR ->
  getBlock s bx by_ bz <> BEDROCK ->
  getBlock (startMining raycast s) bx by_ bz = AIR
  /\ droppedItems (startMining raycast s) = droppedItems s
  /\ isMining (startMining raycast s) = false.
Proof.
  intros Hs Hmode Hray Htarget Hair Hbed.
  destruct (resident_of_block s bx by_ bz Hair) as [Hres Hy].
  rewrite (startMining_creative raycast s hit bx by_ bz Hmode Hray Htarget Hair Hbed).
  pose proof (breakBlock_clears_and_drops_aux
                (set_breakingVisible true (set_miningProgress 0
                   (set_miningBlock (Some (bx, by_, bz)) (set_isMining true s))))
                bx by_ bz Hs Hres Hy) as [Hclear Hdrop].
  apply after_creative_break; [exact Hclear|exact (Hdrop Hmode)].
Qed.

Lemma creative_grass_cell : getBlock creativeEngine 0 4 0 = GRASS.
Proof. vm_compute. reflexivity. Qed.

Lemma creative_mining_breaks_at_once_witness :
  getBlock (startMining hitGrass creativeEngine) 0 4 0 = AIR
  /\ droppedItems (startMining hitGrass creativeEngine) = droppedItems creativeEngine
  /\ isMining (startMining hitGrass creativeEngine) = false.
Proof.
  apply (creative_mining_breaks_at_once hitGrass creativeEngine
           (mkIntersection (0.5, 5, 0.5)%Q (0, 1, 0)%Q) 0 4 0).
  - apply (single_chunk_sized _ (key2 0 0) flatData None); [|reflexivity].
    unfold flatData. apply generateChunkData_sized.
  - reflexivity.
  - reflexivity.
  - vm_compute. reflexivity.
  - rewrite creative_grass_cell. discriminate.
  - rewrite creative_grass_cell. discriminate.
Defined.

End BreakProps.

(** ** Edits and the chunks that come and go *)

Module ReloadProps.
Import Terms MoreExamples.
Import Key Chunk Engine Spec KeyFacts NumFacts JSMapFacts TypedArrayFacts EngineFacts Examples.
Import Overlay Streaming FluidFacts.

Lemma In_set {V} (m : JSMap.t V) k v : In (k, v) (JSMap.set m k v).
Proof.
  induction m as [|[k' v'] m IH]; cbn [JSMap.set]; [left; reflexivity|].
  destruct (String.eqb k k'); [left; reflexivity|right; exact IH].
Qed.

Lemma chunk_extent v :
  chunkCoord v * CHUNK_SIZE <= v < (chunkCoord v + 1) * CHUNK_SIZE.
Proof.
  pose proof (world_split v) as H. pose proof (localCoord_range v) as Hr.
  unfold CHUNK_SIZE. lia.
Qed.

Section Reload.
Variable Math_sin : Q -> Q.

(** A chunk that is generated while the overlay holds an entry for one of
    its cells reads that entry there. *)
Lemma loadChunk_reads_overlay s x y z id :
  overlayWf (modifiedBlocks s) ->
  In (key3 x y z, id) (modifiedBlocks s) ->
  isBlockType id ->
  0 <= y < CHUNK_HEIGHT ->
  JSMap.has (chunks s) (key2 (chunkCoord x) (chunkCoord z)) = false ->
  getBlock (loadChunk Math_sin (chunkCoord x) (chunkCoord z) s) x y z = id.
Proof.
  intros Hwf Hin Hid Hy Hout. unfold loadChunk. rewrite Hout. cbn [negb]. cbv zeta.
  destruct (generateChunkData_shape Math_sin (chunkManager s) (chunkCoord x) (chunkCoord z)
              (seed s) (worldType s) (modifiedBlocks s) (random s))
    as (d & rest & Hd & Hgen).
  cbn [chunkManager seed worldType modifiedBlocks random set_random].
  rewrite Hgen. cbn [fst snd].
  unfold getBlock. cbn [chunks set_chunks]. rewrite get_set_eq. cbn [data].
  replace ((y <? 0) || (y >=? CHUNK_HEIGHT)) with false
    by (symmetry; apply orb_false_iff; unfold CHUNK_HEIGHT in *; lia).
  pose proof (chunk_extent x) as Hx. pose proof (chunk_extent z) as Hz.
  unfold isBlockType in Hid. unfold CHUNK_SIZE, CHUNK_HEIGHT in Hx, Hz, Hy.
  apply applyModifications_entry; auto; lia.
Qed.

(** X12. Edits survive unloading. A block written with [setBlock] into a
    resident chunk, inside the vertical bound, is read again at its place
    after the chunk has been evicted and generated anew: the overlay brings
    it back, whatever the terrain generator writes there. *)
Theorem edit_survives_reload (s : GameEngine) (x y z id pcx pcz dist : Z) :
  overlayWf (modifiedBlocks s) ->
  JSMap.has (chunks s) (key2 (chunkCoord x) (chunkCoord z)) = true ->
  0 <= y < CHUNK_HEIGHT ->
  isBlockType id ->
  Z.max (Z.abs (chunkCoord x - pcx)) (Z.abs (chunkCoord z - pcz)) > dist + 2 ->
  let edited := setBlock x y z id s in
  let evicted := evictChunk pcx pcz dist (key2 (chunkCoord x) (chunkCoord z)) edited in
  let reloaded := loadChunk Math_sin (chunkCoord x) (chunkCoord z) evicted in
  JSMap.has (chunks evicted) (key2 (chunkCoord x) (chunkCoord z)) = false
  /\ getBlock evicted x y z = AIR
  /\ getBlock reloaded x y z = id.
Proof.
  intros Hwf Hres Hy Hid Hfar edited evicted reloaded.
  assert (Hm : modifiedBlocks edited = JSMap.set (modifiedBlocks s) (key3 x y z) id).
  { subst edited. rewrite setBlock_modifiedBlocks. unfold JSMap.has in Hres.
    destruct (JSMap.get _ _); [reflexivity|discriminate]. }
  assert (Hc : chunks evicted
               = JSMap.delete (chunks edited) (key2 (chunkCoord x) (chunkCoord z))).
  { subst evicted. rewrite evictChunk_chunks, far_key2.
    replace ((Z.abs (chunkCoord x - pcx) >? dist + 2)
             || (Z.abs (chunkCoord z - pcz) >? dist + 2)) with true; [reflexivity|].
    symmetry. apply orb_true_iff. lia. }
  assert (Hm' : modifiedBlocks evicted = modifiedBlocks edited).
  { subst evicted. unfold evictChunk. destruct (parse2 _) as [a b].
    destruct (_ || _); reflexivity. }
  assert (Hout : JSMap.has (chunks evicted) (key2 (chunkCoord x) (chunkCoord z)) = false).
  { rewrite Hc. apply has_delete_eq. }
  split; [exact Hout|]. split.
  - unfold getBlock. unfold JSMap.has in Hout.
    destruct (JSMap.get (chunks evicted) _); [discriminate|reflexivity].
  - subst reloaded. apply loadChunk_reads_overlay.
    + rewrite Hm', Hm. apply overlayWf_set. exact Hwf.
    + rewrite Hm', Hm. apply In_set.
    + exact Hid.
    + exact Hy.
    + exact Hout.
Qed.

End Reload.

Lemma edit_survives_reload_witness :
  JSMap.has (chunks (evictChunk 9 0 2 (key2 (chunkCoord 5) (chunkCoord 5))
                       (setBlock 5 70 5 BRICK flatEngine)))
    (key2 (chunkCoord 5) (chunkCoord 5)) = false
  /\ getBlock (evictChunk 9 0 2 (key2 (chunkCoord 5) (chunkCoord 5))
                 (setBlock 5 70 5 BRICK flatEngine)) 5 70 5 = AIR
  /\ getBlock (loadChunk noSin (chunkCoord 5) (chunkCoord 5)
                 (evictChunk 9 0 2 (key2 (chunkCoord 5) (chunkCoord 5))
                    (setBlock 5 70 5 BRICK flatEngine))) 5 70 5 = BRICK.
Proof.
  apply (edit_survives_reload noSin flatEngine 5 70 5 BRICK 9 0 2).
  - exact overlayWf_empty.
  - reflexivity.
  - unfold CHUNK_HEIGHT. lia.
  - unfold isBlockType, BRICK. lia.
  - vm_compute. reflexivity.
Defined.

End ReloadProps.

(** ** The inventory *)

Module InventoryProps.
Import Terms MoreExamples.
Import Engine Inventory Terms.

Lemma held_cons id s inv : held id (s :: inv) = worth id s + held id inv.
Proof.
  unfold held, worth. cbn [fold_right]. destruct s as [it|]; [|reflexivity].
  destruct (Engine.id it =? id); reflexivity.
Qed.

Lemma held_app id a b : held id (a ++ b) = held id a + held id b.
Proof.
  induction a as [|s a IH]; [reflexivity|].
  cbn [app]. rewrite !held_cons, IH. lia.
Qed.

Lemma held_holes id n : held id (replicate n None) = 0.
Proof.
  induction n as [|n IH]; [reflexivity|]. cbn [replicate]. rewrite held_cons, IH. reflexivity.
Qed.

Lemma slot_beyond inv i : (List.length inv <= i)%nat -> slot inv i = None.
Proof. intros H. unfold slot. rewrite lookup_ge_None_2 by exact H. reflexivity. Qed.

Lemma held_insert id inv i v :
  (i < List.length inv)%nat ->
  held id (<[ i := v ]> inv) = held id inv - worth id (slot inv i) + worth id v.
Proof.
  revert i. induction inv as [|s inv IH]; intros i Hi; [cbn in Hi; lia|].
  destruct i as [|i].
  - change (<[0%nat:=v]> (s :: inv)) with (v :: inv).
    change (slot (s :: inv) 0) with s. rewrite !held_cons. lia.
  - change (<[S i:=v]> (s :: inv)) with (s :: <[i:=v]> inv).
    change (slot (s :: inv) (S i)) with (slot inv i).
    rewrite !held_cons, IH by (cbn in Hi; lia). lia.
Qed.

Lemma held_put id inv i v :
  held id (put inv i v) = held id inv - worth id (slot inv i) + worth id v.
Proof.
  unfold put. destruct (Nat.ltb_spec i (List.length inv)) as [Hi|Hi].
  - apply held_insert. exact Hi.
  - rewrite !held_app, held_holes, held_cons, (slot_beyond inv i Hi).
    change (held id []) with 0. cbn [worth]. lia.
Qed.

Lemma slot_put inv i v j :
  slot (put inv i v) j = if Nat.eqb j i then v else slot inv j.
Proof.
  unfold put, slot. destruct (Nat.ltb_spec i (List.length inv)) as [Hi|Hi].
  - destruct (Nat.eqb_spec j i) as [->|Hne].
    + rewrite list_lookup_insert_eq by exact Hi. reflexivity.
    + rewrite list_lookup_insert_ne by congruence. reflexivity.
  - destruct (Nat.eqb_spec j i) as [->|Hne].
    + rewrite lookup_app_r by exact Hi.
      rewrite lookup_app_r by (rewrite length_replicate; lia).
      rewrite length_replicate.
      replace (i - List.length inv - (i - List.length inv))%nat with 0%nat by lia.
      reflexivity.
    + destruct (Nat.lt_ge_cases j (List.length inv)) as [Hj|Hj].
      * rewrite lookup_app_l by exact Hj. reflexivity.
      * rewrite lookup_app_r by exact Hj. rewrite (lookup_ge_None_2 inv j Hj).
        destruct (Nat.lt_ge_cases (j - List.length inv) (i - List.length inv)) as [Hh|Hh].
        -- rewrite lookup_app_l by (rewrite length_replicate; exact Hh).
           rewrite lookup_replicate_2 by exact Hh. reflexivity.
        -- rewrite lookup_app_r by (rewrite length_replicate; exact Hh).
           rewrite length_replicate.
           destruct (j - List.length inv - (i - List.length inv))%nat as [|k] eqn:E;
             [lia|]. reflexivity.
Qed.

Lemma stackStep_stacking id count inv st i :
  stacking id count inv st -> stacking id count inv (stackStep id st i).
Proof.
  destruct st as [[inv' c] stop]. intros (Hother & Hsum & Hc & Hfree).
  assert (Hsame : forall b, stacking id count inv (inv', c, b)).
  { intros b. split; [exact Hother|]. split; [exact Hsum|]. split; [exact Hc|exact Hfree]. }
  unfold stackStep. destruct stop; [apply Hsame|].
  destruct (slot inv' i) as [it|] eqn:Hi; [|apply Hsame].
  destruct (Z.eqb_spec (Engine.id it) id) as [Hid|Hid]; cbn [andb]; [|apply Hsame].
  destruct (Z.ltb_spec (Engine.count it) 64) as [Hroom|Hroom]; [|apply Hsame].
  cbv zeta. unfold stacking.
  set (add := Z.min (64 - Engine.count it) c).
  assert (Hadd : 0 <= add <= c) by (subst add; lia).
  split; [|split; [|split]].
  - intros id' Hne. rewrite held_put, Hi. cbn [worth Engine.id].
    replace (Engine.id it =? id') with false by (symmetry; apply Z.eqb_neq; congruence).
    rewrite Hother by exact Hne. lia.
  - rewrite held_put, Hi. cbn [worth Engine.id Engine.count].
    replace (Engine.id it =? id) with true by (symmetry; apply Z.eqb_eq; exact Hid).
    lia.
  - lia.
  - intros j. rewrite slot_put. destruct (Nat.eqb_spec j i) as [->|Hne]; [|apply Hfree].
    rewrite <- Hfree, Hi. split; discriminate.
Qed.

Lemma stackLoop_stacking id count inv l :
  0 <= count ->
  stacking id count inv (fold_left (stackStep id) l (inv, count, false)).
Proof.
  intros Hc.
  assert (H0 : stacking id count inv (inv, count, false)).
  { split; [reflexivity|]. split; [reflexivity|]. split; [lia|reflexivity]. }
  revert H0. generalize (inv, count, false) as st.
  induction l as [|i l IH]; intros st H0; [exact H0|].
  cbn [fold_left]. apply IH, stackStep_stacking, H0.
Qed.

Lemma emptyLoop_stopped id l inv c :
  fold_left (emptyStep id) l (inv, c, true) = (inv, c, true).
Proof. induction l as [|i l IH]; [reflexivity|]. cbn [fold_left emptyStep]. exact IH. Qed.

(** The second loop fills the first free slot it meets, if it meets one. *)
Lemma emptyLoop_spec id l inv c :
  (Forall (fun i => slot inv i <> None) l
   /\ fold_left (emptyStep id) l (inv, c, false) = (inv, c, false))
  \/ (exists i, In i l /\ slot inv i = None
       /\ fold_left (emptyStep id) l (inv, c, false)
          = (put inv i (Some (mkItemStack id c)), 0, true)).
Proof.
  induction l as [|i l IH]; [left; split; [constructor|reflexivity]|].
  cbn [fold_left].
  change (emptyStep id (inv, c, false) i)
    with (match slot inv i with
          | Some _ => (inv, c, false)
          | None => (put inv i (Some (mkItemStack id c)), 0, true)
          end).
  destruct (slot inv i) as [it|] eqn:Hi.
  - destruct IH as [[Hall Hr]|(j & Hj & Hfree & Hr)].
    + left. split; [|exact Hr]. constructor; [congruence|exact Hall].
    + right. exists j. split; [right; exact Hj|]. split; assumption.
  - right. exists i. split; [left; reflexivity|]. split; [exact Hi|].
    apply emptyLoop_stopped.
Qed.

Lemma stackLoop_idle id l inv c :
  (forall i it, In i l -> slot inv i = Some it ->
     Engine.id it = id -> Engine.count it < 64 -> False) ->
  fold_left (stackStep id) l (inv, c, false) = (inv, c, false).
Proof.
  induction l as [|i l IH]; intros H; [reflexivity|].
  cbn [fold_left].
  assert (Hstep : stackStep id (inv, c, false) i = (inv, c, false)).
  { unfold stackStep. destruct (slot inv i) as [it|] eqn:Hi; [|reflexivity].
    destruct (Z.eqb_spec (Engine.id it) id) as [Hid|Hid]; [|reflexivity].
    destruct (Z.ltb_spec (Engine.count it) 64) as [Hroom|Hroom]; [|reflexivity].
    exfalso. apply (H i it); auto. left. reflexivity. }
  rewrite Hstep. apply IH. intros j it Hj. apply H. right. exact Hj.
Qed.

Lemma in_seq_36 i : In i (seq 0 36) <-> (i < 36)%nat.
Proof. rewrite in_seq. lia. Qed.

(** X13. [addToInventory] loses nothing while there is room. Adding
    [count] items of a type leaves the items of every other type as they
    are and never takes items away; with a free slot among the 36 every
    item arrives; with no free slot and no stack of the type below 64 the
    inventory stays as it is and the items are lost. *)
Theorem addToInventory_counts (id count : Z) (inv : list (option ItemStack)) :
  0 <= count ->
  (forall id', id' <> id -> held id' (addToInventory id count inv) = held id' inv)
  /\ held id inv <= held id (addToInventory id count inv) <= held id inv + count
  /\ (hasFreeSlot inv -> held id (addToInventory id count inv) = held id inv + count)
  /\ (~ hasFreeSlot inv -> ~ hasOpenStack id inv -> addToInventory id count inv = inv).
Proof.
  intros Hc. unfold addToInventory.
  pose proof (stackLoop_stacking id count inv (seq 0 36) Hc) as Hst.
  destruct (fold_left (stackStep id) (seq 0 36) (inv, count, false))
    as [[inv1 c1] stop1] eqn:Hloop.
  destruct Hst as (Hother & Hsum & Hc1 & Hfree).
  destruct (Z.gtb_spec c1 0) as [Hpos|Hzero].
  - destruct (emptyLoop_spec id (seq 0 36) inv1 c1) as [[Hall Hr]|(i & Hi & Hnone & Hr)];
      rewrite Hr; cbn [fst].
    + split; [exact Hother|]. split; [lia|]. split.
      * intros (j & Hj & Hjfree). exfalso.
        rewrite List.Forall_forall in Hall. apply (Hall j); [apply in_seq_36; exact Hj|].
        apply Hfree. exact Hjfree.
      * intros Hfull Hclosed.
        rewrite stackLoop_idle in Hloop; [congruence|].
        intros j it Hj Hslot Hid Hroom. apply Hclosed. exists j, it.
        apply in_seq_36 in Hj. auto.
    + assert (Hheld : forall id', held id' (put inv1 i (Some (mkItemStack id c1)))
                        = held id' inv1 + worth id' (Some (mkItemStack id c1))).
      { intros id'. rewrite held_put, Hnone. cbn [worth]. lia. }
      split; [|split; [|split]].
      * intros id' Hne. rewrite Hheld, Hother by exact Hne. cbn [worth Engine.id].
        replace (id =? id') with false by (symmetry; apply Z.eqb_neq; congruence). lia.
      * rewrite Hheld. cbn [worth Engine.id Engine.count]. rewrite Z.eqb_refl. lia.
      * intros _. rewrite Hheld. cbn [worth Engine.id Engine.count]. rewrite Z.eqb_refl. lia.
      * intros Hfull. exfalso. apply Hfull. exists i.
        split; [apply in_seq_36; exact Hi|]. apply Hfree. exact Hnone.
  - assert (c1 = 0) by lia. subst c1.
    split; [exact Hother|]. split; [lia|]. split; [intros _; lia|].
    intros Hfull Hclosed.
    rewrite stackLoop_idle in Hloop; [congruence|].
    intros j it Hj Hslot Hid Hroom. apply Hclosed. exists j, it.
    apply in_seq_36 in Hj. auto.
Qed.

Lemma addToInventory_counts_witness :
  (forall id', id' <> DIRT ->
     held id' (addToInventory DIRT 70
                 (Some (mkItemStack DIRT 60) :: replicate 35 None))
     = held id' (Some (mkItemStack DIRT 60) :: replicate 35 None))
  /\ held DIRT (Some (mkItemStack DIRT 60) :: replicate 35 None)
     <= held DIRT (addToInventory DIRT 70 (Some (mkItemStack DIRT 60) :: replicate 35 None))
     <= held DIRT (Some (mkItemStack DIRT 60) :: replicate 35 None) + 70
  /\ (hasFreeSlot (Some (mkItemStack DIRT 60) :: replicate 35 None) ->
      held DIRT (addToInventory DIRT 70 (Some (mkItemStack DIRT 60) :: replicate 35 None))
      = held DIRT (Some (mkItemStack DIRT 60) :: replicate 35 None) + 70)
  /\ (~ hasFreeSlot (Some (mkItemStack DIRT 60) :: replicate 35 None) ->
      ~ hasOpenStack DIRT (Some (mkItemStack DIRT 60) :: replicate 35 None) ->
      addToInventory DIRT 70 (Some (mkItemStack DIRT 60) :: replicate 35 None)
      = Some (mkItemStack DIRT 60) :: replicate 35 None).
Proof. apply (addToInventory_counts DIRT 70). lia. Defined.

End InventoryProps.

(** ** The seeded draw of the decoration pass *)

Module RandProps.
Import Terms MoreExamples.
Import Key Chunk.

Lemma mod1_unit q : (0 <= q)%Q -> (0 <= mod1 q /\ mod1 q < 1)%Q.
Proof.
  intros Hq. unfold mod1, trunc.
  replace (Qle_bool 0 q) with true by (symmetry; apply Qle_bool_iff; exact Hq).
  pose proof (Qfloor_le q) as Hlo. pose proof (Qlt_floor q) as Hhi.
  rewrite inject_Z_plus in Hhi. split.
  - apply (Qplus_le_l _ _ (inject_Z (Qfloor q))). ring_simplify. exact Hlo.
  - apply (Qplus_lt_l _ _ (inject_Z (Qfloor q))). ring_simplify.
    exact Hhi.
Qed.

(** X14. The seeded draw [rand(x, z, seed)] that places plants and trees
    lies in [0, 1), whatever [Math.sin] returns. *)
Theorem rand_in_unit_interval (Math_sin : Q -> Q) (x z seed : Z) :
  (0 <= rand Math_sin x z seed /\ rand Math_sin x z seed < 1)%Q.
Proof. unfold rand. apply mod1_unit. apply Qabs_nonneg. Qed.

End RandProps.

(** ** The layers of a flat world *)

Module FlatProps.
Import Terms MoreExamples.
Import Num Block TypedArray Chunk NumFacts TypedArrayFacts Overlay.

(** A loop that writes its target at iteration [k] and leaves it alone at
    every other iteration, under an invariant the body keeps. *)
Lemma for_range_writes {S} (I Q : S -> Prop) lo hi k (body : Z -> S -> S) (s : S) :
  lo <= k < hi ->
  I s ->
  (forall i s', lo <= i < hi -> I s' -> I (body i s')) ->
  (forall s', I s' -> Q (body k s')) ->
  (forall i s', lo <= i < hi -> i <> k -> Q s' -> Q (body i s')) ->
  Q (for_range lo hi body s).
Proof.
  intros Hk Hs HI Hest Hkeep.
  rewrite (for_range_app lo k hi) by lia.
  rewrite (for_range_step k hi) by lia.
  apply for_range_inv.
  - apply Hest. apply for_range_inv; [exact Hs|].
    intros i s' Hi. apply HI. lia.
  - intros i s' Hi. apply Hkeep; lia.
Qed.

Lemma layerOf_byte y : 0 <= layerOf y < 256.
Proof.
  unfold layerOf. destruct (y =? 0); [vm_compute; split; congruence|].
  destruct (y <? 4); [vm_compute; split; congruence|].
  destruct (y =? 4); vm_compute; split; congruence.
Qed.

Lemma flatFill_cell d x y z :
  TypedArray.length d = CHUNK_SIZE * CHUNK_SIZE * CHUNK_HEIGHT ->
  0 <= x < CHUNK_SIZE -> 0 <= z < CHUNK_SIZE -> 0 <= y < CHUNK_HEIGHT ->
  get (flatFill d) (cellIndex x y z) = layerOf y.
Proof.
  intros Hd Hx Hz Hy. unfold flatFill.
  set (I := fun d' : Uint8Array => TypedArray.length d' = TypedArray.length d).
  set (Q := fun d' : Uint8Array => get d' (cellIndex x y z) = layerOf y).
  assert (Hcell : forall i j k d',
            get (if k =? 0 then set_u8 d' (i + j * CHUNK_SIZE + k * 256) BEDROCK
                 else if k <? 4 then set_u8 d' (i + j * CHUNK_SIZE + k * 256) DIRT
                 else if k =? 4 then set_u8 d' (i + j * CHUNK_SIZE + k * 256) GRASS
                 else set_u8 d' (i + j * CHUNK_SIZE + k * 256) AIR)
                (cellIndex x y z)
            = get (set_u8 d' (i + j * CHUNK_SIZE + k * 256) (layerOf k)) (cellIndex x y z)).
  { intros i j k d'. unfold layerOf.
    destruct (k =? 0); [reflexivity|]. destruct (k <? 4); [reflexivity|].
    destruct (k =? 4); reflexivity. }
  assert (Hlen : forall i j k d',
            TypedArray.length
              (if k =? 0 then set_u8 d' (i + j * CHUNK_SIZE + k * 256) BEDROCK
               else if k <? 4 then set_u8 d' (i + j * CHUNK_SIZE + k * 256) DIRT
               else if k =? 4 then set_u8 d' (i + j * CHUNK_SIZE + k * 256) GRASS
               else set_u8 d' (i + j * CHUNK_SIZE + k * 256) AIR)
            = TypedArray.length d').
  { intros i j k d'.
    destruct (k =? 0); [apply length_set_u8|]. destruct (k <? 4); [apply length_set_u8|].
    destruct (k =? 4); apply length_set_u8. }
  assert (Hother : forall i j k d',
            0 <= i < CHUNK_SIZE -> 0 <= j < CHUNK_SIZE -> 0 <= k < CHUNK_HEIGHT ->
            (i, j, k) <> (x, z, y) -> Q d' ->
            Q (if k =? 0 then set_u8 d' (i + j * CHUNK_SIZE + k * 256) BEDROCK
               else if k <? 4 then set_u8 d' (i + j * CHUNK_SIZE + k * 256) DIRT
               else if k =? 4 then set_u8 d' (i + j * CHUNK_SIZE + k * 256) GRASS
               else set_u8 d' (i + j * CHUNK_SIZE + k * 256) AIR)).
  { intros i j k d' Hi Hj Hk Hne HQ. unfold Q. rewrite Hcell.
    rewrite get_set_u8_ne; [exact HQ|].
    unfold cellIndex, CHUNK_SIZE, CHUNK_HEIGHT in *. intros E. apply Hne.
    assert (k = y) by lia. assert (j = z) by lia. assert (i = x) by lia.
    subst. reflexivity. }
  change (Q (for_range 0 CHUNK_SIZE (fun x0 data =>
    for_range 0 CHUNK_SIZE (fun z0 data0 =>
      for_range 0 CHUNK_HEIGHT (fun y0 data1 =>
        let idx := (x0 + z0 * CHUNK_SIZE + y0 * 256)%Z in
        if (y0 =? 0)%Z then TypedArray.set_u8 data1 idx BEDROCK
        else if (y0 <? 4)%Z then TypedArray.set_u8 data1 idx DIRT
        else if (y0 =? 4)%Z then TypedArray.set_u8 data1 idx GRASS
        else TypedArray.set_u8 data1 idx AIR) data0) data) d)).
  apply (for_range_writes I Q 0 CHUNK_SIZE x); [exact Hx|reflexivity| | |].
  - intros i d1 _ H1. unfold I in *. rewrite <- H1.
    apply for_range_length. intros j d2. apply for_range_length.
    intros k d3. apply Hlen.
  - intros d1 H1.
    apply (for_range_writes I Q 0 CHUNK_SIZE z); [exact Hz|exact H1| | |].
    + intros j d2 _ H2. unfold I in *. rewrite <- H2.
      apply for_range_length. intros k d3. apply Hlen.
    + intros d2 H2.
      apply (for_range_writes I Q 0 CHUNK_HEIGHT y); [exact Hy|exact H2| | |].
      * intros k d3 _ H3. unfold I in *. rewrite <- H3. apply Hlen.
      * intros d3 H3. unfold Q. cbv zeta. rewrite Hcell.
        apply get_set_u8_eq; [|apply layerOf_byte].
        unfold I in H3. rewrite H3, Hd.
        unfold cellIndex, CHUNK_SIZE, CHUNK_HEIGHT in *. lia.
      * intros k d3 Hk Hne HQ. cbv zeta. apply Hother; try assumption.
        intros E. apply Hne. congruence.
    + intros j d2 Hj Hne HQ.
      apply for_range_inv; [exact HQ|]. intros k d3 Hk HQ3. cbv zeta.
      apply Hother; try assumption. intros E. apply Hne. congruence.
  - intros i d1 Hi Hne HQ.
    apply for_range_inv; [exact HQ|]. intros j d2 Hj HQ2.
    apply for_range_inv; [exact HQ2|]. intros k d3 Hk HQ3. cbv zeta.
    apply Hother; try assumption. intros E. apply Hne. congruence.
Qed.

(** X15. A chunk of a flat world generated with an empty overlay is the same
    four layers at every column, whatever the chunk coordinates, the seed and
    the random source: bedrock at height 0, dirt at heights 1 to 3, grass at
    height 4 and air from height 5 up; the random source comes back unused. *)
Theorem flat_world_layers (Math_sin : Q -> Q) cm cx cz seed rnd x y z :
  0 <= x < CHUNK_SIZE -> 0 <= z < CHUNK_SIZE -> 0 <= y < CHUNK_HEIGHT ->
  let out := generateChunkData Math_sin cm cx cz seed Flat [] rnd in
  snd out = rnd
  /\ (y = 0 -> get (fst out) (cellIndex x y z) = BEDROCK)
  /\ (1 <= y <= 3 -> get (fst out) (cellIndex x y z) = DIRT)
  /\ (y = 4 -> get (fst out) (cellIndex x y z) = GRASS)
  /\ (5 <= y -> get (fst out) (cellIndex x y z) = AIR).
Proof.
  intros Hx Hz Hy out.
  assert (E : get (fst out) (cellIndex x y z) = layerOf y).
  { subst out. unfold generateChunkData. cbn [fst].
    unfold applyModifications. cbn [fold_left].
    apply flatFill_cell; [reflexivity|assumption..]. }
  split; [reflexivity|]. rewrite E. unfold layerOf.
  repeat split; intros H.
  - subst y. reflexivity.
  - destruct (Z.eqb_spec y 0); [lia|]. destruct (Z.ltb_spec y 4); [reflexivity|lia].
  - subst y. reflexivity.
  - destruct (Z.eqb_spec y 0); [lia|]. destruct (Z.ltb_spec y 4); [lia|].
    destruct (Z.eqb_spec y 4); [lia|reflexivity].
Qed.

Lemma flat_world_layers_witness :
  let out := generateChunkData Examples.noSin Examples.stillNoise 3 (-2) 7 Flat [] (fun _ => 0%Q) in
  snd out = (fun _ => 0%Q)
  /\ (2 = 0 -> get (fst out) (cellIndex 5 2 9) = BEDROCK)
  /\ (1 <= 2 <= 3 -> get (fst out) (cellIndex 5 2 9) = DIRT)
  /\ (2 = 4 -> get (fst out) (cellIndex 5 2 9) = GRASS)
  /\ (5 <= 2 -> get (fst out) (cellIndex 5 2 9) = AIR).
Proof.
  apply (flat_world_layers Examples.noSin Examples.stillNoise 3 (-2) 7 (fun _ => 0%Q) 5 2 9);
    unfold CHUNK_SIZE, CHUNK_HEIGHT; lia.
Defined.

End FlatProps.

(** ** Bedrock in generated terrain *)

Module BedrockProps.
Import Terms MoreExamples.
Import Num Block TypedArray Chunk NumFacts TypedArrayFacts Overlay FlatProps.

Ltac ordinary_block := split; [split; vm_compute; congruence | vm_compute; congruence].

Ltac guard_bounds G :=
  repeat (apply orb_false_elim in G; let G' := fresh "G" in destruct G as [G G']);
  repeat match goal with
  | H : (_ >=? _) = false |- _ => rewrite Z.geb_leb in H; apply Z.leb_gt in H
  | H : (_ >? _) = false |- _ => rewrite Z.gtb_ltb in H; apply Z.ltb_ge in H
  | H : (_ <? _) = false |- _ => apply Z.ltb_ge in H
  end.

Lemma get_set_cases d i v j :
  get (set_u8 d i v) j = get d j
  \/ (j = i /\ get (set_u8 d i v) j = v mod 256).
Proof.
  destruct (Z.eq_dec j i) as [-> | Hne].
  - destruct (Z_le_dec 0 i) as [H0 | H0]; [destruct (Z_lt_dec i (length d)) as [H1 | H1]|].
    + right. split; [reflexivity|]. unfold set_u8. cbv zeta.
      apply get_store_eq. lia.
    + left. rewrite set_u8_out by lia. reflexivity.
    + left. rewrite set_u8_out by lia. reflexivity.
  - left. apply get_set_u8_ne. exact Hne.
Qed.

Lemma floor_set d i v :
  bedrockFloor d -> 256 <= i -> ordinary v -> bedrockFloor (set_u8 d i v).
Proof.
  intros H Hi [Hv Hne] x y z Hx Hz Hy.
  destruct (get_set_cases d i v (cellIndex x y z)) as [E | [E E'] ].
  - rewrite E. apply H; assumption.
  - rewrite E', Z.mod_small by exact Hv.
    split; [intros; contradiction|].
    intros ->. unfold cellIndex, CHUNK_SIZE in *. lia.
Qed.

Lemma floor_leaf d i l :
  bedrockFloor d -> 256 <= i -> ordinary l -> bedrockFloor (leafAt d i l).
Proof.
  intros H Hi Hl. unfold leafAt. destruct (_ =? _); [apply floor_set|]; assumption.
Qed.

Lemma floor_makeTree d x z y t l h rnd :
  bedrockFloor d -> 1 <= y -> 2 <= h -> ordinary t -> ordinary l ->
  bedrockFloor (fst (makeTree d x z y t l h rnd)).
Proof.
  intros Hd Hy Hh Ht Hl. unfold makeTree.
  destruct (_ || _) eqn:G; [exact Hd|]. guard_bounds G.
  apply (for_range_inv (fun st : Uint8Array * Random.Source => bedrockFloor (fst st))).
  - cbn [fst]. apply for_range_inv; [exact Hd|].
    intros i d' Hi Hd'. apply floor_set; [exact Hd'| lia | exact Ht].
  - intros ly st Hly Hst. cbv zeta.
    apply (for_range_inv (fun st : Uint8Array * Random.Source => bedrockFloor (fst st)));
      [exact Hst|].
    intros lx st1 Hlx Hst1.
    apply (for_range_inv (fun st : Uint8Array * Random.Source => bedrockFloor (fst st)));
      [exact Hst1|].
    intros lz [d2 rnd2] Hlz Hst2. cbn [fst] in Hst2.
    assert (Hidx : 256 <= lx + lz * 16 + ly * 256)
      by (destruct (ly >? y + h - 1); lia).
    destruct (_ && _).
    + destruct (negb _); [exact Hst2|].
      destruct (Random.next rnd2) as [u r]. destruct (u >? 0.5)%js; [exact Hst2|].
      cbn [fst]. apply floor_leaf; assumption.
    + cbn [fst]. apply floor_leaf; assumption.
Qed.

Lemma floor_makeSpruceTree d x z y :
  bedrockFloor d -> 1 <= y -> bedrockFloor (makeSpruceTree d x z y).
Proof.
  intros Hd Hy. unfold makeSpruceTree.
  destruct (_ || _) eqn:G; [exact Hd|]. guard_bounds G.
  apply for_range_inv.
  - apply floor_set; [|lia|ordinary_block].
    apply for_range_inv; [exact Hd|].
    intros i d' Hi Hd'. apply floor_set; [exact Hd'| lia | ordinary_block].
  - intros i d1 Hi Hd1. cbv zeta.
    apply for_range_inv; [exact Hd1|]. intros lx d2 Hlx Hd2.
    apply for_range_inv; [exact Hd2|]. intros lz d3 Hlz Hd3.
    destruct (_ && _); [exact Hd3|].
    apply floor_leaf; [exact Hd3| |ordinary_block].
    destruct (jsmod i 2 =? 0); lia.
Qed.

Lemma floor_makeAcaciaTree d x z y :
  bedrockFloor d -> 1 <= y -> bedrockFloor (makeAcaciaTree d x z y).
Proof.
  intros Hd Hy. unfold makeAcaciaTree.
  destruct (_ || _) eqn:G; [exact Hd|]. guard_bounds G.
  apply for_range_inv.
  - apply for_range_inv; [exact Hd|].
    intros i d' Hi Hd'. apply floor_set; [exact Hd'| lia | ordinary_block].
  - intros lx d2 Hlx Hd2.
    apply for_range_inv; [exact Hd2|]. intros lz d3 Hlz Hd3.
    destruct (_ && _); [exact Hd3|].
    apply floor_set; [exact Hd3| lia |ordinary_block].
Qed.

(** The decoration of a column leaves the bedrock floor as it is: what it
    places sits above sea level and is never bedrock. *)
Lemma floor_decorateColumn Math_sin cx cz seed x z st :
  0 <= x < CHUNK_SIZE -> 0 <= z < CHUNK_SIZE ->
  bedrockFloor (g_data st) ->
  bedrockFloor (g_data (decorateColumn Math_sin cx cz seed x z st)).
Proof.
  intros Hx Hz Hst. unfold decorateColumn. cbv zeta.
  destruct (_ =? AIR); [exact Hst|].
  destruct (_ && _) eqn:Htop; [|exact Hst].
  apply andb_prop in Htop. destruct Htop as [_ Htop].
  rewrite Z.gtb_ltb in Htop. apply Z.ltb_lt in Htop.
  unfold SEA_LEVEL, CHUNK_SIZE in *.
  repeat match goal with
  | |- context [if ?b then _ else _] => destruct b
  | |- context [let '(_, _) := makeTree ?d ?x ?z ?y ?t ?l ?h ?r in _] =>
      let H := fresh "H" in
      assert (H : bedrockFloor (fst (makeTree d x z y t l h r)))
        by (apply floor_makeTree;
            [exact Hst | lia | lia | ordinary_block | ordinary_block]);
      destruct (makeTree d x z y t l h r); cbn [fst] in H
  end; cbn [g_data]; try assumption;
  first [ apply floor_set; [exact Hst | lia | ordinary_block]
        | apply floor_makeSpruceTree; [exact Hst | lia]
        | apply floor_makeAcaciaTree; [exact Hst | lia] ].
Qed.

Lemma classifyBiome_ordinary h t m rnd b s u r :
  classifyBiome h t m rnd = (b, s, u, r) -> ordinary s /\ ordinary u.
Proof.
  unfold classifyBiome.
  repeat match goal with
  | |- context [let '(_, _) := Random.next ?r in _] => destruct (Random.next r)
  | |- context [if ?c then _ else _] => destruct c
  end; intros E; inversion E; subst; split; ordinary_block.
Qed.

Lemma columnBlock_floor cm wx wz h b s u y :
  ordinary s -> ordinary u ->
  0 <= columnBlock cm wx wz h b s u y < 256
  /\ (columnBlock cm wx wz h b s u y = BEDROCK <-> y = 0).
Proof.
  intros [Hs Hs'] [Hu Hu']. unfold columnBlock. cbv zeta.
  destruct (Z.eqb_spec y 0) as [-> | Hy].
  - cbn [Z.gtb Z.compare andb]. split; [vm_compute; split; congruence|].
    split; reflexivity.
  - repeat match goal with
    | |- context [if ?c then _ else _] => destruct c
    end;
    (split; [first [exact Hs | exact Hu | vm_compute; split; congruence]|]);
    (split; [|intros; contradiction]); intros E;
    first [contradiction | discriminate E].
Qed.

Lemma fill_column_own (f : Z -> Z) d x y z :
  TypedArray.length d = CHUNK_SIZE * CHUNK_SIZE * CHUNK_HEIGHT ->
  0 <= x < CHUNK_SIZE -> 0 <= z < CHUNK_SIZE -> 0 <= y < CHUNK_HEIGHT ->
  0 <= f y < 256 ->
  get (for_range 0 CHUNK_HEIGHT (fun k d' =>
         set_u8 d' (x + z * CHUNK_SIZE + k * 256) (f k)) d) (cellIndex x y z) = f y.
Proof.
  intros Hd Hx Hz Hy Hf.
  apply (for_range_writes
           (fun d' : Uint8Array => TypedArray.length d' = TypedArray.length d)
           (fun d' : Uint8Array => get d' (cellIndex x y z) = f y) 0 CHUNK_HEIGHT y);
    [exact Hy|reflexivity| | |].
  - intros i d' _ <-. apply length_set_u8.
  - intros d' Hd'. apply get_set_u8_eq; [|exact Hf].
    rewrite Hd', Hd. unfold cellIndex, CHUNK_SIZE, CHUNK_HEIGHT in *. lia.
  - intros i d' Hi Hne HQ. rewrite get_set_u8_ne; [exact HQ|].
    unfold cellIndex, CHUNK_SIZE. lia.
Qed.

Lemma fill_column_other (f : Z -> Z) d i j x y z :
  0 <= i < CHUNK_SIZE -> 0 <= j < CHUNK_SIZE ->
  0 <= x < CHUNK_SIZE -> 0 <= z < CHUNK_SIZE ->
  (i, j) <> (x, z) ->
  get (for_range 0 CHUNK_HEIGHT (fun k d' =>
         set_u8 d' (i + j * CHUNK_SIZE + k * 256) (f k)) d) (cellIndex x y z)
  = get d (cellIndex x y z).
Proof.
  intros Hi Hj Hx Hz Hne.
  apply (for_range_inv (fun d' : Uint8Array =>
           get d' (cellIndex x y z) = get d (cellIndex x y z))); [reflexivity|].
  intros k d' Hk <-. apply get_set_u8_ne.
  unfold cellIndex, CHUNK_SIZE in *. intros E. apply Hne.
  assert (y = k) by lia. assert (z = j) by lia. assert (x = i) by lia.
  subst. reflexivity.
Qed.

Lemma genColumn_own cm cx cz wt x y z st :
  TypedArray.length (g_data st) = CHUNK_SIZE * CHUNK_SIZE * CHUNK_HEIGHT ->
  0 <= x < CHUNK_SIZE -> 0 <= z < CHUNK_SIZE -> 0 <= y < CHUNK_HEIGHT ->
  (get (g_data (genColumn cm cx cz wt x z st)) (cellIndex x y z) = BEDROCK <-> y = 0).
Proof.
  intros Hd Hx Hz Hy. unfold genColumn. cbv zeta.
  destruct (classifyBiome _ _ _ _) as [ [ [b s] u] r] eqn:C. cbn [g_data].
  apply classifyBiome_ordinary in C. destruct C as [Hs Hu].
  match goal with
  | |- context [columnBlock ?cm ?wx ?wz ?h b s u] =>
      pose proof (columnBlock_floor cm wx wz h b s u y Hs Hu) as [Hb Hiff];
      rewrite (fill_column_own (columnBlock cm wx wz h b s u)) by assumption
  end.
  exact Hiff.
Qed.

Lemma genColumn_other cm cx cz wt i j x y z st :
  0 <= i < CHUNK_SIZE -> 0 <= j < CHUNK_SIZE ->
  0 <= x < CHUNK_SIZE -> 0 <= z < CHUNK_SIZE ->
  (i, j) <> (x, z) ->
  get (g_data (genColumn cm cx cz wt i j st)) (cellIndex x y z)
  = get (g_data st) (cellIndex x y z).
Proof.
  intros Hi Hj Hx Hz Hne. unfold genColumn. cbv zeta.
  destruct (classifyBiome _ _ _ _) as [ [ [b s] u] r]. cbn [g_data].
  match goal with
  | |- context [columnBlock ?cm ?wx ?wz ?h b s u] =>
      apply (fill_column_other (columnBlock cm wx wz h b s u)); assumption
  end.
Qed.

Lemma genColumns_floor cm cx cz wt st0 :
  TypedArray.length (g_data st0) = CHUNK_SIZE * CHUNK_SIZE * CHUNK_HEIGHT ->
  bedrockFloor (g_data (for_range 0 CHUNK_SIZE (fun x st =>
     for_range 0 CHUNK_SIZE (fun z st => genColumn cm cx cz wt x z st) st) st0)).
Proof.
  intros H0 x y z Hx Hz Hy.
  set (I := fun st : GenState =>
              TypedArray.length (g_data st) = CHUNK_SIZE * CHUNK_SIZE * CHUNK_HEIGHT).
  set (Q := fun st : GenState => get (g_data st) (cellIndex x y z) = BEDROCK <-> y = 0).
  change (Q (for_range 0 CHUNK_SIZE (fun x st =>
     for_range 0 CHUNK_SIZE (fun z st => genColumn cm cx cz wt x z st) st) st0)).
  apply (for_range_writes I Q 0 CHUNK_SIZE x); [exact Hx|exact H0| | |].
  - intros i st1 _ H1. apply (for_range_inv I); [exact H1|].
    intros j st2 _ H2. unfold I in *. rewrite genColumn_length. exact H2.
  - intros st1 H1.
    apply (for_range_writes I Q 0 CHUNK_SIZE z); [exact Hz|exact H1| | |].
    + intros j st2 _ H2. unfold I in *. rewrite genColumn_length. exact H2.
    + intros st2 H2. apply genColumn_own; assumption.
    + intros j st2 Hj Hne HQ. unfold Q in *.
      rewrite genColumn_other; [exact HQ|assumption..|congruence].
  - intros i st1 Hi Hne HQ.
    apply (for_range_inv Q); [exact HQ|]. intros j st2 Hj HQ2. unfold Q in *.
    rewrite genColumn_other; [exact HQ2|assumption..|congruence].
Qed.

Lemma decorateColumns_floor Math_sin cx cz seed st0 :
  bedrockFloor (g_data st0) ->
  bedrockFloor (g_data (for_range 0 CHUNK_SIZE (fun x st =>
     for_range 0 CHUNK_SIZE (fun z st => decorateColumn Math_sin cx cz seed x z st) st) st0)).
Proof.
  intros H0.
  apply (for_range_inv (fun st : GenState => bedrockFloor (g_data st))); [exact H0|].
  intros x st1 Hx H1.
  apply (for_range_inv (fun st : GenState => bedrockFloor (g_data st))); [exact H1|].
  intros z st2 Hz H2. apply floor_decorateColumn; assumption.
Qed.

(** X16. In a chunk generated with an empty overlay, whatever the world
    type, the noise, the seed and the random draws, a cell holds bedrock if
    and only if it is at height 0: terrain, caves, water and the decoration
    pass (cactus, tall grass and the three kinds of tree) never put bedrock
    above the floor and never remove it from the floor. *)
Theorem bedrock_only_at_floor (Math_sin : Q -> Q) cm cx cz seed wt rnd x y z :
  0 <= x < CHUNK_SIZE -> 0 <= z < CHUNK_SIZE -> 0 <= y < CHUNK_HEIGHT ->
  (get (fst (generateChunkData Math_sin cm cx cz seed wt [] rnd)) (cellIndex x y z)
   = BEDROCK <-> y = 0).
Proof.
  intros Hx Hz Hy. unfold generateChunkData. cbv zeta.
  assert (Hflat : get (flatFill (make (CHUNK_SIZE * CHUNK_SIZE * CHUNK_HEIGHT)))
                    (cellIndex x y z) = BEDROCK <-> y = 0).
  { rewrite flatFill_cell by (reflexivity || assumption). unfold Terms.layerOf.
    destruct (Z.eqb_spec y 0); [split; [intros _; assumption|reflexivity] |].
    destruct (y <? 4); [split; [discriminate|contradiction] |].
    destruct (y =? 4); split; (discriminate || contradiction). }
  destruct wt; cbn [fst]; unfold applyModifications; cbn [fold_left];
    [ | exact Hflat | ];
    (apply decorateColumns_floor; [apply genColumns_floor; reflexivity| assumption..]).
Qed.

Lemma bedrock_only_at_floor_witness :
  get (fst (generateChunkData Examples.noSin Examples.stillNoise 3 (-2) 7 Default []
              (Random.constant 0%Q))) (cellIndex 5 0 9) = BEDROCK <-> 0 = 0.
Proof.
  apply (bedrock_only_at_floor Examples.noSin Examples.stillNoise 3 (-2) 7 Default
           (Random.constant 0%Q) 5 0 9);
    unfold CHUNK_SIZE, CHUNK_HEIGHT; lia.
Defined.

End BedrockProps.
